(** * Drag-and-drop reconciliation of the block editor

    A shallow embedding of [DragEventWatcher]
    (blocksuite/affine/widget-drag-handle/src/watchers/drag-event-watcher.ts)
    and the properties its design document states about it.

    Conventions of the embedding.
    - JavaScript numbers (coordinates, sizes, zoom) are exact integers [Z];
      rounding of doubles is outside the model.
    - A serialized bound ([SerializedXYWH], the text "[x,y,w,h]") is kept in
      its parsed form [Bound]; [Bound.deserialize] and [serialize] are each
      other's inverse and are not written out.  A missing (or empty) bound
      is [None].
    - A plain JavaScript object used as a record of string keys is an
      association list whose order is the insertion order of the keys
      (identifiers are nanoid texts, never array indices).  A [Set] of
      strings is a duplicate-free list in insertion order.
    - A live block carries the back-reference to its parent, so that
      [store.getParent] is a projection and walks to the root terminate.
    - Collaborators that live outside the file (schema, constants, views,
      the transformer job, the surface) are interfaces ([Class]es); the
      store they act on is passed along explicitly.
    - Awaited calls run one after the other, as the source chains them; a
      call of the transformer job is one step.  The callback of a promise
      that is not awaited runs after the handler has returned.  A
      [TypeError] raised on the way ends the handler at that point. *)

From Stdlib Require Import ZArith Lia Bool.
From stdpp Require Import base option list strings pretty.

Set Warnings "-register-all".

(** ** JavaScript objects and sets *)

Module Js.

(** Values stored under the keys of a child-id record
    ([Record<string, unknown>], in practice [true]). *)
Inductive JsVal : Type :=
| JUndefined
| JTrue
| JText (s : string).

Definition Obj (V : Type) : Type := list (string * V).

Fixpoint obj_get {V} (o : Obj V) (k : string) : option V :=
  match o with
  | [] => None
  | (k', v) :: o' => if String.eqb k k' then Some v else obj_get o' k
  end.

(** [o[k] = v]: an existing key keeps its place, a new one goes last. *)
Fixpoint obj_set {V} (o : Obj V) (k : string) (v : V) : Obj V :=
  match o with
  | [] => [(k, v)]
  | (k', v') :: o' =>
      if String.eqb k k' then (k, v) :: o' else (k', v') :: obj_set o' k v
  end.

(** [delete o[k]] *)
Fixpoint obj_delete {V} (o : Obj V) (k : string) : Obj V :=
  match o with
  | [] => []
  | (k', v') :: o' =>
      if String.eqb k k' then obj_delete o' k else (k', v') :: obj_delete o' k
  end.

Definition obj_keys {V} (o : Obj V) : list string := map fst o.
Definition obj_values {V} (o : Obj V) : list V := map snd o.
Definition obj_has {V} (o : Obj V) (k : string) : bool :=
  match obj_get o k with Some _ => true | None => false end.

(** [Set<string>] *)
Definition StrSet : Type := list string.

Definition set_has (s : StrSet) (x : string) : bool :=
  existsb (String.eqb x) s.
Definition set_add (s : StrSet) (x : string) : StrSet :=
  if set_has s x then s else s ++ [x].
Definition set_delete (s : StrSet) (x : string) : StrSet :=
  List.filter (fun y => negb (String.eqb x y)) s.

(** *** Prototype chains

    The objects the prototype test of [isGroupLikeElem] can meet: of a
    class its constructor function and its prototype object, and the two
    built-in prototypes the chain of every function ends in. *)
Inductive JsRef : Type :=
| CtorOf (cls : string)
| ProtoOf (cls : string)
| FunctionPrototype
| ObjectPrototype.

Definition ref_eqb (a b : JsRef) : bool :=
  match a, b with
  | CtorOf x, CtorOf y | ProtoOf x, ProtoOf y => String.eqb x y
  | FunctionPrototype, FunctionPrototype
  | ObjectPrototype, ObjectPrototype => true
  | _, _ => false
  end.

(** A class, as a registry of element models hands it out: its name and
    the names of the classes it extends, nearest first. *)
Record JsClass : Type := mkClass {
  className : string;
  superclasses : list string
}.

(** The prototype chain of the constructor function of a class: the
    constructors of the classes it extends, then [Function.prototype] and
    [Object.prototype]. *)
Definition constructorChain (c : JsClass) : list JsRef :=
  map CtorOf (superclasses c) ++ [FunctionPrototype; ObjectPrototype].

(** The prototype chain of an instance of a class: the prototype objects
    of the class and of the classes it extends, then [Object.prototype]. *)
Definition instanceChain (c : JsClass) : list JsRef :=
  map ProtoOf (className c :: superclasses c) ++ [ObjectPrototype].

(** [Object.isPrototypeOf.call (p, o)], [o] given by its chain *)
Definition isPrototypeOf (p : JsRef) (chain : list JsRef) : bool :=
  existsb (ref_eqb p) chain.

End Js.
Import Js.

(** ** Data model *)

Record Bound : Type := mkBound { b_x : Z; b_y : Z; b_w : Z; b_h : Z }.

Record Point : Type := mkPoint { p_x : Z; p_y : Z }.

(** [Bound.moveDelta] *)
Definition moveDelta (b : Bound) (dx dy : Z) : Bound :=
  mkBound (b_x b + dx) (b_y b + dy) (b_w b) (b_h b).

(** A serialized canvas element of [surface.props.elements]. *)
Record Elem : Type := mkElem {
  elem_id : string;
  elem_type : string;
  elem_xywh : option Bound;
  (** [children?.json] of a group-like element *)
  elem_children : option (Obj JsVal)
}.

Record Props : Type := mkProps {
  xywh : option Bound;
  style : option string;
  elements : option (Obj Elem);
  childElementIds : option (Obj JsVal)
}.

Inductive BlockSnapshot : Type :=
| Block (id : string) (flavour : string) (props : Props)
        (children : list BlockSnapshot).

Definition bs_id (b : BlockSnapshot) : string :=
  match b with Block i _ _ _ => i end.
Definition bs_flavour (b : BlockSnapshot) : string :=
  match b with Block _ f _ _ => f end.
Definition bs_props (b : BlockSnapshot) : Props :=
  match b with Block _ _ p _ => p end.
Definition bs_children (b : BlockSnapshot) : list BlockSnapshot :=
  match b with Block _ _ _ c => c end.

Record SliceSnapshot : Type := mkSlice {
  pageId : string;
  content : list BlockSnapshot
}.

(** [{ ...snapshot, content }] *)
Definition withContent (s : SliceSnapshot) (c : list BlockSnapshot)
  : SliceSnapshot := mkSlice (pageId s) c.

(** The model classes [matchModels] is asked about. *)
Inductive ModelClass : Type :=
| SurfaceBlockModel
| NoteBlockModel
| ListBlockModel
| DatabaseBlockModel
| RootBlockModel
| AttachmentBlockModel
| BookmarkBlockModel
| OtherBlockModel.

Definition class_eqb (a b : ModelClass) : bool :=
  match a, b with
  | SurfaceBlockModel, SurfaceBlockModel
  | NoteBlockModel, NoteBlockModel
  | ListBlockModel, ListBlockModel
  | DatabaseBlockModel, DatabaseBlockModel
  | RootBlockModel, RootBlockModel
  | AttachmentBlockModel, AttachmentBlockModel
  | BookmarkBlockModel, BookmarkBlockModel
  | OtherBlockModel, OtherBlockModel => true
  | _, _ => false
  end.

(** A live block.  [m_children] lists the identifiers of its children in
    order; [m_parent] is the block [store.getParent] answers. *)
Inductive BlockModel : Type :=
| Model (id : string) (cls : ModelClass) (role : string)
        (children : list string) (parent : option BlockModel).

Definition m_id (m : BlockModel) : string :=
  match m with Model i _ _ _ _ => i end.
Definition m_cls (m : BlockModel) : ModelClass :=
  match m with Model _ c _ _ _ => c end.
Definition m_role (m : BlockModel) : string :=
  match m with Model _ _ r _ _ => r end.
Definition m_children (m : BlockModel) : list string :=
  match m with Model _ _ _ c _ => c end.
Definition getParent (m : BlockModel) : option BlockModel :=
  match m with Model _ _ _ _ p => p end.

Definition matchModels (m : BlockModel) (classes : list ModelClass) : bool :=
  existsb (class_eqb (m_cls m)) classes.

Inductive DragMode : Type := FromBlock | FromGfx.

Record DragBlockEntity : Type := mkEntity {
  e_type : string;
  fromMode : option DragMode;
  snapshot : option SliceSnapshot;
  modelIds : list string
}.

Record DragFrom : Type := mkFrom { docId : string }.

Record DragBlockPayload : Type := mkPayload {
  bsEntity : option DragBlockEntity;
  from : option DragFrom
}.

Inductive Edge : Type := EdgeTop | EdgeBottom | EdgeLeft | EdgeRight.

Record DropPayload : Type := mkDropPayload { edge : option Edge }.

Record DomRect : Type := mkDomRect {
  left : Z; top : Z; width : Z; height : Z
}.

(** [Rect.fromLWTH (left, width, top, height)] *)
Record Rect : Type := fromLWTH {
  r_left : Z; r_width : Z; r_top : Z; r_height : Z
}.

Record BlockComponent : Type := mkComponent {
  model : BlockModel;
  (** [getRectByBlockComponent] of the component *)
  domRectOf : DomRect
}.

Inductive Placement : Type := PBefore | PAfter | PIn.

Record DropResult : Type := mkDropResult {
  placement : Placement;
  rect : Rect;
  ms_model : BlockModel;
  ms_rect : DomRect
}.

Inductive EditorMode : Type := PageMode | EdgelessMode.

(** ** Collaborators *)

Class Schema : Type := {
  (** [schema.safeValidate (flavour, parentFlavour)] *)
  safeValidate : string -> string -> bool;
  (** [isGfxGroupCompatibleModel] of the model the flavour's schema builds *)
  isGroupLikeBlock : string -> bool;
  (** [surface.getConstructor (type)]: the class registered for the
      element type, [None] for [undefined] *)
  getConstructor : string -> option JsClass
}.

(** [isGroupLikeElem] of [_mergeSnapshotToCurDoc]:
    [Object.isPrototypeOf.call (GfxGroupLikeElementModel.prototype,
    constructor)], the test being made on the constructor itself. *)
Definition isGroupLikeElem {schema : Schema} (type : string) : bool :=
  match getConstructor type with
  | Some constructor =>
      isPrototypeOf (ProtoOf "GfxGroupLikeElementModel")
        (constructorChain constructor)
  | None => false
  end.

Class Consts : Type := {
  BLOCK_CHILDREN_CONTAINER_PADDING_LEFT : Z;
  EMBED_CARD_WIDTH : string -> Z;
  EMBED_CARD_HEIGHT : string -> Z;
  DEFAULT_NOTE_WIDTH : Z;
  DEFAULT_NOTE_HEIGHT : Z
}.

(** The widget and the views around it. *)
Class Widget : Type := {
  (** [widget.doc.id] *)
  widgetDocId : string;
  (** [widget.scale.peek ()] *)
  scale : Z;
  (** bounding rectangle of [std.view.getBlock (id)], if the view exists *)
  getBlockView : string -> option DomRect;
  (** [gfx.viewport.toModelCoordFromClientCoord] *)
  toModelCoordFromClientCoord : Point -> Point;
  (** [gfx.elementsBound] *)
  elementsBound : Bound;
  (** identifiers of [gfx.surface] and of [store.root] *)
  surfaceId : string;
  rootId : string;
  (** [store.doc.id] *)
  storeDocId : string;
  (** [getSnapshotRect] of the widget's utilities: the aggregate bounding
      box of a snapshot, [None] when it has none *)
  getSnapshotRect : SliceSnapshot -> option Bound
}.

(** ** Drop target resolver *)

Section Resolver.
Context {schema : Schema} {consts : Consts} {widget : Widget}.

Definition payloadSnapshot (p : DragBlockPayload) : option SliceSnapshot :=
  match bsEntity p with Some e => snapshot e | None => None end.

Definition payloadFromMode (p : DragBlockPayload) : option DragMode :=
  match bsEntity p with Some e => fromMode e | None => None end.

(** [dragPayload.from?.docId === this.widget.doc.id] *)
Definition fromThisDoc (p : DragBlockPayload) : bool :=
  match from p with
  | Some f => String.eqb (docId f) widgetDocId
  | None => false
  end.

Definition isEdge (e : option Edge) (x : Edge) : bool :=
  match e, x with
  | Some EdgeTop, EdgeTop | Some EdgeBottom, EdgeBottom
  | Some EdgeLeft, EdgeLeft | Some EdgeRight, EdgeRight => true
  | _, _ => false
  end.

(** [_getFallbackInsertPlace]: the first block, starting from [block]
    itself and walking up, whose parent is a note. *)
Fixpoint getFallbackInsertPlace (curBlock : BlockModel) : option BlockModel :=
  match curBlock with
  | Model _ _ _ _ (Some parent) =>
      if matchModels parent [NoteBlockModel] then Some curBlock
      else getFallbackInsertPlace parent
  | Model _ _ _ _ None => None
  end.

Definition everyValidates (s : SliceSnapshot) (against : string) : bool :=
  forallb (fun block => safeValidate (bs_flavour block) against) (content s).

(** How a call of [_getDropResult] ends: with a decision, with [null], or
    with the [TypeError] of reading [domRect.left] when the fallback
    block has no view. *)
Inductive DropOutcome : Type :=
| Decision (result : DropResult)
| Null
| Throws.

(** [_getDropResult] *)
Definition getDropOutcome (dropBlock : BlockComponent)
    (dragPayload : DragBlockPayload) (dropPayload : DropPayload)
  : DropOutcome :=
  let model := model dropBlock in
  match payloadSnapshot dragPayload with
  | None => Null
  | Some snapshot =>
    match content snapshot with
    | [] => Null
    | first :: _ =>
      if negb (bool_decide (is_Some (from dragPayload)))
         || matchModels model [DatabaseBlockModel]
      then Null
      else
        let isDropOnNoteBlock := matchModels model [NoteBlockModel] in
        let edge := edge dropPayload in
        if isEdge edge EdgeRight && matchModels model [ListBlockModel] then
          let domRect := domRectOf dropBlock in
          if everyValidates snapshot "affine:list" then
            Decision
              (mkDropResult PIn
                 (fromLWTH
                    (left domRect + BLOCK_CHILDREN_CONTAINER_PADDING_LEFT)
                    (width domRect - BLOCK_CHILDREN_CONTAINER_PADDING_LEFT)
                    (top domRect + height domRect)
                    (3 * scale))
                 model domRect)
          else
            match getFallbackInsertPlace model with
            | Some fallbackModel =>
                match getBlockView (m_id fallbackModel) with
                | Some domRect =>
                    Decision
                      (mkDropResult PAfter
                         (fromLWTH (left domRect) (width domRect)
                            (top domRect + height domRect) (3 * scale))
                         fallbackModel domRect)
                | None => Throws
                end
            | None => Null
            end
        else
          let placement :=
            if isDropOnNoteBlock
               && safeValidate (bs_flavour first) "affine:note"
            then PIn
            else if isEdge edge EdgeTop then PBefore else PAfter in
          let domRect := domRectOf dropBlock in
          let y :=
            match placement with
            | PAfter => top domRect + height domRect
            | _ => top domRect - 3 * scale
            end in
          Decision
            (mkDropResult placement
               (fromLWTH (left domRect) (width domRect) y (3 * scale))
               model domRect)
    end
  end%Z.

(** The decision of [_getDropResult] as a handler goes on with it: [None]
    when the call returns [null], and when it throws, which ends the
    handler at that point. *)
Definition getDropResult (dropBlock : BlockComponent)
    (dragPayload : DragBlockPayload) (dropPayload : DropPayload)
  : option DropResult :=
  match getDropOutcome dropBlock dragPayload dropPayload with
  | Decision result => Some result
  | Null | Throws => None
  end.

(** The drop indicator: [None] when there is no indicator element, else
    its [rect] property ([None] for [null]). *)
Definition Indicator : Type := option (option Rect).

(** [_resetDropResult] *)
Definition resetDropResult (ind : Indicator) : Indicator :=
  match ind with Some _ => Some None | None => None end.

(** [_updateDropResult] *)
Definition updateDropResult (ind : Indicator) (r : option DropResult)
  : Indicator :=
  match ind with
  | None => None
  | Some _ =>
      match r with
      | Some res =>
          Some (Some (fromLWTH (r_left (rect res)) (r_width (rect res))
                        (r_top (rect res)) (r_height (rect res))))
      | None => Some None
      end
  end.

(** [_updateDropIndicator]; [closestNoteBlock] is the answer of
    [getParentNoteBlock] and [outOfNote] that of [isOutOfNoteBlock]. *)
Definition updateDropIndicator (ind : Indicator)
    (closestNoteBlock : option BlockComponent) (outOfNote : bool)
    (dragPayload : DragBlockPayload) (dropPayload : DropPayload)
    (dropBlock : BlockComponent) : Indicator :=
  match closestNoteBlock with
  | None => resetDropResult ind
  | Some _ =>
      if outOfNote then resetDropResult ind
      else
        match getDropOutcome dropBlock dragPayload dropPayload with
        | Decision result => updateDropResult ind (Some result)
        | Null => updateDropResult ind None
        | Throws => ind
        end
  end.

(** [_isUnderNoteBlock] *)
Fixpoint isUnderNoteBlock (m : BlockModel) : bool :=
  match m with
  | Model _ _ _ _ (Some curModel) =>
      if matchModels curModel [NoteBlockModel] then true
      else isUnderNoteBlock curModel
  | Model _ _ _ _ None => false
  end.

(** The [canDrop] predicate [_makeDropTarget] registers for the view of
    [viewModel]. *)
Definition canDrop (viewModel : BlockModel) (source : DragBlockPayload)
  : bool :=
  match bsEntity source with
  | Some e =>
      if String.eqb (e_type e) "blocks" then
        negb (fromThisDoc source)
        || forallb (fun id => negb (String.eqb id (m_id viewModel)))
             (modelIds e)
      else false
  | None => false
  end.

(** [_makeDropTarget]: [None] when the method returns before registering
    anything, else the accept predicate of the registered drop target. *)
Definition makeDropTarget (mode : EditorMode) (view : BlockComponent)
  : option (DragBlockPayload -> bool) :=
  let isUnderNote := isUnderNoteBlock (model view) in
  if matchModels (model view) [SurfaceBlockModel]
     || (match mode with PageMode => true | _ => false end
         && String.eqb (m_role (model view)) "root")
     || (match mode with EdgelessMode => true | _ => false end
         && negb (matchModels (model view) [NoteBlockModel])
         && negb (String.eqb (m_role (model view)) "root")
         && negb isUnderNote)
  then None
  else Some (canDrop (model view)).

End Resolver.

(** ** Coordinate transformer *)

Section Transformer.
Context {consts : Consts} {widget : Widget}.

Definition isCardFlavour (flavour : string) : bool :=
  String.eqb flavour "affine:attachment"
  || String.prefix "affine:embed-" flavour.

Definition rewriteBound (rect : Bound) (point : Point)
    (ignoreOriginalPos : bool) (b : Bound) : Bound :=
  if ignoreOriginalPos then mkBound (p_x point) (p_y point) (b_w b) (b_h b)
  else moveDelta b (- b_x rect + p_x point) (- b_y rect + p_y point).

Definition rewriteElem (rect : Bound) (point : Point)
    (ignoreOriginalPos : bool) (elem : Elem) : Elem :=
  match elem_xywh elem with
  | Some elemBound =>
      mkElem (elem_id elem) (elem_type elem)
        (Some (rewriteBound rect point ignoreOriginalPos elemBound))
        (elem_children elem)
  | None => elem
  end.

(** The inner [rewrite] of [_rewriteSnapshotXYWH]; the block is updated in
    place in the source and returned here. *)
Fixpoint rewrite (rect : Bound) (point : Point) (ignoreOriginalPos : bool)
    (block : BlockSnapshot) : BlockSnapshot :=
  match block with
  | Block id flavour props children =>
      if String.eqb flavour "affine:surface" then
        Block id flavour
          (mkProps (xywh props) (style props)
             (match elements props with
              | Some elems =>
                  Some (map (fun kv =>
                          (fst kv,
                           rewriteElem rect point ignoreOriginalPos (snd kv)))
                        elems)
              | None => None
              end)
             (childElementIds props))
          (map (rewrite rect point ignoreOriginalPos) children)
      else
        match xywh props with
        | Some blockBound =>
            if isCardFlavour flavour then
              let style :=
                match style props with Some s => s | None => "vertical" end in
              Block id flavour
                (mkProps
                   (Some (rewriteBound rect point ignoreOriginalPos
                            (mkBound (b_x blockBound) (b_y blockBound)
                               (EMBED_CARD_WIDTH style)
                               (EMBED_CARD_HEIGHT style))))
                   (Some style) (elements props) (childElementIds props))
                children
            else
              Block id flavour
                (mkProps
                   (Some (rewriteBound rect point ignoreOriginalPos
                            blockBound))
                   (style props) (elements props) (childElementIds props))
                children
        | None => block
        end
  end.

(** [_rewriteSnapshotXYWH] *)
Definition rewriteSnapshotXYWH (snapshot : SliceSnapshot) (point : Point)
    (ignoreOriginalPos : bool) : SliceSnapshot :=
  match getSnapshotRect snapshot with
  | None => snapshot
  | Some rect =>
      withContent snapshot
        (map (rewrite rect point ignoreOriginalPos) (content snapshot))
  end.

(** The spatial members [rewrite] visits, in visiting order: the elements
    of a surface that carry a bound, then the surface's children; any
    other block that carries a bound (its children are not visited). *)
Inductive Member : Type :=
| ElemMember (id : string) (bound : Bound)
| BlockMember (id : string) (flavour : string) (style : option string)
    (bound : Bound).

Definition elemMembers (elems : Obj Elem) : list Member :=
  flat_map (fun elem =>
              match elem_xywh elem with
              | Some b => [ElemMember (elem_id elem) b]
              | None => []
              end) (obj_values elems).

Fixpoint members (block : BlockSnapshot) : list Member :=
  match block with
  | Block id flavour props children =>
      if String.eqb flavour "affine:surface" then
        match elements props with
        | Some elems => elemMembers elems
        | None => []
        end ++ flat_map members children
      else
        match xywh props with
        | Some b => [BlockMember id flavour (style props) b]
        | None => []
        end
  end.

Definition snapshotMembers (snapshot : SliceSnapshot) : list Member :=
  flat_map members (content snapshot).

Definition memberBound (m : Member) : Bound :=
  match m with ElemMember _ b => b | BlockMember _ _ _ b => b end.

Definition memberId (m : Member) : string :=
  match m with ElemMember i _ => i | BlockMember i _ _ _ => i end.

End Transformer.

(** ** Largest member of a canvas selection *)

Record Largest : Type := mkLargest { size : Z; largestId : string }.

(** [if ((largestElem?.size ?? 0) < size) largestElem = { size, id }] *)
Definition consider (largestElem : option Largest) (sz : Z) (id : string)
  : option Largest :=
  if (match largestElem with Some l => size l | None => 0 end <? sz)%Z
  then Some (mkLargest sz id)
  else largestElem.

Definition area (b : Bound) : Z := (b_w b * b_h b)%Z.

Definition considerElem (acc : option Largest) (elem : Elem)
  : option Largest :=
  match elem_xywh elem with
  | Some bound => consider acc (area bound) (elem_id elem)
  | None => acc
  end.

(** The [walk] of [_onPageDrop].  The outer [None] is the [TypeError] of
    [Object.values] on a surface without [elements]. *)
Fixpoint walk (block : BlockSnapshot) (largestElem : option Largest)
  : option (option Largest) :=
  match block with
  | Block id flavour props children =>
      if String.eqb flavour "affine:surface" then
        match elements props with
        | None => None
        | Some elems =>
            fold_left
              (fun acc child =>
                 match acc with
                 | Some cur => walk child cur
                 | None => None
                 end)
              children
              (Some (fold_left considerElem (obj_values elems) largestElem))
        end
      else
        match xywh props with
        | Some bound => Some (consider largestElem (area bound) id)
        | None => Some largestElem
        end
  end.

(** [snapshot.content.forEach (walk)] *)
Definition walkAll (blocks : list BlockSnapshot)
    (largestElem : option Largest) : option (option Largest) :=
  fold_left
    (fun acc block =>
       match acc with Some cur => walk block cur | None => None end)
    blocks (Some largestElem).

(** ** The document mutation interface *)

Record SliceBlock : Type := mkSliceBlock {
  sb_id : string;
  sb_flavour : string
}.

(** What the promise of [job.snapshotToSlice] settles to: rejected,
    fulfilled without a slice, or fulfilled with the blocks it created. *)
Inductive JobResult : Type :=
| Rejected
| NoSlice
| Slice (blocks : list SliceBlock).

(** The property bags [store.addBlock] is called with. *)
Inductive AddProps : Type :=
| NoteProps (xywh : Bound)
| SurfaceRefProps (reference : string)
| LinkedDocProps (pageId : string).

Class Mutator (Store : Type) : Type := {
  (** [job.snapshotToSlice (snapshot, std.store, parent, index)] *)
  snapshotToSlice :
    Store -> SliceSnapshot -> string -> option Z -> JobResult * Store;
  (** [surface.addElement (element)] *)
  addElement : Store -> Elem -> string * Store;
  (** [store.addBlock (flavour, props, parent, index)] *)
  addBlock : Store -> string -> AddProps -> string -> option Z
             -> string * Store;
  (** [store.updateBlock (block, { xywh, style })] *)
  updateBlock : Store -> string -> option Bound -> option string -> Store;
  (** [store.getBlock (id)?.model] is defined *)
  hasBlock : Store -> string -> bool;
  (** [store.deleteBlock (block)] *)
  deleteBlock : Store -> string -> Store;
  (** [gfx.getElementById (id)?.elementBound] *)
  elementBoundOf : Store -> string -> option Bound
}.

(** ** Dependency resolver *)

Record BlockEntry : Type := mkEntry {
  surfaceChild : bool;
  entrySnapshot : BlockSnapshot
}.

(** The three tables [buildContainerTree] fills. *)
Record Analysis : Type := mkAnalysis {
  containerTree : Obj StrSet;
  elemMap : Obj Elem;
  blockMap : Obj BlockEntry
}.

(** [Object.values (containerTree).every (childSet => !childSet.has (x))] *)
Definition unclaimed (tree : Obj StrSet) (x : string) : bool :=
  forallb (fun childSet => negb (set_has childSet x)) (obj_values tree).

(** [tree[key] = tree[key] ?? new Set (); tree[key].add (x)] *)
Definition treeAdd (tree : Obj StrSet) (key x : string) : Obj StrSet :=
  obj_set tree key
    (set_add (match obj_get tree key with Some s => s | None => [] end) x).

(** [tree['root'].delete (x)] *)
Definition rootDelete (tree : Obj StrSet) (x : string) : Obj StrSet :=
  match obj_get tree "root" with
  | Some s => obj_set tree "root" (set_delete s x)
  | None => tree
  end.

Definition claimChildren (owner : string) (childIds : list string)
    (tree : Obj StrSet) : Obj StrSet :=
  fold_left (fun t childId => rootDelete (treeAdd t owner childId) childId)
    childIds tree.

Definition keysOf (o : option (Obj JsVal)) : list string :=
  match o with Some json => obj_keys json | None => [] end.

(** A single-member apply, as it was invoked: the member's snapshot
    identifier, what was handed to the mutator, the remap table at that
    moment, and the live identifier that came back. *)
Inductive Applied : Type :=
| AppliedBlock (id : string) (block : BlockSnapshot) (parent : string)
    (idRemap : Obj string) (newId : option string)
| AppliedElem (id : string) (elem : Elem) (idRemap : Obj string)
    (newId : string).

Definition appliedId (e : Applied) : string :=
  match e with AppliedBlock i _ _ _ _ => i | AppliedElem i _ _ _ => i end.

Definition appliedRemap (e : Applied) : Obj string :=
  match e with AppliedBlock _ _ _ m _ => m | AppliedElem _ _ m _ => m end.

Definition appliedNewId (e : Applied) : option string :=
  match e with AppliedBlock _ _ _ _ n => n | AppliedElem _ _ _ n => Some n end.

Inductive Status : Type :=
| Running
(** the recursion budget of the model ran out *)
| OutOfFuel
(** [slices.content[0]] of an empty slice *)
| Threw.

Record MergeState (Store : Type) : Type := mkMerge {
  ms_elemMap : Obj Elem;
  ms_blockMap : Obj BlockEntry;
  ms_idRemap : Obj string;
  ms_store : Store;
  ms_status : Status;
  (** ghost: the applies made so far, oldest first *)
  ms_applied : list Applied
}.
Arguments mkMerge {Store}.
Arguments ms_elemMap {Store}.
Arguments ms_blockMap {Store}.
Arguments ms_idRemap {Store}.
Arguments ms_store {Store}.
Arguments ms_status {Store}.
Arguments ms_applied {Store}.

Section Resolve.
Context {schema : Schema} {consts : Consts} {widget : Widget}.

(** One entry of [Object.entries (elemMap).forEach]. *)
Definition addElemEntry (tree : Obj StrSet) (entry : string * Elem)
  : Obj StrSet :=
  let elemId := fst entry in
  let elem := snd entry in
  if isGroupLikeElem (elem_type elem) then
    claimChildren elemId (keysOf (elem_children elem))
      (if unclaimed tree elemId then treeAdd tree "root" (elem_type elem)
       else tree)
  else treeAdd tree "root" elemId.

(** [buildContainerTree] *)
Fixpoint buildContainerTree (a : Analysis) (block : BlockSnapshot)
  : Analysis :=
  match block with
  | Block id flavour props children =>
      if String.eqb flavour "affine:surface" then
        let elemMap' :=
          match elements props with Some e => e | None => [] end in
        fold_left buildContainerTree children
          (mkAnalysis (fold_left addElemEntry elemMap' (containerTree a))
             elemMap' (blockMap a))
      else
        let isSurfaceChild := safeValidate flavour "affine:surface" in
        let blockMap' :=
          obj_set (blockMap a) id (mkEntry isSurfaceChild block) in
        let tree1 :=
          if unclaimed (containerTree a) id
          then treeAdd (containerTree a) "root" id
          else containerTree a in
        let tree2 :=
          if isGroupLikeBlock flavour
          then claimChildren id (keysOf (childElementIds props)) tree1
          else tree1 in
        mkAnalysis tree2 (elemMap a) blockMap'
  end.

Definition emptyAnalysis : Analysis := mkAnalysis [("root", [])] [] [].

Definition analyse (snapshot : SliceSnapshot) : Analysis :=
  fold_left buildContainerTree (content snapshot) emptyAnalysis.

Definition rootSet (a : Analysis) : StrSet :=
  match obj_get (containerTree a) "root" with Some s => s | None => [] end.

(** One step of the [Object.keys (childJson).forEach] that rewrites the
    references of a group-like member. *)
Definition remapKey (idRemap : Obj string) (childJson : Obj JsVal)
    (childId : string) : Obj JsVal :=
  match obj_get idRemap childId with
  | Some remappedId =>
      obj_delete
        (obj_set childJson remappedId
           (match obj_get childJson childId with
            | Some v => v
            | None => JUndefined
            end))
        childId
  | None => obj_delete childJson childId
  end.

Definition remapKeys (idRemap : Obj string) (childJson : Obj JsVal)
  : Obj JsVal :=
  fold_left (remapKey idRemap) (obj_keys childJson) childJson.

Definition remapBlock (idRemap : Obj string) (b : BlockSnapshot)
  : BlockSnapshot :=
  match b with
  | Block id flavour props children =>
      if isGroupLikeBlock flavour then
        Block id flavour
          (mkProps (xywh props) (style props) (elements props)
             (match childElementIds props with
              | Some ids => Some (remapKeys idRemap ids)
              | None => None
              end))
          children
      else b
  end.

Definition remapElem (idRemap : Obj string) (e : Elem) : Elem :=
  mkElem (elem_id e) (elem_type e) (elem_xywh e)
    (match elem_children e with
     | Some json => Some (remapKeys idRemap json)
     | None => None
     end).

(** The child-id set the applied member carried. *)
Definition appliedChildIds (e : Applied) : list string :=
  match e with
  | AppliedBlock _ b _ _ _ =>
      if isGroupLikeBlock (bs_flavour b)
      then keysOf (childElementIds (bs_props b)) else []
  | AppliedElem _ el _ _ => keysOf (elem_children el)
  end.

Context {Store : Type} {mutator : Mutator Store}.

(** [_dropToModel]; telemetry left out. *)
Definition dropToModel (st : Store) (snapshot : SliceSnapshot)
    (parent : string) (index : option Z)
  : option (list SliceBlock) * Store :=
  match snapshotToSlice st snapshot parent index with
  | (Slice blocks, st') => (Some blocks, st')
  | (_, st') => (None, st')
  end.

Definition setStatus (s : MergeState Store) (x : Status) : MergeState Store :=
  mkMerge (ms_elemMap s) (ms_blockMap s) (ms_idRemap s) (ms_store s) x
    (ms_applied s).

(** The part of [addInDependencyOrder] after the loop over the
    dependencies: apply the member [id] itself. *)
Definition applyMember (snapshot : SliceSnapshot) (id : string)
    (s : MergeState Store) : MergeState Store :=
  match obj_get (ms_blockMap s) id with
  | Some entry =>
      let blockSnapshot := remapBlock (ms_idRemap s) (entrySnapshot entry) in
      let blockMap' :=
        obj_set (ms_blockMap s) id
          (mkEntry (surfaceChild entry) blockSnapshot) in
      let parent := if surfaceChild entry then surfaceId else rootId in
      let '(slices, store') :=
        dropToModel (ms_store s) (withContent snapshot [blockSnapshot])
          parent None in
      match slices with
      | Some (first :: _) =>
          mkMerge (ms_elemMap s) blockMap'
            (obj_set (ms_idRemap s) id (sb_id first)) store' Running
            (ms_applied s
             ++ [AppliedBlock id blockSnapshot parent (ms_idRemap s)
                   (Some (sb_id first))])
      | Some [] =>
          mkMerge (ms_elemMap s) blockMap' (ms_idRemap s) store' Threw
            (ms_applied s
             ++ [AppliedBlock id blockSnapshot parent (ms_idRemap s) None])
      | None =>
          mkMerge (ms_elemMap s) blockMap' (ms_idRemap s) store' Running
            (ms_applied s
             ++ [AppliedBlock id blockSnapshot parent (ms_idRemap s) None])
      end
  | None =>
      match obj_get (ms_elemMap s) id with
      | Some elem =>
          let elem' := remapElem (ms_idRemap s) elem in
          let '(newId, store') := addElement (ms_store s) elem' in
          mkMerge (obj_set (ms_elemMap s) id elem') (ms_blockMap s)
            (obj_set (ms_idRemap s) id newId) store' Running
            (ms_applied s ++ [AppliedElem id elem' (ms_idRemap s) newId])
      | None => s
      end
  end.

(** [addInDependencyOrder].  [fuel] bounds the depth of the recursion, which
    the source leaves unbounded; a state that is no longer [Running] is
    handed back untouched. *)
Fixpoint addInDependencyOrder (tree : Obj StrSet) (snapshot : SliceSnapshot)
    (fuel : nat) (s : MergeState Store) (id : string) : MergeState Store :=
  match ms_status s with
  | Running =>
      match fuel with
      | O => setStatus s OutOfFuel
      | S fuel' =>
          let s1 :=
            match obj_get tree id with
            | Some childSet =>
                fold_left (addInDependencyOrder tree snapshot fuel') childSet s
            | None => s
            end in
          match ms_status s1 with
          | Running => applyMember snapshot id s1
          | _ => s1
          end
      end
  | _ => s
  end.

(** The point [_mergeSnapshotToCurDoc] aligns the snapshot to.
    [bound.h / 2] is exact for an even height; an odd height has no half
    among the integers of the embedding, and the quotient rounded down
    stands for it. *)
Definition mergePoint (point : option Point) : Point :=
  match point with
  | None =>
      mkPoint (b_x elementsBound + b_w elementsBound)
        (b_y elementsBound + b_h elementsBound / 2)
  | Some p => toModelCoordFromClientCoord p
  end%Z.

(** [_mergeSnapshotToCurDoc]; the remap table it resolves to is
    [ms_idRemap] of the result when that is still [Running]. *)
Definition mergeSnapshotToCurDoc (fuel : nat) (st : Store)
    (snapshot : SliceSnapshot) (point : option Point) : MergeState Store :=
  let snapshot' := rewriteSnapshotXYWH snapshot (mergePoint point) false in
  let a := analyse snapshot' in
  fold_left (addInDependencyOrder (containerTree a) snapshot' fuel)
    (rootSet a)
    (mkMerge (elemMap a) (blockMap a) [] st Running []).

End Resolve.

(** ** Structural mutator *)

Fixpoint indexOfFrom (l : list string) (x : string) (i : Z) : Z :=
  match l with
  | [] => (-1)%Z
  | y :: l' => if String.eqb y x then i else indexOfFrom l' x (i + 1)%Z
  end.

(** [children.indexOf (model)], blocks being told apart by identifier *)
Definition indexOf (l : list string) (x : string) : Z := indexOfFrom l x 0%Z.

(** [children[i]?.id] *)
Definition childAt (l : list string) (i : Z) : option string :=
  if (i <? 0)%Z then None else nth_error l (Z.to_nat i).

Definition idIs (o : option string) (id : string) : bool :=
  match o with Some x => String.eqb x id | None => false end.

(** What [_onPageDrop] asks for. *)
Inductive PageDropAction : Type :=
| NoMutation
| MergeThenReference (snapshot : SliceSnapshot) (parentId : string)
    (index : Z)
| AddBlock (flavour : string) (props : AddProps) (parentId : string)
    (index : Z)
| DropNoteOnNote (snapshot : SliceSnapshot) (parentId : string) (index : Z)
| DropToModel (snapshot : SliceSnapshot) (parentId : string) (index : Z).

Definition isGfx (m : option DragMode) : bool :=
  match m with Some FromGfx => true | _ => false end.

Section Mutate.
Context {schema : Schema} {consts : Consts} {widget : Widget}.

(** The parent and the insertion index [_onPageDrop] derives from a drop
    decision. *)
Definition dropParent (result : DropResult) : option BlockModel :=
  match placement result with
  | PIn => Some (ms_model result)
  | _ => getParent (ms_model result)
  end.

Definition dropIndex (result : DropResult) (parent : BlockModel) : Z :=
  match placement result with
  | PIn => 0
  | PBefore => indexOf (m_children parent) (m_id (ms_model result)) + 0
  | PAfter => indexOf (m_children parent) (m_id (ms_model result)) + 1
  end%Z.

(** The test under the comment "drop on the same place, do nothing". *)
Definition dropsOnSamePlace (dragPayload : DragBlockPayload)
    (result : DropResult) (parent : BlockModel) (index : Z)
    (snapshot : SliceSnapshot) : bool :=
  (fromThisDoc dragPayload
   && match placement result with PAfter => true | _ => false end
   && match content snapshot with
      | first :: _ => idIs (childAt (m_children parent) index) (bs_id first)
      | [] => false
      end)
  || (match placement result with PBefore => true | _ => false end
      && match List.last (map Some (content snapshot)) None with
         | Some lastBlock =>
             idIs (childAt (m_children parent) (index - 1)%Z) (bs_id lastBlock)
         | None => false
         end).

(** [_onPageDrop], up to the request it issues.  A [TypeError] on the way
    ends the handler before any request and is [NoMutation]. *)
Definition onPageDrop (dropBlock : BlockComponent)
    (dragPayload : DragBlockPayload) (dropPayload : DropPayload)
  : PageDropAction :=
  match getDropResult dropBlock dragPayload dropPayload,
        payloadSnapshot dragPayload with
  | Some result, Some snapshot =>
    match content snapshot with
    | [] => NoMutation
    | first :: _ =>
      match dropParent result with
      | None => NoMutation
      | Some parent =>
        let index := dropIndex result parent in
        if isGfx (payloadFromMode dragPayload)
           && negb (matchModels parent [NoteBlockModel])
        then NoMutation
        else if isGfx (payloadFromMode dragPayload)
                && negb (everyValidates snapshot "affine:note")
                && negb (forallb
                           (fun block =>
                              String.eqb (bs_flavour block) "affine:note")
                           (content snapshot))
        then
          if negb (fromThisDoc dragPayload)
          then MergeThenReference snapshot (m_id parent) index
          else
            match walkAll (content snapshot) None with
            | Some (Some largestElem) =>
                AddBlock "affine:surface-ref"
                  (SurfaceRefProps (largestId largestElem))
                  (m_id parent) index
            | Some None =>
                AddBlock "affine:embed-linked-doc" (LinkedDocProps storeDocId)
                  (m_id parent) index
            | None => NoMutation
            end
        else if matchModels parent [NoteBlockModel]
                && String.eqb (bs_flavour first) "affine:note"
        then
          if negb (String.eqb (m_id parent) (bs_id first))
          then DropNoteOnNote snapshot (m_id parent) index
          else NoMutation
        else if dropsOnSamePlace dragPayload result parent index snapshot
        then NoMutation
        else DropToModel snapshot (m_id parent) index
      end
    end
  | _, _ => NoMutation
  end.

Context {Store : Type} {mutator : Mutator Store}.

(** [_onDropNoteOnNote] *)
Definition onDropNoteOnNote (st : Store) (snapshot : SliceSnapshot)
    (parent : string) (index : Z) : Store :=
  match content snapshot with
  | first :: _ =>
      match snapshotToSlice st (withContent snapshot (bs_children first))
              parent (Some index) with
      | (Rejected, st') => st'
      | (_, st') =>
          if hasBlock st' (bs_id first) then deleteBlock st' (bs_id first)
          else st'
      end
  | [] => st
  end.

(** The scan of the merged members in the [then] of the cross-document
    fallback: [idRemap.forEach]. *)
Definition largestApplied (st : Store) (idRemap : Obj string)
  : option Largest :=
  fold_left
    (fun acc val =>
       match elementBoundOf st val with
       | Some elemBound => consider acc (area elemBound) val
       | None => acc
       end)
    (obj_values idRemap) None.

Definition mergeThenReference (fuel : nat) (st : Store)
    (snapshot : SliceSnapshot) (parentId : string) (index : Z) : Store :=
  let s := mergeSnapshotToCurDoc fuel st snapshot None in
  match ms_status s with
  | Running =>
      match largestApplied (ms_store s) (ms_idRemap s) with
      | None =>
          snd (addBlock (ms_store s) "affine:embed-linked-doc"
                 (LinkedDocProps storeDocId) parentId (Some index))
      | Some largestElem =>
          snd (addBlock (ms_store s) "affine:surface-ref"
                 (SurfaceRefProps (largestId largestElem)) parentId
                 (Some index))
      end
  | _ => ms_store s
  end.

(** Carrying out the request of [_onPageDrop]. *)
Definition perform (fuel : nat) (st : Store) (a : PageDropAction) : Store :=
  match a with
  | NoMutation => st
  | MergeThenReference snapshot parentId index =>
      mergeThenReference fuel st snapshot parentId index
  | AddBlock flavour props parentId index =>
      snd (addBlock st flavour props parentId (Some index))
  | DropNoteOnNote snapshot parentId index =>
      onDropNoteOnNote st snapshot parentId index
  | DropToModel snapshot parentId index =>
      snd (dropToModel st snapshot parentId (Some index))
  end.

(** The key [groupBy] files a block under in [_dropAsGfxBlock]. *)
Definition gfxParentOf (block : BlockSnapshot) : string :=
  if safeValidate (bs_flavour block) "affine:surface" then "affine:surface"
  else if safeValidate (bs_flavour block) "affine:page" then "affine:page"
  else "empty".

Definition groupOf (blocks : list BlockSnapshot) (key : string)
  : list BlockSnapshot :=
  List.filter (fun block => String.eqb (gfxParentOf block) key) blocks.

(** [slices?.content.forEach ((block, idx) => ...)]: card blocks get the
    rewritten bound and style of the unit at the same position. *)
Fixpoint updateCards (st : Store) (blocks : list SliceBlock)
    (content : list BlockSnapshot) (idx : nat) : Store :=
  match blocks with
  | [] => st
  | block :: rest =>
      if isCardFlavour (sb_flavour block) then
        match nth_error content idx with
        | Some unit =>
            updateCards
              (updateBlock st (sb_id block) (xywh (bs_props unit))
                 (style (bs_props unit)))
              rest content (S idx)
        | None => st
        end
      else updateCards st rest content (S idx)
  end.

(** A drop of the first branch of [_dropAsGfxBlock] as far as the handler
    runs it: the group is aligned and handed to the job.  The answer is
    [None] when the group is empty and no drop is made. *)
Definition startGroup (st : Store) (snapshot : SliceSnapshot)
    (group : list BlockSnapshot) (point : Point) (parent : string)
  : option (SliceSnapshot * option (list SliceBlock)) * Store :=
  match group with
  | [] => (None, st)
  | _ =>
      let groupSnapshot :=
        rewriteSnapshotXYWH (withContent snapshot group) point true in
      let '(slices, st') := dropToModel st groupSnapshot parent None in
      (Some (groupSnapshot, slices), st')
  end.

(** The [then] of such a drop. *)
Definition finishGroup (st : Store)
    (started : option (SliceSnapshot * option (list SliceBlock))) : Store :=
  match started with
  | Some (groupSnapshot, Some blocks) =>
      updateCards st blocks (content groupSnapshot) 0
  | _ => st
  end.

(** [_dropAsGfxBlock].  In the first branch neither drop is awaited: both
    are started, in this order, before the handler returns, and their
    [then] callbacks run afterwards in the same order. *)
Definition dropAsGfxBlock (st : Store) (snapshot : SliceSnapshot)
    (point : Point) : Store :=
  let point := toModelCoordFromClientCoord point in
  match groupOf (content snapshot) "empty" with
  | [] =>
      let '(surfaceDrop, st1) :=
        startGroup st snapshot (groupOf (content snapshot) "affine:surface")
          point surfaceId in
      let '(pageDrop, st2) :=
        startGroup st1 snapshot (groupOf (content snapshot) "affine:page")
          point rootId in
      finishGroup (finishGroup st2 surfaceDrop) pageDrop
  | _ :: _ =>
      let content' :=
        List.filter
          (fun block => safeValidate (bs_flavour block) "affine:note")
          (content snapshot) in
      let pos := toModelCoordFromClientCoord point in
      let '(noteId, st1) :=
        addBlock st "affine:note"
          (NoteProps
             (mkBound (p_x pos) (p_y pos) DEFAULT_NOTE_WIDTH
                DEFAULT_NOTE_HEIGHT))
          rootId None in
      snd (dropToModel st1 (withContent snapshot content') noteId None)
  end.

(** [_onEdgelessDrop]; the editor has a surface. *)
Definition onEdgelessDrop (fuel : nat) (st : Store)
    (dropBlock : BlockComponent) (dragPayload : DragBlockPayload)
    (dropPayload : DropPayload) (point : Point) : Store :=
  if matchModels (model dropBlock) [RootBlockModel] then
    if isGfx (payloadFromMode dragPayload) && fromThisDoc dragPayload then st
    else
      match payloadSnapshot dragPayload with
      | None => st
      | Some snapshot =>
          if isGfx (payloadFromMode dragPayload)
          then ms_store (mergeSnapshotToCurDoc fuel st snapshot (Some point))
          else dropAsGfxBlock st snapshot point
      end
  else perform fuel st (onPageDrop dropBlock dragPayload dropPayload).

(** [_onDrop] *)
Definition onDrop (mode : EditorMode) (fuel : nat) (st : Store)
    (dropBlock : BlockComponent) (dragPayload : DragBlockPayload)
    (dropPayload : DropPayload) (point : Point) : Store :=
  match mode with
  | EdgelessMode =>
      onEdgelessDrop fuel st dropBlock dragPayload dropPayload point
  | PageMode => perform fuel st (onPageDrop dropBlock dragPayload dropPayload)
  end.

End Mutate.

(** ** Snapshot of a canvas selection *)

(** A live canvas model: a primitive element ([block] is [None]) or a
    block shown on the canvas, with the answer of
    [isGfxGroupCompatibleModel] and, for a group, its [childElements]. *)
Inductive GfxModel : Type :=
| Gfx (id : string) (block : option BlockModel) (groupCompatible : bool)
      (childElements : list GfxModel).

Definition gfx_id (g : GfxModel) : string :=
  match g with Gfx i _ _ _ => i end.
Definition gfx_block (g : GfxModel) : option BlockModel :=
  match g with Gfx _ b _ _ => b end.

(** [getElementsInContainer] of [_getSnapshotFromSelectedGfxElms] *)
Fixpoint getElementsInContainer (elem : GfxModel)
    (selectedElements : list string) : list string :=
  match elem with
  | Gfx id _ groupCompatible childElements =>
      if groupCompatible then
        fold_left (fun selected child => getElementsInContainer child selected)
          childElements (selectedElements ++ [id])
      else selectedElements ++ [id]
  end.

(** One round of the [models.forEach] of [toSnapshotRequiredBlocks]; the
    state is [surfaceAdded] and [blocks]. *)
Definition requireBlock (getElementById : string -> option GfxModel)
    (surface : BlockModel) (state : bool * list BlockModel) (id : string)
  : bool * list BlockModel :=
  let addSurface :=
    if fst state then state else (true, snd state ++ [surface]) in
  match getElementById id with
  | None => state
  | Some (Gfx _ None _ _) => addSurface
  | Some (Gfx _ (Some model) _ _) =>
      match getParent model with
      | Some parentModel =>
          if matchModels parentModel [SurfaceBlockModel] then addSurface
          else (fst state, snd state ++ [model])
      | None => (fst state, snd state ++ [model])
      end
  end.

(** [toSnapshotRequiredBlocks] *)
Definition toSnapshotRequiredBlocks
    (getElementById : string -> option GfxModel) (surface : BlockModel)
    (models : list string) : list BlockModel :=
  snd (fold_left (requireBlock getElementById surface) models (false, [])).

(** The blocks [_getSnapshotFromSelectedGfxElms] hands to [_toSnapshot];
    [None] when the selected element is gone. *)
Definition blocksOfSelectedGfxElms
    (getElementById : string -> option GfxModel) (surface : BlockModel)
    (selectedElmId : string) : option (list BlockModel) :=
  match getElementById selectedElmId with
  | None => None
  | Some selectedElm =>
      Some (toSnapshotRequiredBlocks getElementById surface
              (getElementsInContainer selectedElm []))
  end.

(** ** Snapshot of the hovered blocks *)

(** A block component of the page, as [_getSnapshotFromHoveredBlocks]
    looks at it. *)
Record HoveredBlock : Type := mkHovered {
  hb_id : string;
  (** [block instanceof ParagraphBlockComponent] *)
  hb_isParagraph : bool;
  (** [block.model.type] *)
  hb_type : string;
  (** [block.model.collapsed] *)
  hb_collapsed : bool;
  (** identifiers of [block.collapsedSiblings] *)
  hb_collapsedSiblings : list string
}.

Definition isToggledHeading (block : HoveredBlock) : bool :=
  hb_isParagraph block && String.prefix "h" (hb_type block)
  && hb_collapsed block.

Definition includesBlock (blocks : list HoveredBlock) (block : HoveredBlock)
  : bool :=
  existsb (fun b => String.eqb (hb_id b) (hb_id block)) blocks.

(** [block.collapsedSiblings.flatMap (sibling =>
    this.widget.host.view.getBlock (sibling.id) ?? [])] *)
Definition viewsOfSiblings (getBlock : string -> option HoveredBlock)
    (block : HoveredBlock) : list HoveredBlock :=
  flat_map (fun id => match getBlock id with Some c => [c] | None => [] end)
    (hb_collapsedSiblings block).

(** One round of the [flatMap] over the selected components; the state is
    [collapsedBlock] and the blocks produced so far. *)
Definition expandBlock (getBlock : string -> option HoveredBlock)
    (state : list HoveredBlock * list HoveredBlock) (block : HoveredBlock)
  : list HoveredBlock * list HoveredBlock :=
  if includesBlock (fst state) block then state
  else if isToggledHeading block then
    let collapsedSiblings := viewsOfSiblings getBlock block in
    (fst state ++ collapsedSiblings,
     snd state ++ block :: collapsedSiblings)
  else (fst state, snd state ++ [block]).

(** The [blocks] of [_getSnapshotFromHoveredBlocks] *)
Definition expandCollapsed (getBlock : string -> option HoveredBlock)
    (selectedBlockComponents : list HoveredBlock) : list HoveredBlock :=
  snd (fold_left (expandBlock getBlock) selectedBlockComponents ([], [])).

(** ** Opacity of the dragged content *)

Section Opacity.
(** The JavaScript numbers that are opacities of canvas elements, with the
    constant [OPACITY]. *)
Variable Num : Type.
Variable OPACITY : Num.

(** What is on screen: the opacity of every canvas element
    [gfx.getElementById] finds, and the [style.opacity] of every block
    view [std.view.getBlock] finds (the empty text when the property is
    not set). *)
Record Screen : Type := mkScreen {
  elementOpacity : Obj Num;
  viewOpacity : Obj string
}.

(** A callback pushed on [resetCallbacks].  The one of a view sets the
    original text back, or removes the property when that text is empty:
    either way [style.opacity] reads as the original afterwards. *)
Inductive ResetCallback : Type :=
| ResetElement (id : string) (originalOpacity : Num)
| ResetView (id : string) (originalOpacity : string).

Definition runReset (screen : Screen) (callback : ResetCallback) : Screen :=
  match callback with
  | ResetElement id originalOpacity =>
      mkScreen (obj_set (elementOpacity screen) id originalOpacity)
        (viewOpacity screen)
  | ResetView id originalOpacity =>
      mkScreen (elementOpacity screen)
        (obj_set (viewOpacity screen) id originalOpacity)
  end.

Record Dimming : Type := mkDimming {
  dimmed : Screen;
  resetCallbacks : list ResetCallback;
  (** [Object.keys] of a surface without [elements] *)
  threw : bool
}.

Definition dimElement (d : Dimming) (elemId : string) : Dimming :=
  if threw d then d
  else
    match obj_get (elementOpacity (dimmed d)) elemId with
    | Some originalOpacity =>
        mkDimming
          (mkScreen (obj_set (elementOpacity (dimmed d)) elemId OPACITY)
             (viewOpacity (dimmed d)))
          (resetCallbacks d ++ [ResetElement elemId originalOpacity])
          false
    | None => d
    end.

Definition dimView (d : Dimming) (id : string) : Dimming :=
  if threw d then d
  else
    match obj_get (viewOpacity (dimmed d)) id with
    | Some originalOpacity =>
        mkDimming
          (mkScreen (elementOpacity (dimmed d))
             (obj_set (viewOpacity (dimmed d)) id "0.7"))
          (resetCallbacks d ++ [ResetView id originalOpacity])
          false
    | None => d
    end.

(** The [traverse] of [_setOpacityOfDraggedBlocks] *)
Fixpoint traverse (d : Dimming) (block : BlockSnapshot) : Dimming :=
  match block with
  | Block id flavour props children =>
      if String.eqb flavour "affine:surface" then
        let d1 := fold_left traverse children d in
        if threw d1 then d1
        else
          match elements props with
          | Some elems => fold_left dimElement (obj_keys elems) d1
          | None => mkDimming (dimmed d1) (resetCallbacks d1) true
          end
      else dimView d id
  end.

(** [_setOpacityOfDraggedBlocks]: the screen afterwards and the new value
    of [this.resetOpacityCallbacks], which is left as it was when the
    traversal threw. *)
Definition setOpacityOfDraggedBlocks (screen : Screen)
    (resetOpacityCallbacks : list ResetCallback) (snapshot : SliceSnapshot)
  : Screen * list ResetCallback :=
  let d :=
    fold_left traverse (content snapshot) (mkDimming screen [] false) in
  (dimmed d, if threw d then resetOpacityCallbacks else resetCallbacks d).

(** The part of [_cleanup] that runs the reset callbacks. *)
Definition resetOpacity (screen : Screen)
    (resetOpacityCallbacks : list ResetCallback) : Screen :=
  fold_left runReset resetOpacityCallbacks screen.

End Opacity.

Arguments mkScreen {Num}.
Arguments elementOpacity {Num}.
Arguments viewOpacity {Num}.
Arguments ResetElement {Num}.
Arguments ResetView {Num}.
Arguments runReset {Num}.
Arguments mkDimming {Num}.
Arguments dimmed {Num}.
Arguments resetCallbacks {Num}.
Arguments threw {Num}.
Arguments dimElement {Num}.
Arguments dimView {Num}.
Arguments traverse {Num}.
Arguments setOpacityOfDraggedBlocks {Num}.
Arguments resetOpacity {Num}.

(** ** Vocabulary of the properties

    [expectedX], [expectedY] and [expectedSize] follow the wording of the
    design document, to be compared with what the code computes; the other
    definitions name parts of the behaviour of the code. *)

(** The [k]-th block on the way from [m] to the root ([m] itself for 0). *)
Fixpoint nthAncestor (k : nat) (m : BlockModel) : option BlockModel :=
  match k with
  | O => Some m
  | S k' =>
      match getParent m with
      | Some parent => nthAncestor k' parent
      | None => None
      end
  end.

Definition parentIsNote (m : BlockModel) : bool :=
  match getParent m with
  | Some parent => matchModels parent [NoteBlockModel]
  | None => false
  end.

(** The guard of the canvas-to-page fallback of [_onPageDrop]. *)
Definition takesCanvasFallback {schema : Schema}
    (dragPayload : DragBlockPayload) (parent : BlockModel)
    (snapshot : SliceSnapshot) : bool :=
  isGfx (payloadFromMode dragPayload)
  && matchModels parent [NoteBlockModel]
  && negb (everyValidates snapshot "affine:note")
  && negb (forallb (fun block => String.eqb (bs_flavour block) "affine:note")
             (content snapshot)).

(** Where the design document puts a spatial member after the rewrite:
    relative to the aggregate box [rect], or on the point itself. *)
Definition expectedX (rect : Bound) (point : Point) (absolute : bool)
    (m : Member) : Z :=
  if absolute then p_x point
  else (b_x (memberBound m) - b_x rect + p_x point)%Z.

Definition expectedY (rect : Bound) (point : Point) (absolute : bool)
    (m : Member) : Z :=
  if absolute then p_y point
  else (b_y (memberBound m) - b_y rect + p_y point)%Z.

(** The style a card is drawn in: its own, or vertical. *)
Definition cardStyle (style : option string) : string :=
  match style with Some s => s | None => "vertical" end.

(** The size the design document gives a member after the rewrite: the
    canonical card size for attachments and embeds, its own otherwise. *)
Definition expectedSize {consts : Consts} (m : Member) : Z * Z :=
  match m with
  | ElemMember _ b => (b_w b, b_h b)
  | BlockMember _ flavour style b =>
      if isCardFlavour flavour
      then (EMBED_CARD_WIDTH (cardStyle style),
            EMBED_CARD_HEIGHT (cardStyle style))
      else (b_w b, b_h b)
  end.

(** The member as the rewrite leaves it. *)
Definition moved {consts : Consts} (rect : Bound) (point : Point)
    (absolute : bool) (m : Member) : Member :=
  match m with
  | ElemMember id b => ElemMember id (rewriteBound rect point absolute b)
  | BlockMember id flavour style b =>
      if isCardFlavour flavour then
        BlockMember id flavour (Some (cardStyle style))
          (rewriteBound rect point absolute
             (mkBound (b_x b) (b_y b) (EMBED_CARD_WIDTH (cardStyle style))
                (EMBED_CARD_HEIGHT (cardStyle style))))
      else BlockMember id flavour style (rewriteBound rect point absolute b)
  end.

(** One step of the scan for the largest member, over the members in
    scan order. *)
Definition considerMember (acc : option Largest) (m : Member)
  : option Largest :=
  consider acc (area (memberBound m)) (memberId m).


(** The members the cross-document fallback scans, in scan order: the
    live identifiers of the remap table that name a canvas element with a
    bound. *)
Definition mergedMembers {Store : Type} {mutator : Mutator Store}
    (st : Store) (idRemap : Obj string) : list Member :=
  flat_map
    (fun val =>
       match elementBoundOf st val with
       | Some elemBound => [ElemMember val elemBound]
       | None => []
       end)
    (obj_values idRemap).

(** ** Invariant of the dependency-ordered merge *)

(** What the design document asks of one single-member apply [ev], made
    after the applies [earlier]: every dependency of the applied member
    that belongs to the snapshot was applied before; for every dependency
    that obtained a live identifier, the remap table the apply saw holds
    one that an earlier apply of that dependency returned; and the child-id
    set handed over holds nothing but such recorded live identifiers. *)
Definition dependenciesResolved {schema : Schema} (tree : Obj StrSet)
    (member : string -> bool) (earlier : list Applied) (ev : Applied)
  : Prop :=
  (forall deps d,
      obj_get tree (appliedId ev) = Some deps -> In d deps ->
      (member d = true ->
       exists ev', In ev' earlier /\ appliedId ev' = d)
      /\ (forall ev' n,
             In ev' earlier -> appliedId ev' = d ->
             appliedNewId ev' = Some n ->
             exists n' ev'',
               obj_get (appliedRemap ev) d = Some n'
               /\ In ev'' earlier /\ appliedId ev'' = d
               /\ appliedNewId ev'' = Some n'))
  /\ (forall k,
         In k (appliedChildIds ev) ->
         exists d ev',
           obj_get (appliedRemap ev) d = Some k
           /\ In ev' earlier /\ appliedId ev' = d
           /\ appliedNewId ev' = Some k).

(** The invariant of a merge in progress. *)
Definition logResolved {schema : Schema} (tree : Obj StrSet)
    (member : string -> bool) (log : list Applied) : Prop :=
  forall earlier ev later,
    log = earlier ++ ev :: later ->
    dependenciesResolved tree member earlier ev.

Definition remapRecords {Store : Type} (s : MergeState Store) : Prop :=
  forall ev n,
    In ev (ms_applied s) -> appliedNewId ev = Some n ->
    exists n', obj_get (ms_idRemap s) (appliedId ev) = Some n'.

Definition remapSound {Store : Type} (s : MergeState Store) : Prop :=
  forall d n,
    obj_get (ms_idRemap s) d = Some n ->
    exists ev,
      In ev (ms_applied s) /\ appliedId ev = d /\ appliedNewId ev = Some n.

Definition sameMembers {Store : Type} (member : string -> bool)
    (s : MergeState Store) : Prop :=
  forall d, obj_has (ms_blockMap s) d || obj_has (ms_elemMap s) d = member d.

Definition mergeInvariant {schema : Schema} {Store : Type}
    (tree : Obj StrSet) (member : string -> bool) (s : MergeState Store)
  : Prop :=
  logResolved tree member (ms_applied s)
  /\ remapRecords s
  /\ remapSound s
  /\ sameMembers member s.

(** [s'] continues [s]: the log and the remap table only grow. *)
Definition continues {Store : Type} (s s' : MergeState Store) : Prop :=
  (exists more, ms_applied s' = ms_applied s ++ more)
  /\ (forall d n, obj_get (ms_idRemap s) d = Some n ->
                  exists n', obj_get (ms_idRemap s') d = Some n').

(** What a visit of [id] that is still running afterwards has done. *)
Definition visited {Store : Type} (member : string -> bool)
    (s s' : MergeState Store) (id : string) : Prop :=
  ms_status s' = Running ->
  ms_status s = Running
  /\ (member id = true ->
      exists ev, In ev (ms_applied s') /\ appliedId ev = id).

(** No block of the recursion tree rooted at [id] lies deeper than
    [fuel]. *)
Fixpoint depthWithin (tree : Obj StrSet) (fuel : nat) (id : string) : bool :=
  match fuel with
  | O => false
  | S fuel' =>
      match obj_get tree id with
      | Some childSet => forallb (depthWithin tree fuel') childSet
      | None => true
      end
  end.

(** ** Members and containers of a snapshot *)






(** A canvas element whose class is or extends
    [GfxGroupLikeElementModel]: the prototype object of that class is on
    the chain of the instances. *)
Definition isGroupElement {schema : Schema} (elem : Elem) : bool :=
  match getConstructor (elem_type elem) with
  | Some constructor =>
      isPrototypeOf (ProtoOf "GfxGroupLikeElementModel")
        (instanceChain constructor)
  | None => false
  end.








(** The analysis of a snapshot with every recorded element and block
    rewritten by the coordinate transformer. *)
Definition rewriteAnalysis {consts : Consts} (rect : Bound) (point : Point)
    (ignoreOriginalPos : bool) (a : Analysis) : Analysis :=
  mkAnalysis (containerTree a)
    (map (fun kv =>
            (fst kv, rewriteElem rect point ignoreOriginalPos (snd kv)))
       (elemMap a))
    (map (fun kv =>
            (fst kv,
             mkEntry (surfaceChild (snd kv))
               (rewrite rect point ignoreOriginalPos
                  (entrySnapshot (snd kv)))))
       (blockMap a)).

(** How the analysis files a block: under its own identifier, never the
    surface block itself, with the flag that tells whether the schema
    allows the block under the surface. *)
Definition entryFiled {schema : Schema} (id : string) (e : BlockEntry)
  : Prop :=
  bs_id (entrySnapshot e) = id
  /\ String.eqb (bs_flavour (entrySnapshot e)) "affine:surface" = false
  /\ surfaceChild e
     = safeValidate (bs_flavour (entrySnapshot e)) "affine:surface".

(** Where a block of the snapshot is inserted by the merge. *)
Definition appliedUnder {schema : Schema} {widget : Widget} (ev : Applied)
  : Prop :=
  match ev with
  | AppliedBlock id block parent _ _ =>
      bs_id block = id
      /\ String.eqb (bs_flavour block) "affine:surface" = false
      /\ parent
         = (if safeValidate (bs_flavour block) "affine:surface"
            then surfaceId else rootId)
  | AppliedElem _ _ _ _ => True
  end.

Definition filedInvariant {schema : Schema} {widget : Widget}
    {Store : Type} (s : MergeState Store) : Prop :=
  (forall id e, obj_get (ms_blockMap s) id = Some e -> entryFiled id e)
  /\ (forall ev, In ev (ms_applied s) -> appliedUnder ev).

(** The members of a canvas selection: the selected model, then, when it
    is group compatible, the members of its children, depth first. *)
Fixpoint selectionMembers (elem : GfxModel) : list string :=
  match elem with
  | Gfx id _ groupCompatible childElements =>
      id :: (if groupCompatible
             then flat_map selectionMembers childElements
             else [])
  end.

(** Where the snapshot of a canvas selection takes a member from: the
    surface, for a primitive element and for a block whose parent is the
    surface; the block itself, for any other block; nowhere, when the
    canvas has no model of that identifier. *)
Inductive Origin : Type :=
| Gone
| OnSurface
| OwnBlock (model : BlockModel).

Definition originOf (getElementById : string -> option GfxModel)
    (id : string) : Origin :=
  match getElementById id with
  | None => Gone
  | Some (Gfx _ None _ _) => OnSurface
  | Some (Gfx _ (Some model) _ _) =>
      match getParent model with
      | Some parentModel =>
          if matchModels parentModel [SurfaceBlockModel] then OnSurface
          else OwnBlock model
      | None => OwnBlock model
      end
  end.

Definition onSurface (getElementById : string -> option GfxModel)
    (id : string) : bool :=
  match originOf getElementById id with OnSurface => true | _ => false end.

Definition ownBlocks (getElementById : string -> option GfxModel)
    (ids : list string) : list BlockModel :=
  flat_map (fun id =>
              match originOf getElementById id with
              | OwnBlock model => [model]
              | _ => []
              end) ids.

(** What [_setOpacityOfDraggedBlocks] looks up while it walks a block, in
    the order of the walk: under a surface block the views of the
    children, then the canvas elements of the keys of [elements]; for any
    other block its own view. *)
Inductive DimTarget : Type :=
| ElementTarget (id : string)
| ViewTarget (id : string).

#[global] Instance DimTarget_eq_dec : EqDecision DimTarget.
Proof. solve_decision. Defined.

Fixpoint dimTargets (block : BlockSnapshot) : list DimTarget :=
  match block with
  | Block id flavour props children =>
      if String.eqb flavour "affine:surface" then
        flat_map dimTargets children
        ++ map ElementTarget
             (match elements props with
              | Some elems => obj_keys elems
              | None => []
              end)
      else [ViewTarget id]
  end.

(** Every surface block the walk reaches has an [elements] record. *)
Fixpoint surfacesHaveElements (block : BlockSnapshot) : bool :=
  match block with
  | Block _ flavour props children =>
      if String.eqb flavour "affine:surface" then
        forallb surfacesHaveElements children
        && match elements props with Some _ => true | None => false end
      else true
  end.

Section OpacityVocabulary.
Variable Num : Type.
Variable OPACITY : Num.

(** The opacity a target reads as on a screen. *)
Definition readAt (t : DimTarget) (screen : Screen Num)
  : option (Num + string) :=
  match t with
  | ElementTarget id => option_map inl (obj_get (elementOpacity screen) id)
  | ViewTarget id => option_map inr (obj_get (viewOpacity screen) id)
  end.

Definition dimTarget (d : Dimming Num) (t : DimTarget) : Dimming Num :=
  match t with
  | ElementTarget id => dimElement OPACITY d id
  | ViewTarget id => dimView d id
  end.

Definition dimReading (t : DimTarget) : option (Num + string) :=
  match t with
  | ElementTarget _ => Some (inl OPACITY)
  | ViewTarget _ => Some (inr "0.7")
  end.

End OpacityVocabulary.

Arguments readAt {Num}.
Arguments dimTarget {Num}.
Arguments dimReading {Num}.

(** ** Sample collaborators and inputs

    A small schema in the shape of the editor's, and a mutator that records
    the calls it receives and hands out the identifiers live0, live1, ... *)

Module Sample.

Definition isContent (flavour : string) : bool :=
  existsb (String.eqb flavour)
    ["affine:paragraph"; "affine:list"; "affine:attachment";
     "affine:bookmark"; "affine:image"; "affine:database"].

Definition sampleValidate (flavour parent : string) : bool :=
  if String.eqb parent "affine:page" then
    existsb (String.eqb flavour) ["affine:note"; "affine:surface"]
  else if String.eqb parent "affine:surface" then
    existsb (String.eqb flavour)
      ["affine:frame"; "affine:image"; "affine:attachment";
       "affine:bookmark"; "affine:edgeless-text"]
  else if String.eqb parent "affine:note" then isContent flavour
  else if String.eqb parent "affine:list" then
    String.eqb flavour "affine:list"
  else false.

Definition schema : Schema := {|
  safeValidate := sampleValidate;
  isGroupLikeBlock := String.eqb "affine:frame";
  getConstructor := fun type =>
    if String.eqb type "group" then
      Some (mkClass "GroupElementModel"
              ["GfxGroupLikeElementModel"; "GfxPrimitiveElementModel"])
    else if String.eqb type "mindmap" then
      Some (mkClass "MindmapElementModel"
              ["GfxGroupLikeElementModel"; "GfxPrimitiveElementModel"])
    else if String.eqb type "shape" then
      Some (mkClass "ShapeElementModel" ["GfxPrimitiveElementModel"])
    else None
|}.

Definition consts : Consts := {|
  BLOCK_CHILDREN_CONTAINER_PADDING_LEFT := 24;
  EMBED_CARD_WIDTH := fun style =>
    if String.eqb style "vertical" then 364 else 752;
  EMBED_CARD_HEIGHT := fun style =>
    if String.eqb style "vertical" then 390 else 116;
  DEFAULT_NOTE_WIDTH := 800;
  DEFAULT_NOTE_HEIGHT := 92
|}%Z.

(** The smallest box around the bounds of the spatial members. *)
Definition boxAround (ms : list Member) : option Bound :=
  match ms with
  | [] => None
  | m :: rest =>
      let b := memberBound m in
      let x0 := fold_left Z.min (map (fun m => b_x (memberBound m)) rest)
                  (b_x b) in
      let y0 := fold_left Z.min (map (fun m => b_y (memberBound m)) rest)
                  (b_y b) in
      let x1 := fold_left Z.max
                  (map (fun m => b_x (memberBound m) + b_w (memberBound m))
                     rest) (b_x b + b_w b) in
      let y1 := fold_left Z.max
                  (map (fun m => b_y (memberBound m) + b_h (memberBound m))
                     rest) (b_y b + b_h b) in
      Some (mkBound x0 y0 (x1 - x0) (y1 - y0))
  end%Z.

Definition widget : Widget := {|
  widgetDocId := "doc1";
  scale := 1;
  getBlockView := fun _ => Some (mkDomRect 0 0 100 20);
  toModelCoordFromClientCoord := fun p => mkPoint (p_x p + 10) (p_y p + 10);
  elementsBound := mkBound 0 0 200 100;
  surfaceId := "surface1";
  rootId := "root1";
  storeDocId := "doc1";
  getSnapshotRect := fun s => boxAround (snapshotMembers s)
|}%Z.

Inductive Call : Type :=
| CallSnapshotToSlice (snapshot : SliceSnapshot) (parent : string)
    (index : option Z)
| CallAddElement (elem : Elem)
| CallAddBlock (flavour : string) (props : AddProps) (parent : string)
    (index : option Z)
| CallUpdateBlock (id : string) (xywh : option Bound) (style : option string)
| CallDeleteBlock (id : string).

Record Recorder : Type := mkRecorder {
  calls : list Call;
  (** identifiers of the blocks of the document *)
  blocks : list string;
  (** bounds of the canvas elements of the document *)
  bounds : Obj (option Bound);
  next : nat
}.

Definition liveId (n : nat) : string := "live" ++ pretty n.

Fixpoint freshBlocks (units : list BlockSnapshot) (n : nat)
  : list SliceBlock :=
  match units with
  | [] => []
  | u :: rest =>
      mkSliceBlock (liveId n) (bs_flavour u) :: freshBlocks rest (S n)
  end.

Definition recorder : Mutator Recorder := {|
  snapshotToSlice := fun st snapshot parent index =>
    let created := freshBlocks (content snapshot) (next st) in
    (Slice created,
     mkRecorder (calls st ++ [CallSnapshotToSlice snapshot parent index])
       (blocks st ++ map sb_id created) (bounds st)
       (next st + length created));
  addElement := fun st elem =>
    (liveId (next st),
     mkRecorder (calls st ++ [CallAddElement elem]) (blocks st)
       (obj_set (bounds st) (liveId (next st)) (elem_xywh elem))
       (S (next st)));
  addBlock := fun st flavour props parent index =>
    (liveId (next st),
     mkRecorder (calls st ++ [CallAddBlock flavour props parent index])
       (blocks st ++ [liveId (next st)]) (bounds st) (S (next st)));
  updateBlock := fun st id xywh style =>
    mkRecorder (calls st ++ [CallUpdateBlock id xywh style]) (blocks st)
      (bounds st) (next st);
  hasBlock := fun st id => existsb (String.eqb id) (blocks st);
  deleteBlock := fun st id =>
    mkRecorder (calls st ++ [CallDeleteBlock id])
      (List.filter (fun b => negb (String.eqb id b)) (blocks st))
      (bounds st) (next st);
  elementBoundOf := fun st id =>
    match obj_get (bounds st) id with Some b => b | None => None end
|}.

Definition emptyDoc : Recorder := mkRecorder [] [] [] 0.

Definition noProps : Props := mkProps None None None None.

Definition shape (id : string) (b : Bound) : Elem :=
  mkElem id "shape" (Some b) None.

(** A canvas selection of one frame that owns one shape: the surface with
    the shape among its elements and the frame among its children. *)
Definition frameWithShape : SliceSnapshot :=
  mkSlice "doc2"
    [Block "surface2" "affine:surface"
       (mkProps None None
          (Some [("e1", shape "e1" (mkBound 10 10 40 20))]) None)
       [Block "F" "affine:frame"
          (mkProps (Some (mkBound 0 0 100 100)) None None
             (Some [("e1", JTrue)]))
          []]].


(** Four shapes of areas 10, 30, 30 and 20. *)
Definition fourShapes : SliceSnapshot :=
  mkSlice "doc1"
    [Block "surface1" "affine:surface"
       (mkProps None None
          (Some [("a", shape "a" (mkBound 0 0 10 1));
                 ("b", shape "b" (mkBound 0 0 5 6));
                 ("c", shape "c" (mkBound 0 0 3 10));
                 ("d", shape "d" (mkBound 0 0 4 5))])
          None)
       []].

Definition rootModel : BlockModel :=
  Model "root1" RootBlockModel "root" ["surface1"; "note1"] None.
Definition surfaceModel : BlockModel :=
  Model "surface1" SurfaceBlockModel "hub" [] (Some rootModel).
Definition noteModel : BlockModel :=
  Model "note1" NoteBlockModel "hub" ["p1"; "l1"; "p2"; "db1"]
    (Some rootModel).
Definition paragraph1 : BlockModel :=
  Model "p1" OtherBlockModel "content" [] (Some noteModel).
Definition listItem : BlockModel :=
  Model "l1" ListBlockModel "content" ["l2"] (Some noteModel).
Definition nestedItem : BlockModel :=
  Model "l2" ListBlockModel "content" [] (Some listItem).
Definition paragraph2 : BlockModel :=
  Model "p2" OtherBlockModel "content" [] (Some noteModel).
Definition database : BlockModel :=
  Model "db1" DatabaseBlockModel "content" [] (Some noteModel).

Definition component (m : BlockModel) : BlockComponent :=
  mkComponent m (mkDomRect 0 0 100 20).

Definition textUnit (id flavour : string) : BlockSnapshot :=
  Block id flavour noProps [].

Definition dragOf (docId : string) (mode : DragMode)
    (units : list BlockSnapshot) : DragBlockPayload :=
  mkPayload
    (Some (mkEntity "blocks" (Some mode) (Some (mkSlice docId units))
             (map bs_id units)))
    (Some (mkFrom docId)).

(** The store of the sample document, with a second note note2. *)
Definition doc1 : Recorder :=
  mkRecorder []
    ["root1"; "surface1"; "note1"; "p1"; "l1"; "l2"; "p2"; "db1"; "note2";
     "q1"]
    [] 0.

Definition noteUnit (id : string) (children : list BlockSnapshot)
  : BlockSnapshot :=
  Block id "affine:note" noProps children.

(** An attachment without a style and an embed in the horizontal style. *)
Definition cards : SliceSnapshot :=
  mkSlice "doc1"
    [Block "a1" "affine:attachment"
       (mkProps (Some (mkBound 3 4 50 60)) None None None) [];
     Block "b1" "affine:embed-github"
       (mkProps (Some (mkBound 13 24 70 80)) (Some "horizontal") None None)
       []].

(** The applies of the merge of [frameWithShape] into an empty document. *)
Definition frameRun : list Applied :=
  Eval vm_compute in
    ms_applied
      (mergeSnapshotToCurDoc (schema := schema) (consts := consts)
         (widget := widget) (mutator := recorder) 3 emptyDoc frameWithShape
         None).

End Sample.

(** ** Further sample inputs *)

Module Cases.

(** A canvas selection of one shape without extent. *)
Definition flatShape : SliceSnapshot :=
  mkSlice "doc1"
    [Block "surface1" "affine:surface"
       (mkProps None None
          (Some [("z", Sample.shape "z" (mkBound 0 0 0 5))]) None)
       []].

Definition frame (id : string) (childIds : list string) : BlockSnapshot :=
  Block id "affine:frame"
    (mkProps (Some (mkBound 0 0 100 100)) None None
       (Some (map (fun childId => (childId, JTrue)) childIds)))
    [].

(** Three frames: F0 owns F1, F1 owns F2, and F2 owns F1 again. *)
Definition frameCycle : SliceSnapshot :=
  mkSlice "doc2"
    [Block "surface2" "affine:surface" (mkProps None None (Some []) None)
       [frame "F0" ["F1"]; frame "F1" ["F2"]; frame "F2" ["F1"]]].

(** A canvas selection of one group that owns one shape, the group being
    listed before the shape. *)
Definition groupBeforeShape : SliceSnapshot :=
  mkSlice "doc2"
    [Block "surface2" "affine:surface"
       (mkProps None None
          (Some [("g1", mkElem "g1" "group" None (Some [("e1", JTrue)]));
                 ("e1", Sample.shape "e1" (mkBound 10 10 40 20))])
          None)
       []].

(** A canvas selection of a shape of 50 by 40 and an attachment that is
    stored with 10 by 10 and has no style. *)
Definition shapeAndCard : SliceSnapshot :=
  mkSlice "doc1"
    [Block "surface1" "affine:surface"
       (mkProps None None
          (Some [("s", Sample.shape "s" (mkBound 0 0 50 40))]) None)
       [Block "att" "affine:attachment"
          (mkProps (Some (mkBound 60 0 10 10)) None None None) []]].

(** The remap table after the shapes e1 and e3 were applied, and the
    child references of a group that owns e1, e2 and e3. *)
Definition someRemap : Obj string := [("e1", "live0"); ("e3", "live2")].
Definition someChildren : Obj JsVal :=
  [("e1", JTrue); ("e2", JTrue); ("e3", JText "x")].

(** A screen that shows the shape e1 at full opacity and the view of the
    frame F without an opacity of its own, next to an element and a view
    that are no part of the dragged snapshot. *)
Definition screen : Screen Z :=
  mkScreen [("e0", 100%Z); ("e1", 100%Z)] [("F", ""); ("note1", "0.5")].

End Cases.

(** * Properties *)

(** ** Drop target resolver *)

Section ResolverFacts.
Context {schema : Schema} {consts : Consts} {widget : Widget}.

Lemma forallb_differs_false (ids : list string) (x : string) :
  In x ids -> forallb (fun id => negb (String.eqb id x)) ids = false.
Proof.
  induction ids as [|y ids IH]; simpl; [tauto|].
  intros [->|Hin].
  - now rewrite String.eqb_refl.
  - rewrite (IH Hin). apply andb_false_r.
Qed.

Lemma fromThisDoc_spec (p : DragBlockPayload) :
  fromThisDoc p = true <->
  exists f, from p = Some f /\ docId f = widgetDocId.
Proof.
  unfold fromThisDoc. destruct (from p) as [f|].
  - rewrite String.eqb_eq. split; [eauto|].
    now intros (f' & [= <-] & Hd).
  - split; [discriminate|]. now intros (f & Hf & _).
Qed.

(** C10.  For a drag of blocks that comes from the document of the drop
    target, the accept predicate rejects every target whose identifier is
    among the dragged model identifiers; for a drag that comes from another
    document (or names no origin) it accepts whatever that list holds. *)
Theorem canDrop_same_doc_rejects_dragged (viewModel : BlockModel)
    (source : DragBlockPayload) (e : DragBlockEntity) :
  bsEntity source = Some e ->
  e_type e = "blocks" ->
  (forall f, from source = Some f -> docId f = widgetDocId ->
             In (m_id viewModel) (modelIds e) ->
             canDrop viewModel source = false)
  /\ ((forall f, from source = Some f -> docId f <> widgetDocId) ->
      canDrop viewModel source = true).
Proof.
  intros He Hty. unfold canDrop. rewrite He, Hty. simpl. split.
  - intros f Hf Hdoc Hin.
    assert (Hsame : fromThisDoc source = true)
      by (apply fromThisDoc_spec; eauto).
    rewrite Hsame. simpl. now apply forallb_differs_false.
  - intros Hother.
    destruct (fromThisDoc source) eqn:Hsame; [|reflexivity].
    apply fromThisDoc_spec in Hsame as (f & Hf & Hd).
    now destruct (Hother f Hf).
Qed.

Lemma getDropOutcome_null_cases (dropBlock : BlockComponent)
    (dragPayload : DragBlockPayload) (dropPayload : DropPayload) :
  payloadSnapshot dragPayload = None
  \/ (exists s, payloadSnapshot dragPayload = Some s /\ content s = [])
  \/ from dragPayload = None
  \/ matchModels (model dropBlock) [DatabaseBlockModel] = true ->
  getDropOutcome dropBlock dragPayload dropPayload = Null.
Proof.
  unfold getDropOutcome.
  intros [Hs|[(s & Hs & Hc)|[Hf|Hdb]]].
  - now rewrite Hs.
  - now rewrite Hs, Hc.
  - destruct (payloadSnapshot dragPayload) as [s|]; [|reflexivity].
    destruct (content s); [reflexivity|]. now rewrite Hf.
  - destruct (payloadSnapshot dragPayload) as [s|]; [|reflexivity].
    destruct (content s); [reflexivity|].
    rewrite Hdb. now rewrite orb_true_r.
Qed.

Lemma getDropResult_none_cases (dropBlock : BlockComponent)
    (dragPayload : DragBlockPayload) (dropPayload : DropPayload) :
  payloadSnapshot dragPayload = None
  \/ (exists s, payloadSnapshot dragPayload = Some s /\ content s = [])
  \/ from dragPayload = None
  \/ matchModels (model dropBlock) [DatabaseBlockModel] = true ->
  getDropResult dropBlock dragPayload dropPayload = None.
Proof.
  intros Hcase. unfold getDropResult.
  now rewrite (getDropOutcome_null_cases _ _ dropPayload Hcase).
Qed.

Lemma updateDropResult_none (ind : Indicator) :
  updateDropResult ind None = resetDropResult ind.
Proof. now destruct ind. Qed.

(** C9.  A surface block is never registered as a drop target; and when the
    dragged snapshot is missing or empty, or the payload names no origin,
    or the hovered block is a database, the resolver returns no decision
    and the indicator is left without a rectangle. *)
Theorem no_decision_for_disqualified_drops (mode : EditorMode)
    (dropBlock : BlockComponent) (dragPayload : DragBlockPayload)
    (dropPayload : DropPayload) (ind : Indicator)
    (closestNoteBlock : option BlockComponent) (outOfNote : bool) :
  (matchModels (model dropBlock) [SurfaceBlockModel] = true ->
   makeDropTarget mode dropBlock = None)
  /\ (payloadSnapshot dragPayload = None
      \/ (exists s, payloadSnapshot dragPayload = Some s /\ content s = [])
      \/ from dragPayload = None
      \/ matchModels (model dropBlock) [DatabaseBlockModel] = true ->
      getDropResult dropBlock dragPayload dropPayload = None
      /\ updateDropIndicator ind closestNoteBlock outOfNote dragPayload
           dropPayload dropBlock = resetDropResult ind).
Proof.
  split.
  - intros Hs. unfold makeDropTarget. now rewrite Hs.
  - intros Hcase. pose proof (getDropResult_none_cases _ _ dropPayload Hcase)
      as Hnone.
    split; [exact Hnone|].
    unfold updateDropIndicator.
    rewrite (getDropOutcome_null_cases _ _ dropPayload Hcase).
    destruct closestNoteBlock; [|reflexivity].
    destruct outOfNote; [reflexivity|apply updateDropResult_none].
Qed.

End ResolverFacts.

(** ** Coordinate transformer *)

Section BlockInduction.
Variable P : BlockSnapshot -> Prop.
Hypothesis step : forall id flavour props children,
  Forall P children -> P (Block id flavour props children).

Lemma block_ind : forall b, P b.
Proof.
  fix IH 1. intros [id flavour props children]. apply step.
  induction children as [|c cs IHcs]; constructor; [apply IH|exact IHcs].
Qed.

End BlockInduction.

Section TransformerFacts.
Context {consts : Consts} {widget : Widget}.

Lemma elemMembers_rewrite rect point absolute (elems : Obj Elem) :
  elemMembers
    (map (fun kv => (fst kv, rewriteElem rect point absolute (snd kv))) elems)
  = map (moved rect point absolute) (elemMembers elems).
Proof.
  unfold elemMembers, obj_values.
  induction elems as [|[k e] elems IH]; [reflexivity|].
  simpl. rewrite IH, map_app. f_equal.
  unfold rewriteElem. destruct (elem_xywh e) eqn:Hx; simpl; now rewrite ?Hx.
Qed.

Lemma members_rewrite rect point absolute (block : BlockSnapshot) :
  members (rewrite rect point absolute block)
  = map (moved rect point absolute) (members block).
Proof.
  induction block as [id flavour props children IH] using block_ind.
  simpl. destruct (String.eqb flavour "affine:surface") eqn:Hs.
  - simpl. rewrite Hs, map_app. f_equal.
    + destruct (elements props) as [elems|]; [|reflexivity].
      apply elemMembers_rewrite.
    + induction IH as [|c cs Hc _ IHcs]; [reflexivity|].
      simpl. now rewrite map_app, Hc, IHcs.
  - destruct (xywh props) as [b|] eqn:Hb.
    + destruct (isCardFlavour flavour) eqn:Hcard;
        simpl; rewrite Hs; simpl; now rewrite Hcard.
    + simpl. now rewrite Hs, Hb.
Qed.

Lemma snapshotMembers_rewrite (snapshot : SliceSnapshot) (point : Point)
    (absolute : bool) (rect : Bound) :
  getSnapshotRect snapshot = Some rect ->
  snapshotMembers (rewriteSnapshotXYWH snapshot point absolute)
  = map (moved rect point absolute) (snapshotMembers snapshot).
Proof.
  intros Hr. unfold rewriteSnapshotXYWH, snapshotMembers. rewrite Hr. simpl.
  induction (content snapshot) as [|b bs IH]; [reflexivity|].
  simpl. now rewrite map_app, members_rewrite, IH.
Qed.

Lemma moved_spec rect point absolute (m : Member) :
  memberId (moved rect point absolute m) = memberId m
  /\ b_x (memberBound (moved rect point absolute m))
     = expectedX rect point absolute m
  /\ b_y (memberBound (moved rect point absolute m))
     = expectedY rect point absolute m
  /\ (b_w (memberBound (moved rect point absolute m)),
      b_h (memberBound (moved rect point absolute m)))
     = expectedSize m.
Proof.
  unfold expectedX, expectedY, rewriteBound.
  destruct m as [id b|id flavour style b]; simpl.
  - destruct absolute; simpl; repeat split; try reflexivity; lia.
  - destruct (isCardFlavour flavour), absolute; simpl; repeat split;
      try reflexivity; lia.
Qed.

Lemma elems_unchanged rect point absolute (elems : Obj Elem) :
  elemMembers elems = [] ->
  map (fun kv => (fst kv, rewriteElem rect point absolute (snd kv))) elems
  = elems.
Proof.
  unfold elemMembers, obj_values.
  induction elems as [|[k e] elems IH]; [reflexivity|].
  simpl. intros Hnil. apply app_eq_nil in Hnil as [He Hrest].
  rewrite (IH Hrest). f_equal. f_equal.
  unfold rewriteElem. destruct (elem_xywh e) eqn:Hx; [discriminate|reflexivity].
Qed.

Lemma rewrite_without_bounds rect point absolute (block : BlockSnapshot) :
  members block = [] -> rewrite rect point absolute block = block.
Proof.
  induction block as [id flavour props children IH] using block_ind.
  simpl. destruct (String.eqb flavour "affine:surface") eqn:Hs.
  - intros Hnil. apply app_eq_nil in Hnil as [He Hc]. f_equal.
    + destruct props as [x s [elems|] c]; simpl in *; [|reflexivity].
      now rewrite elems_unchanged.
    + induction IH as [|c cs Hrec _ IHcs]; [reflexivity|].
      simpl in Hc. apply app_eq_nil in Hc as [Hc1 Hc2].
      simpl. now rewrite Hrec, IHcs.
  - destruct (xywh props); [discriminate|reflexivity].
Qed.

Lemma rewriteSnapshot_without_bounds (snapshot : SliceSnapshot)
    (point : Point) (absolute : bool) :
  getSnapshotRect snapshot = None \/ snapshotMembers snapshot = [] ->
  rewriteSnapshotXYWH snapshot point absolute = snapshot.
Proof.
  unfold rewriteSnapshotXYWH. intros [Hr|Hm]; [now rewrite Hr|].
  destruct (getSnapshotRect snapshot) as [rect|]; [|reflexivity].
  destruct snapshot as [pid blocks]. unfold withContent. simpl. f_equal.
  unfold snapshotMembers in Hm. simpl in Hm.
  induction blocks as [|b bs IH]; [reflexivity|].
  simpl in Hm. apply app_eq_nil in Hm as [Hb Hbs].
  simpl. now rewrite rewrite_without_bounds, IH.
Qed.

(** C3.  With an aggregate bounding box [rect] and a destination [point],
    the rewrite keeps the spatial members in place and number; in relative
    mode the member at (mx, my) ends at (mx - rect.x + point.x,
    my - rect.y + point.y), in absolute mode at the point itself; an
    attachment or embed block takes the canonical card width and height of
    its style (vertical when it names none), every other member keeps its
    size.  A snapshot without an aggregate box, or without any spatial
    member, is left as it is. *)
Theorem rewrite_aligns_every_member (snapshot : SliceSnapshot)
    (point : Point) :
  (forall rect absolute i m,
      getSnapshotRect snapshot = Some rect ->
      nth_error (snapshotMembers snapshot) i = Some m ->
      exists m',
        nth_error
          (snapshotMembers (rewriteSnapshotXYWH snapshot point absolute)) i
        = Some m'
        /\ memberId m' = memberId m
        /\ b_x (memberBound m') = expectedX rect point absolute m
        /\ b_y (memberBound m') = expectedY rect point absolute m
        /\ (b_w (memberBound m'), b_h (memberBound m')) = expectedSize m)
  /\ (forall rect absolute,
         getSnapshotRect snapshot = Some rect ->
         length (snapshotMembers (rewriteSnapshotXYWH snapshot point absolute))
         = length (snapshotMembers snapshot))
  /\ (forall absolute,
         getSnapshotRect snapshot = None \/ snapshotMembers snapshot = [] ->
         rewriteSnapshotXYWH snapshot point absolute = snapshot).
Proof.
  split; [|split].
  - intros rect absolute i m Hr Hm.
    exists (moved rect point absolute m). split.
    + rewrite (snapshotMembers_rewrite _ _ _ _ Hr).
      now rewrite nth_error_map, Hm.
    + apply moved_spec.
  - intros rect absolute Hr.
    now rewrite (snapshotMembers_rewrite _ _ _ _ Hr), length_map.
  - intros absolute. apply rewriteSnapshot_without_bounds.
Qed.

End TransformerFacts.

(** ** Largest member *)

Section LargestFacts.

Lemma considerElem_members (elems : Obj Elem) (acc : option Largest) :
  fold_left considerElem (obj_values elems) acc
  = fold_left considerMember (elemMembers elems) acc.
Proof.
  unfold elemMembers, obj_values. revert acc.
  induction elems as [|[k e] elems IH]; intros acc; [reflexivity|].
  simpl. rewrite fold_left_app, IH. f_equal.
  unfold considerElem. now destruct (elem_xywh e).
Qed.

Lemma walk_none_absorbs (children : list BlockSnapshot) :
  fold_left
    (fun acc child =>
       match acc with Some cur => walk child cur | None => None end)
    children None = None.
Proof. now induction children. Qed.

Lemma walk_members (block : BlockSnapshot) :
  forall acc r,
    walk block acc = Some r ->
    r = fold_left considerMember (members block) acc.
Proof.
  induction block as [id flavour props children IH] using block_ind.
  intros acc r. simpl.
  destruct (String.eqb flavour "affine:surface").
  - destruct (elements props) as [elems|]; [|discriminate].
    rewrite fold_left_app, <- considerElem_members.
    generalize (fold_left considerElem (obj_values elems) acc) as a.
    induction IH as [|c cs Hc _ IHcs]; intros a; simpl.
    + now intros [= <-].
    + destruct (walk c a) as [a'|] eqn:Hw.
      * rewrite fold_left_app, <- (Hc _ _ Hw). apply IHcs.
      * now rewrite walk_none_absorbs.
  - destruct (xywh props); now intros [= <-].
Qed.

Lemma walkAll_members (blocks : list BlockSnapshot) :
  forall acc r,
    walkAll blocks acc = Some r ->
    r = fold_left considerMember (flat_map members blocks) acc.
Proof.
  unfold walkAll.
  induction blocks as [|b bs IH]; intros acc r; simpl.
  - now intros [= <-].
  - destruct (walk b acc) as [a'|] eqn:Hw.
    + rewrite fold_left_app, <- (walk_members _ _ _ Hw). apply IH.
    + now rewrite walk_none_absorbs.
Qed.

(** What a scan under the strict comparison has found so far. *)
Lemma scan_finds_first_maximum (ms : list Member) :
  match fold_left considerMember ms None with
  | None => forall m, In m ms -> (area (memberBound m) <= 0)%Z
  | Some best =>
      (0 < size best)%Z
      /\ exists i m,
          nth_error ms i = Some m
          /\ memberId m = largestId best
          /\ area (memberBound m) = size best
          /\ (forall j m', nth_error ms j = Some m' ->
                           (area (memberBound m') <= size best)%Z)
          /\ (forall j m', (j < i)%nat -> nth_error ms j = Some m' ->
                           (area (memberBound m') < size best)%Z)
  end.
Proof.
  induction ms as [|x ms IH] using rev_ind; [simpl; tauto|].
  rewrite fold_left_app. simpl.
  assert (Hlast : nth_error (ms ++ [x]) (length ms) = Some x).
  { rewrite nth_error_app2 by lia. now rewrite Nat.sub_diag. }
  assert (Hsplit : forall j m',
             nth_error (ms ++ [x]) j = Some m' ->
             ((j < length ms)%nat /\ nth_error ms j = Some m')
             \/ (j = length ms /\ m' = x)).
  { intros j m' Hj. destruct (Nat.lt_ge_cases j (length ms)) as [Hlt|Hge].
    - left. split; [exact Hlt|]. now rewrite nth_error_app1 in Hj.
    - right. rewrite nth_error_app2 in Hj by exact Hge.
      destruct (j - length ms)%nat as [|n] eqn:Hd; simpl in Hj.
      + split; [lia|congruence].
      + now destruct n. }
  unfold considerMember at 1, consider.
  destruct (fold_left considerMember ms None) as [best|].
  - destruct IH as (Hpos & i & m & Hi & Hid & Har & Hmax & Hfirst).
    destruct (Z.ltb_spec (size best) (area (memberBound x))) as [Hlt|Hge].
    + simpl. split; [lia|]. exists (length ms), x.
      repeat split; try reflexivity; [exact Hlast| |].
      * intros j m' Hj. apply Hsplit in Hj as [[_ Hj]|[_ ->]]; [|lia].
        specialize (Hmax _ _ Hj). lia.
      * intros j m' Hlt' Hj. apply Hsplit in Hj as [[_ Hj]|[-> _]]; [|lia].
        specialize (Hmax _ _ Hj). lia.
    + split; [exact Hpos|]. exists i, m.
      assert (Hi' : (i < length ms)%nat)
        by (apply nth_error_Some; congruence).
      repeat split; try assumption.
      * now rewrite nth_error_app1.
      * intros j m' Hj. apply Hsplit in Hj as [[_ Hj]|[_ ->]]; [|exact Hge].
        exact (Hmax _ _ Hj).
      * intros j m' Hlt' Hj. apply Hsplit in Hj as [[_ Hj]|[-> _]]; [|lia].
        exact (Hfirst _ _ Hlt' Hj).
  - destruct (Z.ltb_spec 0 (area (memberBound x))) as [Hlt|Hge].
    + simpl. split; [exact Hlt|]. exists (length ms), x.
      repeat split; try reflexivity; [exact Hlast| |].
      * intros j m' Hj. apply Hsplit in Hj as [[_ Hj]|[_ ->]]; [|lia].
        apply nth_error_In in Hj. specialize (IH _ Hj). lia.
      * intros j m' Hlt' Hj. apply Hsplit in Hj as [[_ Hj]|[-> _]]; [|lia].
        apply nth_error_In in Hj. specialize (IH _ Hj). lia.
    + intros m Hin. apply in_app_or in Hin as [Hin|[<-|[]]]; [|exact Hge].
      exact (IH _ Hin).
Qed.

Lemma walkAll_first_maximum (blocks : list BlockSnapshot) (best : Largest) :
  walkAll blocks None = Some (Some best) ->
  exists i m,
    nth_error (flat_map members blocks) i = Some m
    /\ memberId m = largestId best
    /\ area (memberBound m) = size best
    /\ (forall j m', nth_error (flat_map members blocks) j = Some m' ->
                     (area (memberBound m') <= size best)%Z)
    /\ (forall j m', (j < i)%nat ->
                     nth_error (flat_map members blocks) j = Some m' ->
                     (area (memberBound m') < size best)%Z).
Proof.
  intros Hw. apply walkAll_members in Hw.
  pose proof (scan_finds_first_maximum (flat_map members blocks)) as Hscan.
  rewrite <- Hw in Hscan.
  destruct Hscan as (_ & i & m & Hi & Hid & Har & Hmax & Hfirst).
  exists i, m. repeat split; assumption.
Qed.

Context {schema : Schema} {consts : Consts} {widget : Widget}.
Context {Store : Type} {mutator : Mutator Store}.

Lemma largestApplied_members (st : Store) (idRemap : Obj string) :
  largestApplied st idRemap
  = fold_left considerMember (mergedMembers st idRemap) None.
Proof.
  unfold largestApplied, mergedMembers.
  generalize (@None Largest) as acc.
  induction (obj_values idRemap) as [|val vals IH]; intros acc;
    [reflexivity|].
  simpl. rewrite fold_left_app, IH. f_equal.
  now destruct (elementBoundOf st val).
Qed.

Lemma surface_ref_of_page_drop (dropBlock : BlockComponent)
    (dragPayload : DragBlockPayload) (dropPayload : DropPayload)
    (reference parentId : string) (index : Z) :
  onPageDrop dropBlock dragPayload dropPayload
  = AddBlock "affine:surface-ref" (SurfaceRefProps reference) parentId index ->
  exists snapshot best,
    payloadSnapshot dragPayload = Some snapshot
    /\ walkAll (content snapshot) None = Some (Some best)
    /\ largestId best = reference.
Proof.
  unfold onPageDrop.
  destruct (getDropResult dropBlock dragPayload dropPayload) as [result|];
    [|discriminate].
  destruct (payloadSnapshot dragPayload) as [snapshot|]; [|discriminate].
  destruct (content snapshot) as [|first rest] eqn:Hc; [discriminate|].
  destruct (dropParent result) as [parent|]; [|discriminate].
  destruct (isGfx (payloadFromMode dragPayload)
            && negb (matchModels parent [NoteBlockModel])); [discriminate|].
  destruct (isGfx (payloadFromMode dragPayload)
            && negb (everyValidates snapshot "affine:note") && _).
  - destruct (negb (fromThisDoc dragPayload)); [discriminate|].
    destruct (walkAll (first :: rest) None) as [[best|]|] eqn:Hw;
      [|discriminate..].
    intros [= <- _ _]. exists snapshot, best. now rewrite Hc.
  - destruct (matchModels parent [NoteBlockModel] && _).
    + destruct (negb _); discriminate.
    + destruct (dropsOnSamePlace _ _ _ _ _); discriminate.
Qed.

(** What the fallback of a drag from another document adds once the merge
    has resolved: a reference to the first merged member of the largest
    area, or a link to the document when no merged member has a positive
    area. *)
Lemma reference_after_merge (fuel : nat) (st : Store)
    (snapshot : SliceSnapshot) (parentId : string) (index : Z) :
  let s := mergeSnapshotToCurDoc fuel st snapshot None in
  let scanned := mergedMembers (ms_store s) (ms_idRemap s) in
  ms_status s = Running ->
  (exists i m,
      nth_error scanned i = Some m
      /\ (0 < area (memberBound m))%Z
      /\ (forall j m', nth_error scanned j = Some m' ->
                       (area (memberBound m') <= area (memberBound m))%Z)
      /\ (forall j m', (j < i)%nat -> nth_error scanned j = Some m' ->
                       (area (memberBound m') < area (memberBound m))%Z)
      /\ mergeThenReference fuel st snapshot parentId index
         = snd (addBlock (ms_store s) "affine:surface-ref"
                  (SurfaceRefProps (memberId m)) parentId (Some index)))
  \/ ((forall m, In m scanned -> (area (memberBound m) <= 0)%Z)
      /\ mergeThenReference fuel st snapshot parentId index
         = snd (addBlock (ms_store s) "affine:embed-linked-doc"
                  (LinkedDocProps storeDocId) parentId (Some index))).
Proof.
  intros s scanned Hrun. unfold mergeThenReference. fold s. rewrite Hrun.
  rewrite largestApplied_members. fold scanned.
  pose proof (scan_finds_first_maximum scanned) as Hscan.
  destruct (fold_left considerMember scanned None) as [best|].
  - left. destruct Hscan as (Hpos & i & m & Hi & Hid & Har & Hmax & Hfirst).
    exists i, m. rewrite Har, Hid.
    split; [exact Hi|]. split; [exact Hpos|]. split; [exact Hmax|].
    split; [exact Hfirst|reflexivity].
  - right. split; [exact Hscan|reflexivity].
Qed.

(** C4 (amended).  The member a surface reference is keyed to is the
    first one in scan order whose area, width times height, is the
    largest of all: no scanned member has a larger area and every member
    scanned before it has a strictly smaller one, so a later member of
    equal area never replaces it.  For a drag within the document the
    scan is over the snapshot as it was dragged, with the bounds it
    stores (the elements of a surface, then its nested blocks; any other
    block that carries a bound).  For a drag from another document the
    reference is added once the merge has resolved, and the scan is over
    the members the merge created that the canvas shows with a bound, in
    the order of the remap table; when none of them has a positive area
    a link to the document is added in place of the reference. *)
Theorem largest_member_is_first_maximum :
  (forall (dropBlock : BlockComponent) (dragPayload : DragBlockPayload)
          (dropPayload : DropPayload) (reference parentId : string)
          (index : Z),
      onPageDrop dropBlock dragPayload dropPayload
      = AddBlock "affine:surface-ref" (SurfaceRefProps reference) parentId
          index ->
      exists snapshot i m,
        payloadSnapshot dragPayload = Some snapshot
        /\ nth_error (snapshotMembers snapshot) i = Some m
        /\ memberId m = reference
        /\ (forall j m', nth_error (snapshotMembers snapshot) j = Some m' ->
                         (b_w (memberBound m') * b_h (memberBound m')
                          <= b_w (memberBound m) * b_h (memberBound m))%Z)
        /\ (forall j m', (j < i)%nat ->
                         nth_error (snapshotMembers snapshot) j = Some m' ->
                         (b_w (memberBound m') * b_h (memberBound m')
                          < b_w (memberBound m) * b_h (memberBound m))%Z))
  /\ (forall (dropBlock : BlockComponent) (dragPayload : DragBlockPayload)
             (dropPayload : DropPayload) (snapshot : SliceSnapshot)
             (parentId : string) (index : Z) (fuel : nat) (st : Store),
         onPageDrop dropBlock dragPayload dropPayload
         = MergeThenReference snapshot parentId index ->
         let s := mergeSnapshotToCurDoc fuel st snapshot None in
         let scanned := mergedMembers (ms_store s) (ms_idRemap s) in
         ms_status s = Running ->
         (exists i m,
             nth_error scanned i = Some m
             /\ (0 < b_w (memberBound m) * b_h (memberBound m))%Z
             /\ (forall j m', nth_error scanned j = Some m' ->
                              (b_w (memberBound m') * b_h (memberBound m')
                               <= b_w (memberBound m) * b_h (memberBound m))%Z)
             /\ (forall j m', (j < i)%nat -> nth_error scanned j = Some m' ->
                              (b_w (memberBound m') * b_h (memberBound m')
                               < b_w (memberBound m) * b_h (memberBound m))%Z)
             /\ perform fuel st (onPageDrop dropBlock dragPayload dropPayload)
                = snd (addBlock (ms_store s) "affine:surface-ref"
                         (SurfaceRefProps (memberId m)) parentId
                         (Some index)))
         \/ ((forall m, In m scanned ->
                        (b_w (memberBound m) * b_h (memberBound m) <= 0)%Z)
             /\ perform fuel st (onPageDrop dropBlock dragPayload dropPayload)
                = snd (addBlock (ms_store s) "affine:embed-linked-doc"
                         (LinkedDocProps storeDocId) parentId (Some index)))).
Proof.
  split.
  - intros dropBlock dragPayload dropPayload reference parentId index Hdrop.
    destruct (surface_ref_of_page_drop _ _ _ _ _ _ Hdrop)
      as (snapshot & best & Hsnap & Hw & <-).
    destruct (walkAll_first_maximum _ _ Hw)
      as (i & m & Hi & Hid & Har & Hmax & Hfirst).
    exists snapshot, i, m. fold (area (memberBound m)). rewrite Har.
    repeat split; assumption.
  - intros dropBlock dragPayload dropPayload snapshot parentId index fuel st
      Hdrop s scanned Hrun.
    rewrite Hdrop. cbn [perform].
    exact (reference_after_merge fuel st snapshot parentId index Hrun).
Qed.

End LargestFacts.

(** ** Structural mutator *)

Section MutatorFacts.
Context {schema : Schema} {consts : Consts} {widget : Widget}.

Lemma last_of_some (units : list BlockSnapshot) (first : BlockSnapshot) :
  units <> [] ->
  List.last (map Some units) None = Some (List.last units first).
Proof.
  induction units as [|u [|v units] IH]; [congruence|reflexivity|].
  intros _. change (List.last (map Some (v :: units)) None
                    = Some (List.last (v :: units) first)).
  now apply IH.
Qed.

(** C5 (amended).  A page drop with placement after or before whose
    decision would put the snapshot where it already sits leaves the tree
    alone: for placement after, when the drag comes from this document
    and the block at the insertion index is the first unit of the
    snapshot; for placement before, when the block just before the
    insertion index is the last unit.  The test is reached by every drop
    that is neither turned into a canvas reference nor a note dropped on
    a note; it then issues no request, and carrying out the answer leaves
    any store as it was.  A placement inside is not tested. *)
Theorem same_place_drop_is_noop (dropBlock : BlockComponent)
    (dragPayload : DragBlockPayload) (dropPayload : DropPayload)
    (result : DropResult) (snapshot : SliceSnapshot) (parent : BlockModel)
    (first : BlockSnapshot) (rest : list BlockSnapshot) :
  getDropResult dropBlock dragPayload dropPayload = Some result ->
  payloadSnapshot dragPayload = Some snapshot ->
  content snapshot = first :: rest ->
  dropParent result = Some parent ->
  takesCanvasFallback dragPayload parent snapshot = false ->
  matchModels parent [NoteBlockModel]
  && String.eqb (bs_flavour first) "affine:note" = false ->
  (placement result = PAfter
   /\ (exists f, from dragPayload = Some f /\ docId f = widgetDocId)
   /\ childAt (m_children parent) (dropIndex result parent)
      = Some (bs_id first))
  \/ (placement result = PBefore
      /\ childAt (m_children parent) (dropIndex result parent - 1)
         = Some (bs_id (List.last (content snapshot) first))) ->
  onPageDrop dropBlock dragPayload dropPayload = NoMutation
  /\ forall (Store : Type) (mutator : Mutator Store) (fuel : nat)
            (st : Store),
      perform fuel st (onPageDrop dropBlock dragPayload dropPayload) = st.
Proof.
  intros Hres Hsnap Hcontent Hparent Hfallback Hnote Hsame.
  assert (Hnone : onPageDrop dropBlock dragPayload dropPayload = NoMutation).
  { unfold onPageDrop. rewrite Hres, Hsnap, Hcontent, Hparent.
    unfold takesCanvasFallback in Hfallback. rewrite Hcontent in Hfallback.
    destruct (isGfx (payloadFromMode dragPayload));
      destruct (matchModels parent [NoteBlockModel]); simpl in *;
      try reflexivity; try rewrite Hfallback; try rewrite Hnote.
    all: assert (Hplace : dropsOnSamePlace dragPayload result parent
                            (dropIndex result parent) snapshot = true);
      [|now rewrite Hplace].
    all: unfold dropsOnSamePlace;
      destruct Hsame as [(Hp & Hdoc & Hchild)|(Hp & Hchild)]; rewrite Hp.
    all: try (apply fromThisDoc_spec in Hdoc; rewrite Hdoc, Hcontent, Hchild;
              simpl; now rewrite String.eqb_refl).
    all: rewrite (last_of_some (content snapshot) first)
           by (rewrite Hcontent; discriminate);
      rewrite Hchild; simpl; rewrite String.eqb_refl;
      now rewrite !andb_false_r. }
  split; [exact Hnone|]. intros Store mutator fuel st. now rewrite Hnone.
Qed.

(** C6 (amended).  A page drop whose first unit is a note, aimed at a
    parent that is a note too and not turned into a canvas reference: when
    the two identifiers differ the handler asks for a merge, which inserts
    the children of the dragged note under the target note at the computed
    index and then deletes the dragged note, provided the insertion was
    not rejected and a block of that identifier exists in the destination
    store (otherwise nothing is deleted); when the identifiers are the same
    no request is issued. *)
Theorem note_dropped_on_note_is_merged (dropBlock : BlockComponent)
    (dragPayload : DragBlockPayload) (dropPayload : DropPayload)
    (result : DropResult) (snapshot : SliceSnapshot) (parent : BlockModel)
    (first : BlockSnapshot) (rest : list BlockSnapshot) :
  getDropResult dropBlock dragPayload dropPayload = Some result ->
  payloadSnapshot dragPayload = Some snapshot ->
  content snapshot = first :: rest ->
  dropParent result = Some parent ->
  matchModels parent [NoteBlockModel] = true ->
  bs_flavour first = "affine:note" ->
  takesCanvasFallback dragPayload parent snapshot = false ->
  (m_id parent <> bs_id first ->
   onPageDrop dropBlock dragPayload dropPayload
   = DropNoteOnNote snapshot (m_id parent) (dropIndex result parent)
   /\ forall (Store : Type) (mutator : Mutator Store) (fuel : nat)
             (st : Store),
       let inserted :=
         snapshotToSlice st (withContent snapshot (bs_children first))
           (m_id parent) (Some (dropIndex result parent)) in
       (fst inserted <> Rejected ->
        hasBlock (snd inserted) (bs_id first) = true ->
        perform fuel st (onPageDrop dropBlock dragPayload dropPayload)
        = deleteBlock (snd inserted) (bs_id first))
       /\ (fst inserted = Rejected
           \/ hasBlock (snd inserted) (bs_id first) = false ->
           perform fuel st (onPageDrop dropBlock dragPayload dropPayload)
           = snd inserted))
  /\ (m_id parent = bs_id first ->
      onPageDrop dropBlock dragPayload dropPayload = NoMutation).
Proof.
  intros Hres Hsnap Hcontent Hparent Hnote Hflavour Hfallback.
  assert (Hcases : onPageDrop dropBlock dragPayload dropPayload
                   = if negb (String.eqb (m_id parent) (bs_id first))
                     then DropNoteOnNote snapshot (m_id parent)
                            (dropIndex result parent)
                     else NoMutation).
  { unfold onPageDrop. rewrite Hres, Hsnap, Hcontent, Hparent, Hnote.
    unfold takesCanvasFallback in Hfallback.
    rewrite Hcontent, Hnote in Hfallback. rewrite Hflavour. simpl.
    destruct (isGfx (payloadFromMode dragPayload)); simpl in *;
      [now rewrite Hfallback|reflexivity]. }
  split.
  - intros Hne. apply String.eqb_neq in Hne. rewrite Hne in Hcases.
    simpl in Hcases. split; [exact Hcases|].
    intros Store mutator fuel st inserted. rewrite Hcases. simpl.
    unfold onDropNoteOnNote. rewrite Hcontent. fold inserted.
    destruct inserted as [[| |blocks] st']; simpl; split.
    + now intros Hrej.
    + reflexivity.
    + now intros _ ->.
    + intros [Hrej| ->]; [discriminate|reflexivity].
    + now intros _ ->.
    + intros [Hrej| ->]; [discriminate|reflexivity].
  - intros Heq. apply String.eqb_eq in Heq. now rewrite Heq in Hcases.
Qed.

Lemma getFallbackInsertPlace_nearest (m : BlockModel) :
  match getFallbackInsertPlace m with
  | Some ancestor =>
      exists k,
        nthAncestor k m = Some ancestor
        /\ parentIsNote ancestor = true
        /\ forall j b, (j < k)%nat -> nthAncestor j m = Some b ->
                       parentIsNote b = false
  | None => forall k b, nthAncestor k m = Some b -> parentIsNote b = false
  end.
Proof.
  revert m. fix IH 1. intros [id cls role children [parent|]].
  - cbn [getFallbackInsertPlace].
    destruct (matchModels parent [NoteBlockModel]) eqn:Hn.
    + exists O. repeat split; [exact Hn|]. intros j b Hj. lia.
    + specialize (IH parent).
      destruct (getFallbackInsertPlace parent) as [ancestor|].
      * destruct IH as (k & Hk & Hp & Hmin). exists (S k).
        repeat split; [exact Hk|exact Hp|].
        intros [|j] b Hj Hb.
        -- injection Hb as <-. exact Hn.
        -- apply (Hmin j b); [lia|exact Hb].
      * intros [|k] b Hb.
        -- injection Hb as <-. exact Hn.
        -- exact (IH k b Hb).
  - simpl. intros [|k] b Hb; [|discriminate].
    now injection Hb as <-.
Qed.

Lemma list_is_not_database (m : BlockModel) :
  matchModels m [ListBlockModel] = true ->
  matchModels m [DatabaseBlockModel] = false
  /\ matchModels m [NoteBlockModel] = false.
Proof. unfold matchModels. simpl. now destruct (m_cls m). Qed.

(** C7 (amended).  On a list item hovered over its right edge, with a
    snapshot that has units and a payload that names its origin: when every
    unit validates as a child of a list, the decision is placement inside
    with the hovered item as target, and a drag that does not come from
    the canvas is dropped into the hovered item at index 0, before the
    children it already has (a drag from the canvas is not applied at
    all); when some unit does not validate, the decision is placement after
    the nearest block, the hovered item included, whose parent is a note,
    and there is no decision when no such block exists. *)
Theorem list_item_right_edge_drop (dropBlock : BlockComponent)
    (dragPayload : DragBlockPayload) (dropPayload : DropPayload)
    (snapshot : SliceSnapshot) (first : BlockSnapshot)
    (rest : list BlockSnapshot) :
  payloadSnapshot dragPayload = Some snapshot ->
  content snapshot = first :: rest ->
  from dragPayload <> None ->
  edge dropPayload = Some EdgeRight ->
  matchModels (model dropBlock) [ListBlockModel] = true ->
  (everyValidates snapshot "affine:list" = true ->
   (exists result,
       getDropResult dropBlock dragPayload dropPayload = Some result
       /\ placement result = PIn
       /\ ms_model result = model dropBlock)
   /\ (isGfx (payloadFromMode dragPayload) = false ->
       onPageDrop dropBlock dragPayload dropPayload
       = DropToModel snapshot (m_id (model dropBlock)) 0)
   /\ (isGfx (payloadFromMode dragPayload) = true ->
       onPageDrop dropBlock dragPayload dropPayload = NoMutation))
  /\ (everyValidates snapshot "affine:list" = false ->
      match getFallbackInsertPlace (model dropBlock) with
      | Some ancestor =>
          (exists k,
              nthAncestor k (model dropBlock) = Some ancestor
              /\ parentIsNote ancestor = true
              /\ forall j b, (j < k)%nat ->
                             nthAncestor j (model dropBlock) = Some b ->
                             parentIsNote b = false)
          /\ forall domRect,
              getBlockView (m_id ancestor) = Some domRect ->
              exists result,
                getDropResult dropBlock dragPayload dropPayload = Some result
                /\ placement result = PAfter
                /\ ms_model result = ancestor
      | None =>
          (forall k b, nthAncestor k (model dropBlock) = Some b ->
                       parentIsNote b = false)
          /\ getDropResult dropBlock dragPayload dropPayload = None
      end).
Proof.
  intros Hsnap Hcontent Hfrom Hedge Hlist.
  destruct (list_is_not_database _ Hlist) as [Hdb Hnote].
  assert (Hsome : bool_decide (is_Some (from dragPayload)) = true).
  { apply bool_decide_eq_true.
    destruct (from dragPayload); [eauto|congruence]. }
  assert (Hresult : getDropResult dropBlock dragPayload dropPayload
          = if everyValidates snapshot "affine:list" then
              Some (mkDropResult PIn
                      (fromLWTH
                         (left (domRectOf dropBlock)
                          + BLOCK_CHILDREN_CONTAINER_PADDING_LEFT)
                         (width (domRectOf dropBlock)
                          - BLOCK_CHILDREN_CONTAINER_PADDING_LEFT)
                         (top (domRectOf dropBlock)
                          + height (domRectOf dropBlock))
                         (3 * scale))
                      (model dropBlock) (domRectOf dropBlock))
            else
              match getFallbackInsertPlace (model dropBlock) with
              | Some fallbackModel =>
                  match getBlockView (m_id fallbackModel) with
                  | Some domRect =>
                      Some (mkDropResult PAfter
                              (fromLWTH (left domRect) (width domRect)
                                 (top domRect + height domRect) (3 * scale))
                              fallbackModel domRect)
                  | None => None
                  end
              | None => None
              end).
  { unfold getDropResult, getDropOutcome.
    rewrite Hsnap, Hcontent, Hsome, Hdb, Hedge, Hlist. cbn [negb orb andb isEdge].
    destruct (everyValidates snapshot "affine:list"); [reflexivity|].
    destruct (getFallbackInsertPlace (model dropBlock)) as [fallbackModel|];
      [|reflexivity].
    now destruct (getBlockView (m_id fallbackModel)). }
  split.
  - intros Hall. rewrite Hall in Hresult. split; [eauto|].
    unfold onPageDrop, dropParent, dropIndex, dropsOnSamePlace.
    rewrite Hresult, Hsnap, Hcontent. cbn [placement ms_model].
    rewrite Hnote. split; intros ->; [|reflexivity].
    cbn [andb negb]. now rewrite !andb_false_r.
  - intros Hsome'. rewrite Hsome' in Hresult.
    pose proof (getFallbackInsertPlace_nearest (model dropBlock)) as Hnear.
    destruct (getFallbackInsertPlace (model dropBlock)) as [ancestor|].
    + split; [exact Hnear|]. intros domRect Hview.
      rewrite Hview in Hresult. eauto.
    + split; [exact Hnear|exact Hresult].
Qed.

Context {Store : Type} {mutator : Mutator Store}.

Lemma unplaceable_unit_in_group (units : list BlockSnapshot)
    (unit : BlockSnapshot) :
  In unit units ->
  safeValidate (bs_flavour unit) "affine:surface" = false ->
  safeValidate (bs_flavour unit) "affine:page" = false ->
  groupOf units "empty" <> [].
Proof.
  intros Hin Hs Hp Hnil.
  assert (Hg : In unit (groupOf units "empty")).
  { apply filter_In. split; [exact Hin|].
    unfold gfxParentOf. now rewrite Hs, Hp. }
  now rewrite Hnil in Hg.
Qed.

(** The note of the wrapping branch is placed at the point obtained by
    converting the drop point from client to model coordinates twice. *)
Lemma wrapping_note_position (st : Store) (snapshot : SliceSnapshot)
    (point : Point) :
  groupOf (content snapshot) "empty" <> [] ->
  let pos :=
    toModelCoordFromClientCoord (toModelCoordFromClientCoord point) in
  let created :=
    addBlock st "affine:note"
      (NoteProps
         (mkBound (p_x pos) (p_y pos) DEFAULT_NOTE_WIDTH DEFAULT_NOTE_HEIGHT))
      rootId None in
  dropAsGfxBlock st snapshot point
  = snd (dropToModel (snd created)
           (withContent snapshot
              (List.filter
                 (fun block => safeValidate (bs_flavour block) "affine:note")
                 (content snapshot)))
           (fst created) None).
Proof.
  intros Hne. unfold dropAsGfxBlock.
  destruct (groupOf (content snapshot) "empty"); [congruence|].
  simpl. now destruct (addBlock _ _ _ _ _).
Qed.

(** C8 (amended).  When some unit of the snapshot validates neither as a
    child of the surface nor as a child of the page, the drop on the canvas
    creates one note of the default width and height under the root, and
    then applies inside that note the units of the snapshot that validate
    as children of a note (the other units are left out). *)
Theorem unplaceable_units_are_wrapped_in_note (st : Store)
    (snapshot : SliceSnapshot) (point : Point) (unit : BlockSnapshot) :
  In unit (content snapshot) ->
  safeValidate (bs_flavour unit) "affine:surface" = false ->
  safeValidate (bs_flavour unit) "affine:page" = false ->
  exists pos : Point,
    let created :=
      addBlock st "affine:note"
        (NoteProps
           (mkBound (p_x pos) (p_y pos) DEFAULT_NOTE_WIDTH
              DEFAULT_NOTE_HEIGHT))
        rootId None in
    dropAsGfxBlock st snapshot point
    = snd (dropToModel (snd created)
             (withContent snapshot
                (List.filter
                   (fun block =>
                      safeValidate (bs_flavour block) "affine:note")
                   (content snapshot)))
             (fst created) None).
Proof.
  intros Hin Hs Hp.
  exists (toModelCoordFromClientCoord (toModelCoordFromClientCoord point)).
  apply wrapping_note_position.
  exact (unplaceable_unit_in_group _ _ Hin Hs Hp).
Qed.

End MutatorFacts.

(** ** JavaScript objects *)

Section ObjFacts.
Context {V : Type}.

Lemma obj_get_set_eq (o : Obj V) (k : string) (v : V) :
  obj_get (obj_set o k v) k = Some v.
Proof.
  induction o as [|[k' v'] o IH]; simpl.
  - now rewrite String.eqb_refl.
  - destruct (String.eqb k k') eqn:Hk; simpl.
    + now rewrite String.eqb_refl.
    + now rewrite Hk.
Qed.

Lemma obj_get_set_ne (o : Obj V) (k d : string) (v : V) :
  k <> d -> obj_get (obj_set o k v) d = obj_get o d.
Proof.
  intros Hne. induction o as [|[k' v'] o IH]; simpl.
  - apply not_eq_sym, String.eqb_neq in Hne. now rewrite Hne.
  - destruct (String.eqb k k') eqn:Hk; simpl.
    + apply String.eqb_eq in Hk as <-.
      apply not_eq_sym, String.eqb_neq in Hne. now rewrite Hne.
    + now rewrite IH.
Qed.

Lemma obj_get_set_some (o : Obj V) (k d : string) (v w : V) :
  obj_get o d = Some w -> exists w', obj_get (obj_set o k v) d = Some w'.
Proof.
  intros Hd. destruct (String.eqb_spec k d) as [->|Hne].
  - rewrite obj_get_set_eq. eauto.
  - rewrite obj_get_set_ne by exact Hne. eauto.
Qed.

Lemma obj_has_set_present (o : Obj V) (k d : string) (v w : V) :
  obj_get o k = Some w -> obj_has (obj_set o k v) d = obj_has o d.
Proof.
  intros Hk. unfold obj_has. destruct (String.eqb_spec k d) as [<-|Hne].
  - now rewrite obj_get_set_eq, Hk.
  - now rewrite obj_get_set_ne.
Qed.

Lemma obj_keys_set (o : Obj V) (r k : string) (v : V) :
  In k (obj_keys (obj_set o r v)) -> In k (obj_keys o) \/ k = r.
Proof.
  unfold obj_keys. induction o as [|[k' v'] o IH]; simpl.
  - intros [<-|[]]. now right.
  - destruct (String.eqb r k') eqn:Hk; simpl.
    + apply String.eqb_eq in Hk as <-. tauto.
    + intros [<-|Hin]; [tauto|]. destruct (IH Hin); tauto.
Qed.

Lemma obj_keys_delete (o : Obj V) (k0 k : string) :
  In k (obj_keys (obj_delete o k0)) -> In k (obj_keys o) /\ k <> k0.
Proof.
  unfold obj_keys. induction o as [|[k' v'] o IH]; simpl; [tauto|].
  destruct (String.eqb_spec k0 k') as [<-|Hne]; simpl.
  - intros Hin. destruct (IH Hin). tauto.
  - intros [<-|Hin]; [split; [tauto|congruence]|].
    destruct (IH Hin). tauto.
Qed.

End ObjFacts.

(** ** Dependency resolver *)

Section ResolveFacts.
Context {schema : Schema} {consts : Consts} {widget : Widget}.

Lemma remapKey_keys (idRemap : Obj string) (childJson : Obj JsVal)
    (childId k : string) :
  In k (obj_keys (remapKey idRemap childJson childId)) ->
  k <> childId
  /\ (In k (obj_keys childJson) \/ obj_get idRemap childId = Some k).
Proof.
  unfold remapKey. destruct (obj_get idRemap childId) as [r|].
  - intros Hin. apply obj_keys_delete in Hin as [Hin Hne].
    split; [exact Hne|]. apply obj_keys_set in Hin as [Hin| ->]; tauto.
  - intros Hin. apply obj_keys_delete in Hin as [Hin Hne]. tauto.
Qed.

Lemma remapKeys_fold (idRemap : Obj string) (ks : list string) :
  forall (childJson : Obj JsVal) (k : string),
    In k (obj_keys (fold_left (remapKey idRemap) ks childJson)) ->
    (exists d, obj_get idRemap d = Some k)
    \/ (In k (obj_keys childJson) /\ ~ In k ks).
Proof.
  induction ks as [|k0 ks IH]; intros childJson k; simpl; [tauto|].
  intros Hin. destruct (IH _ _ Hin) as [Hres|[Hk Hnot]]; [now left|].
  apply remapKey_keys in Hk as [Hne [Hk|Hk]].
  - right. split; [exact Hk|]. intros [Heq|Hin']; [congruence|tauto].
  - left. eauto.
Qed.

(** After the rewrite of the references, every key left in the child-id
    record is a live identifier of the remap table. *)
Lemma remapKeys_resolved (idRemap : Obj string) (childJson : Obj JsVal)
    (k : string) :
  In k (obj_keys (remapKeys idRemap childJson)) ->
  exists d, obj_get idRemap d = Some k.
Proof.
  intros Hin. apply remapKeys_fold in Hin as [Hres|[Hk Hnot]]; tauto.
Qed.

Lemma logResolved_nil (tree : Obj StrSet) (member : string -> bool) :
  logResolved tree member [].
Proof. intros earlier ev later Heq. now destruct earlier. Qed.

Lemma logResolved_snoc (tree : Obj StrSet) (member : string -> bool)
    (log : list Applied) (ev : Applied) :
  logResolved tree member log ->
  dependenciesResolved tree member log ev ->
  logResolved tree member (log ++ [ev]).
Proof.
  intros Hlog Hev earlier ev' later Heq.
  destruct later as [|x later _] using rev_ind.
  - apply app_inj_tail in Heq as [<- <-]. exact Hev.
  - change (log ++ [ev] = earlier ++ (ev' :: later) ++ [x]) in Heq.
    rewrite app_assoc in Heq. apply app_inj_tail in Heq as [-> _].
    exact (Hlog _ _ _ eq_refl).
Qed.

Context {Store : Type} {mutator : Mutator Store}.
Variable tree : Obj StrSet.
Variable member : string -> bool.
Variable snapshot : SliceSnapshot.

Lemma continues_refl (s : MergeState Store) : continues s s.
Proof.
  split; [exists []; now rewrite app_nil_r|]. eauto.
Qed.

Lemma continues_trans (s1 s2 s3 : MergeState Store) :
  continues s1 s2 -> continues s2 s3 -> continues s1 s3.
Proof.
  intros [[l1 H1] R1] [[l2 H2] R2]. split.
  - exists (l1 ++ l2). now rewrite H2, H1, app_assoc.
  - intros d n Hd. destruct (R1 _ _ Hd) as [n' Hn']. eauto.
Qed.

Lemma continues_In (s s' : MergeState Store) (ev : Applied) :
  continues s s' -> In ev (ms_applied s) -> In ev (ms_applied s').
Proof.
  intros [[more Hm] _] Hin. rewrite Hm. apply in_or_app. now left.
Qed.

Lemma appliedChildIds_block (idRemap : Obj string) (b : BlockSnapshot)
    (id parent : string) (m : Obj string) (n : option string) (k : string) :
  In k (appliedChildIds (AppliedBlock id (remapBlock idRemap b) parent m n)) ->
  exists d, obj_get idRemap d = Some k.
Proof.
  destruct b as [bid flavour props children]. unfold remapBlock. simpl.
  destruct (isGroupLikeBlock flavour) eqn:Hg; simpl; rewrite Hg;
    [|intros []].
  destruct (childElementIds props); simpl; [|intros []].
  apply remapKeys_resolved.
Qed.

Lemma appliedChildIds_elem (idRemap : Obj string) (e : Elem)
    (id : string) (m : Obj string) (n : string) (k : string) :
  In k (appliedChildIds (AppliedElem id (remapElem idRemap e) m n)) ->
  exists d, obj_get idRemap d = Some k.
Proof.
  simpl. destruct (elem_children e); simpl; [|intros []].
  apply remapKeys_resolved.
Qed.

(** Appending to a log an apply of [id] that saw the current table. *)
Lemma record_apply (s : MergeState Store) (id : string) (ev : Applied)
    (elemMap' : Obj Elem) (blockMap' : Obj BlockEntry)
    (idRemap' : Obj string) (store' : Store) (status' : Status) :
  mergeInvariant tree member s ->
  (forall deps d, obj_get tree id = Some deps -> In d deps ->
     member d = true ->
     exists ev', In ev' (ms_applied s) /\ appliedId ev' = d) ->
  appliedId ev = id ->
  appliedRemap ev = ms_idRemap s ->
  (forall k, In k (appliedChildIds ev) ->
             exists d, obj_get (ms_idRemap s) d = Some k) ->
  (forall d n, obj_get (ms_idRemap s) d = Some n ->
               exists n', obj_get idRemap' d = Some n') ->
  (forall n, appliedNewId ev = Some n ->
             exists n', obj_get idRemap' id = Some n') ->
  (forall d n, obj_get idRemap' d = Some n ->
               obj_get (ms_idRemap s) d = Some n
               \/ (d = id /\ appliedNewId ev = Some n)) ->
  (forall d, obj_has blockMap' d || obj_has elemMap' d
             = obj_has (ms_blockMap s) d || obj_has (ms_elemMap s) d) ->
  let s' := mkMerge elemMap' blockMap' idRemap' store' status'
              (ms_applied s ++ [ev]) in
  mergeInvariant tree member s' /\ continues s s'
  /\ exists ev', In ev' (ms_applied s') /\ appliedId ev' = id.
Proof.
  intros (Hlog & Hrec & Hsound & Hmem) Hdeps Hid Hremap Hkeys Hgrow Hnew
    Hfrom Hdom s'.
  split; [split; [|split; [|split]]|split].
  - apply logResolved_snoc; [exact Hlog|]. split.
    + intros deps d Htree Hd. rewrite Hid in Htree. split.
      * exact (Hdeps _ _ Htree Hd).
      * intros ev' n Hin <- Hn. rewrite Hremap.
        destruct (Hrec _ _ Hin Hn) as [n' Hn'].
        destruct (Hsound _ _ Hn') as (ev'' & Hin'' & Hid'' & Hnew'').
        exists n', ev''. repeat split; assumption.
    + intros k Hk. rewrite Hremap. destruct (Hkeys _ Hk) as [d Hd].
      destruct (Hsound _ _ Hd) as (ev' & Hin' & Hid' & Hnew').
      exists d, ev'. repeat split; assumption.
  - intros ev' n Hin Hn. simpl in Hin. simpl.
    apply in_app_or in Hin as [Hin|[<-|[]]].
    + destruct (Hrec _ _ Hin Hn) as [n' Hn']. exact (Hgrow _ _ Hn').
    + rewrite Hid. exact (Hnew _ Hn).
  - intros d n Hd. simpl in Hd. simpl.
    destruct (Hfrom _ _ Hd) as [Hold|[-> Hn]].
    + destruct (Hsound _ _ Hold) as (ev' & Hin' & Hid' & Hnew').
      exists ev'. split; [apply in_or_app; now left|]. now split.
    + exists ev. split; [apply in_or_app; right; now left|]. now split.
  - intros d. simpl. rewrite Hdom. apply Hmem.
  - split; [now exists [ev]|exact Hgrow].
  - exists ev. split; [|exact Hid]. simpl. apply in_or_app. right. now left.
Qed.

(** Settles a case of [applyMember] that appends an apply to the log, up
    to the facts about the apply itself. *)
Ltac log_apply Hinv Hdeps :=
  let H1 := fresh "Hinv'" in
  let H2 := fresh "Hcont" in
  let H3 := fresh "Hself" in
  edestruct record_apply as (H1 & H2 & H3);
  [exact Hinv|exact Hdeps|..
  |split; [exact H1|split; [exact H2|intros _; exact H3]]];
  [reflexivity|reflexivity|..].

Lemma applyMember_invariant (s : MergeState Store) (id : string) :
  mergeInvariant tree member s ->
  (forall deps d, obj_get tree id = Some deps -> In d deps ->
     member d = true ->
     exists ev', In ev' (ms_applied s) /\ appliedId ev' = d) ->
  let s' := applyMember snapshot id s in
  mergeInvariant tree member s' /\ continues s s'
  /\ (member id = true ->
      exists ev, In ev (ms_applied s') /\ appliedId ev = id).
Proof.
  intros Hinv Hdeps. unfold applyMember.
  assert (Hset : forall n d m,
             obj_get (ms_idRemap s) d = Some m ->
             exists n', obj_get (obj_set (ms_idRemap s) id n) d = Some n').
  { intros n d m Hd. exact (obj_get_set_some _ _ _ _ _ Hd). }
  assert (Hget : forall n d m,
             obj_get (obj_set (ms_idRemap s) id n) d = Some m ->
             obj_get (ms_idRemap s) d = Some m \/ (d = id /\ Some n = Some m)).
  { intros n d m Hd. destruct (String.eqb_spec id d) as [<-|Hne].
    - rewrite obj_get_set_eq in Hd. now right.
    - rewrite obj_get_set_ne in Hd by exact Hne. now left. }
  destruct (obj_get (ms_blockMap s) id) as [entry|] eqn:Hblock.
  - destruct (dropToModel _ _ _ _) as [slices store'].
    assert (Hdom : forall d,
               obj_has
                 (obj_set (ms_blockMap s) id
                    (mkEntry (surfaceChild entry)
                       (remapBlock (ms_idRemap s) (entrySnapshot entry)))) d
               || obj_has (ms_elemMap s) d
               = obj_has (ms_blockMap s) d || obj_has (ms_elemMap s) d).
    { intros d. now rewrite (obj_has_set_present _ _ _ _ _ Hblock). }
    destruct slices as [[|first blocks]|]; log_apply Hinv Hdeps;
      try apply appliedChildIds_block; try exact Hdom;
      try apply Hset; try apply Hget; try discriminate; eauto.
    intros n _. rewrite obj_get_set_eq. eauto.
  - destruct (obj_get (ms_elemMap s) id) as [elem|] eqn:Helem.
    + destruct (addElement _ _) as [newId store'].
      log_apply Hinv Hdeps;
        [apply appliedChildIds_elem|apply Hset| |apply Hget|].
      * intros n _. rewrite obj_get_set_eq. eauto.
      * intros d. now rewrite (obj_has_set_present _ _ _ _ _ Helem).
    + split; [exact Hinv|split; [apply continues_refl|]].
      intros Hm. destruct Hinv as (_ & _ & _ & Hmem).
      specialize (Hmem id). unfold obj_has in Hmem.
      rewrite Hblock, Helem in Hmem. simpl in Hmem. congruence.
Qed.

Lemma visit_children (f : MergeState Store -> string -> MergeState Store) :
  (forall s id,
      mergeInvariant tree member s ->
      mergeInvariant tree member (f s id) /\ continues s (f s id)
      /\ visited member s (f s id) id) ->
  forall ids s,
    mergeInvariant tree member s ->
    mergeInvariant tree member (fold_left f ids s)
    /\ continues s (fold_left f ids s)
    /\ (ms_status (fold_left f ids s) = Running ->
        ms_status s = Running
        /\ forall d, In d ids -> member d = true ->
             exists ev,
               In ev (ms_applied (fold_left f ids s)) /\ appliedId ev = d).
Proof.
  intros Hf. induction ids as [|id ids IH]; intros s Hinv; simpl.
  - split; [exact Hinv|split; [apply continues_refl|]].
    intros Hrun. split; [exact Hrun|]. intros d [].
  - destruct (Hf s id Hinv) as (Hinv1 & Hcont1 & Hvis1).
    destruct (IH _ Hinv1) as (Hinv2 & Hcont2 & Hvis2).
    split; [exact Hinv2|split; [exact (continues_trans _ _ _ Hcont1 Hcont2)|]].
    intros Hrun. destruct (Hvis2 Hrun) as [Hrun1 Hrest].
    destruct (Hvis1 Hrun1) as [Hrun0 Hself].
    split; [exact Hrun0|]. intros d [<-|Hd] Hm.
    + destruct (Hself Hm) as (ev & Hin & Hid).
      exists ev. split; [exact (continues_In _ _ _ Hcont2 Hin)|exact Hid].
    + exact (Hrest _ Hd Hm).
Qed.

Lemma setStatus_invariant (s : MergeState Store) (x : Status) :
  mergeInvariant tree member s ->
  mergeInvariant tree member (setStatus s x) /\ continues s (setStatus s x).
Proof.
  intros Hinv. split; [exact Hinv|]. split; [exists []|]; simpl; eauto.
  now rewrite app_nil_r.
Qed.

(** A visit keeps the invariant, and a visit that is still running at its
    end has applied the member it was called for. *)
Lemma addInDependencyOrder_invariant (fuel : nat) :
  forall s id,
    mergeInvariant tree member s ->
    mergeInvariant tree member (addInDependencyOrder tree snapshot fuel s id)
    /\ continues s (addInDependencyOrder tree snapshot fuel s id)
    /\ visited member s (addInDependencyOrder tree snapshot fuel s id) id.
Proof.
  induction fuel as [|fuel IH]; intros s id Hinv.
  - cbn [addInDependencyOrder]. destruct (ms_status s) eqn:Hst.
    + destruct (setStatus_invariant s OutOfFuel Hinv) as [H1 H2].
      split; [exact H1|split; [exact H2|]]. intros Hrun. discriminate.
    + split; [exact Hinv|split; [apply continues_refl|]].
      intros Hrun. congruence.
    + split; [exact Hinv|split; [apply continues_refl|]].
      intros Hrun. congruence.
  - cbn [addInDependencyOrder]. destruct (ms_status s) eqn:Hst;
      [|split; [exact Hinv|split; [apply continues_refl|]];
        intros Hrun; congruence..].
    set (s1 := match obj_get tree id with
               | Some childSet =>
                   fold_left (addInDependencyOrder tree snapshot fuel)
                     childSet s
               | None => s
               end).
    assert (Hs1 : mergeInvariant tree member s1 /\ continues s s1
                  /\ (ms_status s1 = Running ->
                      forall deps d, obj_get tree id = Some deps ->
                        In d deps -> member d = true ->
                        exists ev,
                          In ev (ms_applied s1) /\ appliedId ev = d)).
    { subst s1. destruct (obj_get tree id) as [childSet|].
      - destruct (visit_children _ IH childSet s Hinv) as (H1 & H2 & H3).
        split; [exact H1|split; [exact H2|]].
        intros Hrun deps d [= <-]. now apply H3.
      - split; [exact Hinv|split; [apply continues_refl|]].
        intros _ deps d Hnone. discriminate. }
    destruct Hs1 as (Hinv1 & Hcont1 & Hdeps).
    destruct (ms_status s1) eqn:Hst1;
      [|split; [exact Hinv1|split; [exact Hcont1|]];
        intros Hrun; congruence..].
    destruct (applyMember_invariant s1 id Hinv1 (Hdeps eq_refl))
      as (Hinv2 & Hcont2 & Hself).
    split; [exact Hinv2|split; [exact (continues_trans _ _ _ Hcont1 Hcont2)|]].
    intros _. split; [exact Hst|exact Hself].
Qed.

Lemma applyMember_status (s : MergeState Store) (id : string) :
  ms_status s <> OutOfFuel ->
  ms_status (applyMember snapshot id s) <> OutOfFuel.
Proof.
  intros Hs. unfold applyMember.
  destruct (obj_get (ms_blockMap s) id) as [entry|].
  - destruct (dropToModel _ _ _ _) as [[[|first blocks]|] store'];
      simpl; discriminate.
  - destruct (obj_get (ms_elemMap s) id); [|exact Hs].
    destruct (addElement _ _). simpl. discriminate.
Qed.

(** Enough fuel: a visit within the depth of the recursion tree does not
    run out of it. *)
Lemma addInDependencyOrder_within_depth (fuel : nat) :
  forall s id,
    depthWithin tree fuel id = true ->
    ms_status s <> OutOfFuel ->
    ms_status (addInDependencyOrder tree snapshot fuel s id) <> OutOfFuel.
Proof.
  induction fuel as [|fuel IH]; intros s id Hdepth Hs;
    [simpl in Hdepth; discriminate|].
  cbn [addInDependencyOrder]. destruct (ms_status s) eqn:Hst;
    [|first [now destruct Hs|rewrite Hst; discriminate]..].
  clear Hs. assert (Hs : ms_status s <> OutOfFuel)
    by (rewrite Hst; discriminate).
  simpl in Hdepth.
  set (s1 := match obj_get tree id with
             | Some childSet =>
                 fold_left (addInDependencyOrder tree snapshot fuel)
                   childSet s
             | None => s
             end).
  assert (Hs1 : ms_status s1 <> OutOfFuel).
  { subst s1. destruct (obj_get tree id) as [childSet|]; [|exact Hs].
    clear Hst. revert s Hs.
    induction childSet as [|c cs IHcs]; intros s Hs; [exact Hs|].
    simpl in Hdepth. apply andb_true_iff in Hdepth as [Hc Hcs].
    simpl. apply (IHcs Hcs). exact (IH s c Hc Hs). }
  destruct (ms_status s1) eqn:Hst1;
    [|first [now destruct Hs1|rewrite Hst1; discriminate]..].
  apply applyMember_status. rewrite Hst1. discriminate.
Qed.

End ResolveFacts.

Section RootFacts.
Context {schema : Schema}.






End RootFacts.

Section MergeFacts.
Context {schema : Schema} {consts : Consts} {widget : Widget}.
Context {Store : Type} {mutator : Mutator Store}.



(** Enough fuel: when no member of the container tree lies deeper than
    [fuel] below a root, the merge does not stop for lack of it. *)
Lemma merge_completes_within_depth (fuel : nat) (st : Store)
    (snapshot : SliceSnapshot) (point : option Point) :
  let a := analyse (rewriteSnapshotXYWH snapshot (mergePoint point) false) in
  forallb (depthWithin (containerTree a) fuel) (rootSet a) = true ->
  ms_status (mergeSnapshotToCurDoc fuel st snapshot point) <> OutOfFuel.
Proof.
  intros a Hdepth. unfold mergeSnapshotToCurDoc. fold a.
  assert (Hfold : forall ids s,
             forallb (depthWithin (containerTree a) fuel) ids = true ->
             ms_status s <> OutOfFuel ->
             ms_status
               (fold_left
                  (addInDependencyOrder (containerTree a)
                     (rewriteSnapshotXYWH snapshot (mergePoint point) false)
                     fuel)
                  ids s) <> OutOfFuel).
  { induction ids as [|id ids IH]; intros s Hids Hs; [exact Hs|].
    simpl in Hids. apply andb_true_iff in Hids as [Hid Hrest].
    simpl. apply (IH _ Hrest).
    exact (addInDependencyOrder_within_depth _ _ fuel s id Hid Hs). }
  apply Hfold; [exact Hdepth|]. simpl. discriminate.
Qed.

End MergeFacts.

(** ** Members, containers and the root set *)

Section ContainerFacts.
Context {schema : Schema}.

Lemma isGroupLikeElem_never (type : string) : isGroupLikeElem type = false.
Proof.
  unfold isGroupLikeElem. destruct (getConstructor type) as [c|]; [|reflexivity].
  unfold isPrototypeOf, constructorChain. rewrite existsb_app. simpl.
  rewrite orb_false_r. induction (superclasses c) as [|x l IH]; [reflexivity|].
  exact IH.
Qed.































End ContainerFacts.

Section RootSetFacts.
Context {schema : Schema} {consts : Consts} {widget : Widget}.
Context {Store : Type} {mutator : Mutator Store}.




End RootSetFacts.

(** ** Further properties of the drop target resolver *)

Section MoreResolverFacts.
Context {schema : Schema} {consts : Consts} {widget : Widget}.

(** X1.  On a target that is not a list item hovered over its right edge,
    a drag with a non-empty snapshot and a named origin over a block that
    is no database always gets a decision for the hovered block itself:
    inside when the block is a note and the first unit validates as a
    child of a note, else before for the top edge and after for any other
    edge.  The indicator spans the block horizontally and is three zoom
    units thick; it lies on the bottom edge for placement after and three
    zoom units above the top edge otherwise. *)
Theorem decision_on_ordinary_target (dropBlock : BlockComponent)
    (dragPayload : DragBlockPayload) (dropPayload : DropPayload)
    (snapshot : SliceSnapshot) (first : BlockSnapshot)
    (rest : list BlockSnapshot) :
  payloadSnapshot dragPayload = Some snapshot ->
  content snapshot = first :: rest ->
  from dragPayload <> None ->
  matchModels (model dropBlock) [DatabaseBlockModel] = false ->
  isEdge (edge dropPayload) EdgeRight
  && matchModels (model dropBlock) [ListBlockModel] = false ->
  exists result,
    getDropResult dropBlock dragPayload dropPayload = Some result
    /\ ms_model result = model dropBlock
    /\ ms_rect result = domRectOf dropBlock
    /\ placement result
       = (if matchModels (model dropBlock) [NoteBlockModel]
             && safeValidate (bs_flavour first) "affine:note"
          then PIn
          else if isEdge (edge dropPayload) EdgeTop then PBefore
               else PAfter)
    /\ r_left (rect result) = left (domRectOf dropBlock)
    /\ r_width (rect result) = width (domRectOf dropBlock)
    /\ r_height (rect result) = (3 * scale)%Z
    /\ r_top (rect result)
       = match placement result with
         | PAfter => (top (domRectOf dropBlock) + height (domRectOf dropBlock))%Z
         | _ => (top (domRectOf dropBlock) - 3 * scale)%Z
         end.
Proof.
  intros Hsnap Hcontent Hfrom Hdb Hlist. unfold getDropResult, getDropOutcome.
  rewrite Hsnap, Hcontent, Hdb, Hlist.
  destruct (from dragPayload) as [f|]; [|congruence].
  rewrite bool_decide_eq_true_2 by eauto. simpl.
  eexists. split; [reflexivity|]. simpl. repeat split; reflexivity.
Qed.

(** X2.  How the resolver ends without a decision.  It returns [null] in
    exactly these cases: the snapshot is missing or empty, the payload
    names no origin, the hovered block is a database, or the hovered
    block is a list item hovered over its right edge, some unit does not
    validate as a child of a list, and no block on the way up has a note
    as parent.  It throws in exactly one case: on that last path, when a
    block on the way up has a note as parent and that block has no
    view. *)
Theorem no_decision_exactly_when (dropBlock : BlockComponent)
    (dragPayload : DragBlockPayload) (dropPayload : DropPayload) :
  (getDropOutcome dropBlock dragPayload dropPayload = Null <->
   payloadSnapshot dragPayload = None
   \/ (exists s, payloadSnapshot dragPayload = Some s /\ content s = [])
   \/ from dragPayload = None
   \/ matchModels (model dropBlock) [DatabaseBlockModel] = true
   \/ (isEdge (edge dropPayload) EdgeRight = true
       /\ matchModels (model dropBlock) [ListBlockModel] = true
       /\ (exists s,
              payloadSnapshot dragPayload = Some s
              /\ everyValidates s "affine:list" = false)
       /\ getFallbackInsertPlace (model dropBlock) = None))
  /\ (getDropOutcome dropBlock dragPayload dropPayload = Throws <->
      (exists s,
          payloadSnapshot dragPayload = Some s /\ content s <> []
          /\ everyValidates s "affine:list" = false)
      /\ from dragPayload <> None
      /\ matchModels (model dropBlock) [DatabaseBlockModel] = false
      /\ isEdge (edge dropPayload) EdgeRight = true
      /\ matchModels (model dropBlock) [ListBlockModel] = true
      /\ exists fallbackModel,
           getFallbackInsertPlace (model dropBlock) = Some fallbackModel
           /\ getBlockView (m_id fallbackModel) = None).
Proof.
  unfold getDropOutcome.
  destruct (payloadSnapshot dragPayload) as [s|].
  2:{ split; [tauto|]. split; [discriminate|].
      intros ((s & Hs & _) & _). discriminate Hs. }
  destruct (content s) as [|first rest] eqn:Hc.
  { split; [split; [intros _; right; left; eauto|reflexivity]|].
    split; [discriminate|].
    intros ((s0 & [= <-] & Hne & _) & _). congruence. }
  destruct (from dragPayload) as [f|].
  2:{ split; [tauto|]. split; [discriminate|]. intros (_ & Hf & _).
      congruence. }
  rewrite bool_decide_eq_true_2 by eauto. cbn [negb orb].
  destruct (matchModels (model dropBlock) [DatabaseBlockModel]) eqn:Hdb.
  { split; [tauto|]. split; [discriminate|]. intros (_ & _ & H & _).
    discriminate H. }
  destruct (isEdge (edge dropPayload) EdgeRight) eqn:He;
    destruct (matchModels (model dropBlock) [ListBlockModel]) eqn:Hl;
    cbn [andb].
  2-4: (split;
        [split; [discriminate|];
         intros [H|[(s0 & [= <-] & H)|[H|[H|(H1 & H2 & _)]]]]; congruence
        |split; [discriminate|]; intros (_ & _ & _ & H1 & H2 & _);
         congruence]).
  destruct (everyValidates s "affine:list") eqn:Hall.
  { split.
    - split; [discriminate|].
      intros [H|[(s0 & [= <-] & H)|[H|[H|(_ & _ & (s0 & [= <-] & H) & _)]]]];
        congruence.
    - split; [discriminate|]. intros ((s0 & [= <-] & _ & H) & _).
      congruence. }
  destruct (getFallbackInsertPlace (model dropBlock)) as [fb|].
  - destruct (getBlockView (m_id fb)) as [domRect|] eqn:Hview.
    + split.
      * split; [discriminate|].
        intros [H|[(s0 & [= <-] & H)|[H|[H|(_ & _ & _ & H)]]]];
          congruence.
      * split; [discriminate|].
        intros (_ & _ & _ & _ & _ & fb' & [= <-] & H). congruence.
    + split.
      * split; [discriminate|].
        intros [H|[(s0 & [= <-] & H)|[H|[H|(_ & _ & _ & H)]]]];
          congruence.
      * split; [|reflexivity]. intros _.
        split; [exists s; rewrite Hc; repeat split; [discriminate|exact Hall]|].
        split; [discriminate|]. split; [reflexivity|].
        split; [reflexivity|]. split; [reflexivity|]. now exists fb.
  - split.
    + split; [|reflexivity]. intros _. do 4 right.
      split; [reflexivity|]. split; [reflexivity|]. split; [eauto|reflexivity].
    + split; [discriminate|].
      intros (_ & _ & _ & _ & _ & fb & H & _). discriminate H.
Qed.

Lemma isUnderNoteBlock_ancestor (m : BlockModel) :
  isUnderNoteBlock m = true <->
  exists k a,
    nthAncestor (S k) m = Some a /\ matchModels a [NoteBlockModel] = true.
Proof.
  revert m. fix IH 1. intros [id cls role children [parent|]].
  - cbn [isUnderNoteBlock].
    destruct (matchModels parent [NoteBlockModel]) eqn:Hn.
    + split; [|reflexivity]. intros _. exists O, parent. now split.
    + rewrite (IH parent). split.
      * intros (k & a & Hk & Ha). exists (S k), a. now split.
      * intros ([|k] & a & Hk & Ha).
        -- injection Hk as <-. congruence.
        -- exists k, a. now split.
  - cbn [isUnderNoteBlock]. split; [discriminate|].
    now intros (k & a & Hk & _).
Qed.

(** X3.  Which views become drop targets.  The surface never does.  In
    the page editor every other block does, except one whose role is
    root.  In the edgeless editor a block does exactly when it is a note,
    or has the role root, or has a note somewhere above it. *)
Theorem drop_target_registration (mode : EditorMode)
    (view : BlockComponent) :
  makeDropTarget mode view = None <->
  matchModels (model view) [SurfaceBlockModel] = true
  \/ match mode with
     | PageMode => m_role (model view) = "root"
     | EdgelessMode =>
         matchModels (model view) [NoteBlockModel] = false
         /\ m_role (model view) <> "root"
         /\ forall k a, nthAncestor (S k) (model view) = Some a ->
                        matchModels a [NoteBlockModel] = false
     end.
Proof.
  unfold makeDropTarget.
  pose proof (isUnderNoteBlock_ancestor (model view)) as Hunder.
  assert (Hnone : isUnderNoteBlock (model view) = false <->
                  forall k a, nthAncestor (S k) (model view) = Some a ->
                              matchModels a [NoteBlockModel] = false).
  { split.
    - intros Hf k a Hk. destruct (matchModels a [NoteBlockModel]) eqn:Ha;
        [|reflexivity].
      assert (isUnderNoteBlock (model view) = true) by (apply Hunder; eauto).
      congruence.
    - intros Hall. destruct (isUnderNoteBlock (model view)) eqn:Hu;
        [|reflexivity].
      destruct (proj1 Hunder eq_refl) as (k & a & Hk & Ha).
      rewrite (Hall _ _ Hk) in Ha. discriminate. }
  destruct (matchModels (model view) [SurfaceBlockModel]) eqn:Hsurface;
    [split; [now left|reflexivity]|].
  destruct (matchModels (model view) [NoteBlockModel]) eqn:Hnote;
    destruct (String.eqb_spec (m_role (model view)) "root") as [Hr|Hr];
    destruct (isUnderNoteBlock (model view)) eqn:Hu;
    destruct mode; cbn [andb orb negb];
    (split;
     [first [discriminate | intros _; right; first [exact Hr|idtac]]
     |first [reflexivity | intros [H|H]; [discriminate|]]]);
    try congruence;
    try (destruct H as (H1 & H2 & H3); first [discriminate|congruence|idtac]).
  - apply Hnone in H3. discriminate.
  - repeat split; [exact Hr|]. now apply Hnone.
Qed.

(** X19.  The two upward walks agree: a block has a fallback insert
    place exactly when some block above it is a note, and the fallback
    place is then a block at or above the start whose parent is a
    note. *)
Theorem fallback_place_exists_under_note (m : BlockModel) :
  (getFallbackInsertPlace m = None <-> isUnderNoteBlock m = false)
  /\ forall place, getFallbackInsertPlace m = Some place ->
        parentIsNote place = true
        /\ exists k, nthAncestor k m = Some place.
Proof.
  revert m. fix IH 1. intros [id cls role children [parent|]].
  - cbn [getFallbackInsertPlace isUnderNoteBlock].
    destruct (matchModels parent [NoteBlockModel]) eqn:Hn.
    + split; [split; discriminate|].
      intros place [= <-]. split; [exact Hn|]. now exists O.
    + destruct (IH parent) as [Hiff Hplace]. split; [exact Hiff|].
      intros place Hp. destruct (Hplace place Hp) as (Hnote & k & Hk).
      split; [exact Hnote|]. now exists (S k).
  - cbn [getFallbackInsertPlace isUnderNoteBlock].
    split; [split; reflexivity|discriminate].
Qed.

End MoreResolverFacts.

(** ** Further properties of the structural mutator *)

Section MoreMutatorFacts.
Context {schema : Schema} {consts : Consts} {widget : Widget}.

Lemma indexOfFrom_found (l : list string) (x : string) :
  forall i, In x l ->
    exists n,
      indexOfFrom l x i = (i + Z.of_nat n)%Z
      /\ nth_error l n = Some x
      /\ forall j y, (j < n)%nat -> nth_error l j = Some y -> y <> x.
Proof.
  induction l as [|y l IH]; intros i Hin; [destruct Hin|].
  simpl. destruct (String.eqb_spec y x) as [->|Hne].
  - exists O. repeat split; [lia|]. intros j y Hj. lia.
  - destruct Hin as [Heq|Hin]; [congruence|].
    destruct (IH (i + 1)%Z Hin) as (n & Hidx & Hnth & Hfirst).
    exists (S n). repeat split; [lia|exact Hnth|].
    intros [|j] z Hj Hz; simpl in Hz; [congruence|].
    apply (Hfirst j); [lia|exact Hz].
Qed.

Lemma indexOfFrom_missing (l : list string) (x : string) :
  forall i, ~ In x l -> indexOfFrom l x i = (-1)%Z.
Proof.
  induction l as [|y l IH]; intros i Hin; [reflexivity|].
  simpl. destruct (String.eqb_spec y x) as [->|Hne].
  - exfalso. apply Hin. now left.
  - apply IH. intros H. apply Hin. now right.
Qed.


(** X4.  When the target of a decision is among the children of the
    parent, the insertion index of a placement before or after lies
    within the children, and the target is the child at the index for
    before and the child just ahead of the index for after: the dragged
    blocks land next to the target, on the decided side. *)
Theorem drop_index_is_next_to_target (result : DropResult)
    (parent : BlockModel) :
  In (m_id (ms_model result)) (m_children parent) ->
  placement result <> PIn ->
  (0 <= dropIndex result parent <= Z.of_nat (length (m_children parent)))%Z
  /\ childAt (m_children parent)
       (match placement result with
        | PAfter => dropIndex result parent - 1
        | _ => dropIndex result parent
        end)%Z
     = Some (m_id (ms_model result)).
Proof.
  intros Hin Hplace.
  destruct (indexOfFrom_found _ _ 0%Z Hin) as (n & Hidx & Hnth & _).
  assert (Hn : (n < length (m_children parent))%nat).
  { apply nth_error_Some. congruence. }
  unfold dropIndex, indexOf, childAt. rewrite Hidx.
  destruct (placement result); [| |congruence].
  - split; [lia|].
    replace (0 + Z.of_nat n + 0)%Z with (Z.of_nat n) by lia.
    destruct (Z.ltb_spec (Z.of_nat n) 0); [lia|].
    now rewrite Nat2Z.id.
  - split; [lia|].
    replace (0 + Z.of_nat n + 1 - 1)%Z with (Z.of_nat n) by lia.
    destruct (Z.ltb_spec (Z.of_nat n) 0); [lia|].
    now rewrite Nat2Z.id.
Qed.

(** X5.  When the target of a decision is not among the children of the
    parent, the search for it answers -1 and the insertion index is -1 for
    a placement before and 0 for a placement after. *)
Theorem drop_index_of_unlisted_target (result : DropResult)
    (parent : BlockModel) :
  ~ In (m_id (ms_model result)) (m_children parent) ->
  dropIndex result parent
  = match placement result with
    | PBefore => (-1)%Z
    | _ => 0%Z
    end.
Proof.
  intros Hin. unfold dropIndex, indexOf.
  rewrite (indexOfFrom_missing _ _ 0%Z Hin).
  now destruct (placement result).
Qed.


(** What the request [AddBlock] of [_onPageDrop] carries. *)
Lemma addBlock_of_page_drop (dropBlock : BlockComponent)
    (dragPayload : DragBlockPayload) (dropPayload : DropPayload)
    (flavour : string) (props : AddProps) (parentId : string) (index : Z) :
  onPageDrop dropBlock dragPayload dropPayload
  = AddBlock flavour props parentId index ->
  payloadFromMode dragPayload = Some FromGfx
  /\ fromThisDoc dragPayload = true
  /\ exists snapshot,
       payloadSnapshot dragPayload = Some snapshot
       /\ ((flavour = "affine:embed-linked-doc"
            /\ props = LinkedDocProps storeDocId
            /\ forall m, In m (flat_map members (content snapshot)) ->
                         (area (memberBound m) <= 0)%Z)
           \/ (flavour = "affine:surface-ref"
               /\ exists m,
                    In m (flat_map members (content snapshot))
                    /\ props = SurfaceRefProps (memberId m)
                    /\ (0 < area (memberBound m))%Z)).
Proof.
  unfold onPageDrop.
  destruct (getDropResult dropBlock dragPayload dropPayload) as [result|];
    [|discriminate].
  destruct (payloadSnapshot dragPayload) as [snapshot|]; [|discriminate].
  destruct (content snapshot) as [|first rest] eqn:Hcontent; [discriminate|].
  destruct (dropParent result) as [parent|]; [|discriminate].
  destruct (isGfx (payloadFromMode dragPayload)) eqn:Hgfx; cbn [andb].
  2:{ destruct (matchModels parent [NoteBlockModel]
                && String.eqb (bs_flavour first) "affine:note").
      - now destruct (negb (String.eqb (m_id parent) (bs_id first))).
      - now destruct (dropsOnSamePlace _ _ _ _ _). }
  assert (Hmode : payloadFromMode dragPayload = Some FromGfx).
  { unfold isGfx in Hgfx.
    now destruct (payloadFromMode dragPayload) as [[]|]. }
  destruct (negb (matchModels parent [NoteBlockModel])); [discriminate|].
  destruct (negb (everyValidates snapshot "affine:note")
            && negb (forallb
                       (fun block =>
                          String.eqb (bs_flavour block) "affine:note")
                       (first :: rest))).
  2:{ destruct (matchModels parent [NoteBlockModel]
                && String.eqb (bs_flavour first) "affine:note").
      - now destruct (negb (String.eqb (m_id parent) (bs_id first))).
      - now destruct (dropsOnSamePlace _ _ _ _ _). }
  destruct (fromThisDoc dragPayload); cbn [negb]; [|discriminate].
  destruct (walkAll (first :: rest) None) as [[best|]|] eqn:Hwalk;
    [| |discriminate].
  - intros [= <- <- <- <-]. split; [exact Hmode|]. split; [reflexivity|].
    exists snapshot.
    split; [reflexivity|]. right. split; [reflexivity|].
    rewrite Hcontent.
    destruct (walkAll_first_maximum _ _ Hwalk)
      as (i & m & Hi & Hid & Harea & _).
    pose proof (scan_finds_first_maximum (flat_map members (first :: rest)))
      as Hscan.
    rewrite <- (walkAll_members _ _ _ Hwalk) in Hscan.
    destruct Hscan as (Hpos & _).
    exists m. split; [exact (nth_error_In _ _ Hi)|].
    split; [now rewrite Hid|lia].
  - intros [= <- <- <- <-]. split; [exact Hmode|]. split; [reflexivity|].
    exists snapshot.
    split; [reflexivity|]. left. split; [reflexivity|].
    split; [reflexivity|]. rewrite Hcontent.
    pose proof (scan_finds_first_maximum (flat_map members (first :: rest)))
      as Hscan.
    rewrite <- (walkAll_members _ _ _ Hwalk) in Hscan. exact Hscan.
Qed.

Lemma mergeThenReference_of_page_drop (dropBlock : BlockComponent)
    (dragPayload : DragBlockPayload) (dropPayload : DropPayload)
    (snapshot : SliceSnapshot) (parentId : string) (index : Z) :
  onPageDrop dropBlock dragPayload dropPayload
  = MergeThenReference snapshot parentId index ->
  payloadFromMode dragPayload = Some FromGfx
  /\ fromThisDoc dragPayload = false
  /\ payloadSnapshot dragPayload = Some snapshot.
Proof.
  unfold onPageDrop.
  destruct (getDropResult dropBlock dragPayload dropPayload) as [result|];
    [|discriminate].
  destruct (payloadSnapshot dragPayload) as [dragged|]; [|discriminate].
  destruct (content dragged) as [|first rest] eqn:Hcontent; [discriminate|].
  destruct (dropParent result) as [parent|]; [|discriminate].
  destruct (isGfx (payloadFromMode dragPayload)) eqn:Hgfx; cbn [andb].
  2:{ destruct (matchModels parent [NoteBlockModel]
                && String.eqb (bs_flavour first) "affine:note").
      - now destruct (negb (String.eqb (m_id parent) (bs_id first))).
      - now destruct (dropsOnSamePlace _ _ _ _ _). }
  assert (Hmode : payloadFromMode dragPayload = Some FromGfx).
  { unfold isGfx in Hgfx.
    now destruct (payloadFromMode dragPayload) as [[]|]. }
  destruct (negb (matchModels parent [NoteBlockModel])); [discriminate|].
  destruct (negb (everyValidates dragged "affine:note")
            && negb (forallb
                       (fun block =>
                          String.eqb (bs_flavour block) "affine:note")
                       (first :: rest))).
  2:{ destruct (matchModels parent [NoteBlockModel]
                && String.eqb (bs_flavour first) "affine:note").
      - now destruct (negb (String.eqb (m_id parent) (bs_id first))).
      - now destruct (dropsOnSamePlace _ _ _ _ _). }
  destruct (fromThisDoc dragPayload); cbn [negb].
  - now destruct (walkAll (first :: rest) None) as [[best|]|].
  - intros [= <- _ _]. now split.
Qed.

Context {Store : Type} {mutator : Mutator Store}.

(** X7.  When [_onPageDrop] calls [store.addBlock].  For a drag from the
    canvas of the current document it does so at once, for a drag from
    the canvas of another document once the merge has resolved, and in no
    other request.  Either way the block is an [affine:embed-linked-doc]
    of the current document or an [affine:surface-ref], and it is the
    linked document exactly when nothing that was scanned has a bound of
    positive area: no block and no canvas element of the snapshot in the
    first case, no member the merge created in the second.  When the
    merge does not resolve nothing is added. *)
Theorem linked_doc_only_without_area (dropBlock : BlockComponent)
    (dragPayload : DragBlockPayload) (dropPayload : DropPayload) :
  match onPageDrop dropBlock dragPayload dropPayload with
  | AddBlock flavour props parentId index =>
      payloadFromMode dragPayload = Some FromGfx
      /\ fromThisDoc dragPayload = true
      /\ exists snapshot,
           payloadSnapshot dragPayload = Some snapshot
           /\ ((flavour = "affine:embed-linked-doc"
                /\ props = LinkedDocProps storeDocId
                /\ forall m, In m (flat_map members (content snapshot)) ->
                             (area (memberBound m) <= 0)%Z)
               \/ (flavour = "affine:surface-ref"
                   /\ exists m,
                        In m (flat_map members (content snapshot))
                        /\ props = SurfaceRefProps (memberId m)
                        /\ (0 < area (memberBound m))%Z))
  | MergeThenReference snapshot parentId index =>
      payloadFromMode dragPayload = Some FromGfx
      /\ fromThisDoc dragPayload = false
      /\ payloadSnapshot dragPayload = Some snapshot
      /\ forall (fuel : nat) (st : Store),
           let s := mergeSnapshotToCurDoc fuel st snapshot None in
           let scanned := mergedMembers (ms_store s) (ms_idRemap s) in
           let after :=
             perform fuel st (MergeThenReference snapshot parentId index) in
           match ms_status s with
           | Running =>
               ((forall m, In m scanned -> (area (memberBound m) <= 0)%Z)
                /\ after
                   = snd (addBlock (ms_store s) "affine:embed-linked-doc"
                            (LinkedDocProps storeDocId) parentId
                            (Some index)))
               \/ (exists m,
                      In m scanned /\ (0 < area (memberBound m))%Z
                      /\ after
                         = snd (addBlock (ms_store s) "affine:surface-ref"
                                  (SurfaceRefProps (memberId m)) parentId
                                  (Some index)))
           | _ => after = ms_store s
           end
  | NoMutation | DropNoteOnNote _ _ _ | DropToModel _ _ _ => True
  end.
Proof.
  destruct (onPageDrop dropBlock dragPayload dropPayload)
    as [|snapshot parentId index|flavour props parentId index| |] eqn:Hdrop;
    try exact I.
  - destruct (mergeThenReference_of_page_drop _ _ _ _ _ _ Hdrop)
      as (Hmode & Hdoc & Hsnap).
    split; [exact Hmode|]. split; [exact Hdoc|]. split; [exact Hsnap|].
    intros fuel st s scanned after. subst after. cbn [perform].
    destruct (ms_status s) eqn:Hrun.
    + destruct (reference_after_merge fuel st snapshot parentId index Hrun)
        as [(i & m & Hi & Hpos & _ & _ & Hadd)|[Hnone Hadd]].
      * right. exists m. split; [exact (nth_error_In _ _ Hi)|].
        split; [exact Hpos|exact Hadd].
      * left. split; [exact Hnone|exact Hadd].
    + unfold mergeThenReference. fold s. now rewrite Hrun.
    + unfold mergeThenReference. fold s. now rewrite Hrun.
  - exact (addBlock_of_page_drop _ _ _ _ _ _ _ Hdrop).
Qed.

End MoreMutatorFacts.

(** ** Alignment and dependency analysis *)

Section AlignmentFacts.
Context {schema : Schema} {consts : Consts} {widget : Widget}.

Lemma obj_set_map {V W : Type} (f : V -> W) (o : Obj V) (k : string)
    (v : V) :
  map (fun kv => (fst kv, f (snd kv))) (obj_set o k v)
  = obj_set (map (fun kv => (fst kv, f (snd kv))) o) k (f v).
Proof.
  induction o as [|[k' v'] o IH]; simpl; [reflexivity|].
  destruct (String.eqb k k'); simpl; [reflexivity|]. now rewrite IH.
Qed.

Lemma addElemEntry_rewrite rect point absolute (elems : Obj Elem) :
  forall tree,
    fold_left addElemEntry
      (map (fun kv => (fst kv, rewriteElem rect point absolute (snd kv)))
         elems) tree
    = fold_left addElemEntry elems tree.
Proof.
  induction elems as [|[k e] elems IH]; intros tree; [reflexivity|].
  simpl. rewrite IH. f_equal.
  unfold addElemEntry, rewriteElem. simpl.
  now destruct (elem_xywh e).
Qed.

Lemma buildContainerTree_rewrite rect point absolute (block : BlockSnapshot) :
  forall a,
    buildContainerTree (rewriteAnalysis rect point absolute a)
      (rewrite rect point absolute block)
    = rewriteAnalysis rect point absolute (buildContainerTree a block).
Proof.
  induction block as [id flavour props children IH] using block_ind.
  intros a. destruct (String.eqb flavour "affine:surface") eqn:Hsurface.
  - cbn [rewrite buildContainerTree]. rewrite Hsurface.
    cbn [buildContainerTree]. rewrite Hsurface. cbn [elements].
    set (start := mkAnalysis _ _ _).
    set (start' := mkAnalysis _ _ _).
    assert (Hstart : start = rewriteAnalysis rect point absolute start').
    { subst start start'. unfold rewriteAnalysis.
      cbn [containerTree elemMap blockMap].
      destruct (elements props) as [elems|]; [|reflexivity].
      now rewrite addElemEntry_rewrite. }
    rewrite Hstart. clearbody start'. clear Hstart start.
    revert start'. induction IH as [|c cs Hc _ IHcs]; intros start';
      [reflexivity|].
    simpl. rewrite Hc. apply IHcs.
  - assert (Hself :
      exists props',
        rewrite rect point absolute (Block id flavour props children)
        = Block id flavour props' children
        /\ childElementIds props' = childElementIds props).
    { cbn [rewrite]. rewrite Hsurface.
      destruct (xywh props); [destruct (isCardFlavour flavour)|]; eauto. }
    destruct Hself as (props' & Hself & Hids).
    rewrite Hself. cbn [buildContainerTree]. rewrite Hsurface, Hids.
    unfold rewriteAnalysis.
    cbn [containerTree elemMap blockMap].
    rewrite (obj_set_map
               (fun e => mkEntry (surfaceChild e)
                           (rewrite rect point absolute (entrySnapshot e)))).
    cbn [surfaceChild entrySnapshot]. rewrite Hself.
    reflexivity.
Qed.

Lemma analyse_rewrite rect point absolute (blocks : list BlockSnapshot) :
  forall a,
    fold_left buildContainerTree (map (rewrite rect point absolute) blocks)
      (rewriteAnalysis rect point absolute a)
    = rewriteAnalysis rect point absolute
        (fold_left buildContainerTree blocks a).
Proof.
  induction blocks as [|b bs IH]; intros a; [reflexivity|].
  simpl. rewrite buildContainerTree_rewrite. apply IH.
Qed.

(** X8.  Aligning a snapshot to a point does not change what the
    dependency analysis finds: the container tree, and with it the
    top-level members and every container's child set, is the same before
    and after, and the element and block tables have the same keys in the
    same order, each entry holding the aligned element or block. *)
Theorem alignment_keeps_dependencies (snapshot : SliceSnapshot)
    (point : Point) (ignoreOriginalPos : bool) :
  let before := analyse snapshot in
  let after := analyse (rewriteSnapshotXYWH snapshot point ignoreOriginalPos) in
  containerTree after = containerTree before
  /\ rootSet after = rootSet before
  /\ obj_keys (elemMap after) = obj_keys (elemMap before)
  /\ obj_keys (blockMap after) = obj_keys (blockMap before)
  /\ forall rect, getSnapshotRect snapshot = Some rect ->
       after = rewriteAnalysis rect point ignoreOriginalPos before.
Proof.
  cbv zeta. unfold rewriteSnapshotXYWH.
  destruct (getSnapshotRect snapshot) as [rect|];
    [|repeat split; [reflexivity..|discriminate]].
  assert (Heq : analyse
                  (withContent snapshot
                     (map (rewrite rect point ignoreOriginalPos)
                        (content snapshot)))
                = rewriteAnalysis rect point ignoreOriginalPos
                    (analyse snapshot)).
  { unfold analyse, withContent. cbn [content].
    now rewrite <- analyse_rewrite. }
  rewrite Heq. unfold rootSet, rewriteAnalysis, obj_keys.
  cbn [containerTree elemMap blockMap]. rewrite !map_map.
  repeat split; try reflexivity.
  now intros rect' [= <-].
Qed.

End AlignmentFacts.

(** ** Rewriting the references of a container *)

Section RemapFacts.

Lemma obj_set_fresh {V : Type} (o : Obj V) (k : string) (v : V) :
  ~ In k (obj_keys o) -> obj_set o k v = o ++ [(k, v)].
Proof.
  unfold obj_keys. induction o as [|[k' v'] o IH]; intros Hk; [reflexivity|].
  simpl in *. destruct (String.eqb_spec k k') as [->|Hne]; [tauto|].
  rewrite IH; tauto.
Qed.

Lemma obj_delete_absent {V : Type} (o : Obj V) (k : string) :
  ~ In k (obj_keys o) -> obj_delete o k = o.
Proof.
  unfold obj_keys. induction o as [|[k' v'] o IH]; intros Hk; [reflexivity|].
  simpl in *. destruct (String.eqb_spec k k') as [->|Hne]; [tauto|].
  rewrite IH; tauto.
Qed.

Lemma remapKeys_pending (idRemap : Obj string) (pending : Obj JsVal) :
  forall done,
    List.NoDup (obj_keys pending) ->
    (forall k r, In k (obj_keys pending) -> obj_get idRemap k = Some r ->
                 ~ In r (obj_keys pending) /\ ~ In r (obj_keys done)) ->
    (forall k1 k2 r, In k1 (obj_keys pending) -> In k2 (obj_keys pending) ->
                     obj_get idRemap k1 = Some r ->
                     obj_get idRemap k2 = Some r -> k1 = k2) ->
    (forall d, In d (obj_keys done) -> ~ In d (obj_keys pending)) ->
    fold_left (remapKey idRemap) (obj_keys pending) (pending ++ done)
    = done
      ++ flat_map (fun kv =>
                     match obj_get idRemap (fst kv) with
                     | Some r => [(r, snd kv)]
                     | None => []
                     end) pending.
Proof.
  induction pending as [|[k v] pending IH];
    intros done Hnodup Hfresh Hinj Hdone.
  { simpl. now rewrite app_nil_r. }
  unfold obj_keys in *. cbn [map fst fold_left flat_map snd] in *.
  apply List.NoDup_cons_iff in Hnodup as [Hk Hnodup].
  assert (Hkdone : ~ In k (map fst done)).
  { intros Hin. apply (Hdone _ Hin). now left. }
  assert (Hgone : obj_delete (pending ++ done) k = pending ++ done).
  { apply obj_delete_absent. unfold obj_keys. rewrite map_app, in_app_iff.
    tauto. }
  assert (Hstep :
    remapKey idRemap (((k, v) :: pending) ++ done) k
    = pending
      ++ (done ++ match obj_get idRemap k with
                  | Some r => [(r, v)]
                  | None => []
                  end)).
  { unfold remapKey. destruct (obj_get idRemap k) as [r|] eqn:Hr.
    - destruct (Hfresh k r (or_introl eq_refl) Hr) as [Hrp Hrd].
      cbn [app obj_get obj_set]. rewrite String.eqb_refl.
      destruct (String.eqb_spec r k) as [->|Hne]; [simpl in Hrp; tauto|].
      rewrite obj_set_fresh.
      2:{ unfold obj_keys. rewrite map_app, in_app_iff. simpl in Hrp. tauto. }
      cbn [obj_delete]. rewrite String.eqb_refl.
      rewrite <- app_assoc.
      apply obj_delete_absent. unfold obj_keys.
      rewrite !map_app, !in_app_iff. simpl. intuition congruence.
    - cbn [app obj_delete]. rewrite String.eqb_refl, app_nil_r.
      exact Hgone. }
  rewrite Hstep, IH.
  - rewrite <- app_assoc. reflexivity.
  - exact Hnodup.
  - intros k' r' Hk' Hr'.
    destruct (Hfresh k' r' (or_intror Hk') Hr') as [Hrp Hrd].
    split; [simpl in Hrp; tauto|].
    rewrite map_app, in_app_iff. intros [Hin|Hin]; [tauto|].
    destruct (obj_get idRemap k) as [r|] eqn:Hr; [|destruct Hin].
    destruct Hin as [Heq|[]]. simpl in Heq. subst r'.
    assert (k = k') by (apply (Hinj k k' r); simpl; tauto).
    subst k'. tauto.
  - intros k1 k2 r H1 H2. apply Hinj; now right.
  - intros d. rewrite map_app, in_app_iff. intros [Hin|Hin].
    + intros Hp. apply (Hdone d Hin). now right.
    + destruct (obj_get idRemap k) as [r|] eqn:Hr; [|destruct Hin].
      destruct Hin as [Heq|[]]. simpl in Heq. subst d.
      destruct (Hfresh k r (or_introl eq_refl) Hr) as [Hrp _].
      simpl in Hrp. tauto.
Qed.

(** X9.  Rewriting the child references of a container against the remap
    table, when the live identifiers are fresh (none is a key of the
    record) and distinct for distinct children: the result holds, in the
    order of the original keys, one entry per child that has a live
    identifier, under that identifier and with the child's value, and
    nothing for a child that has none. *)
Theorem remapKeys_renames_resolved_children (idRemap : Obj string)
    (childJson : Obj JsVal) :
  List.NoDup (obj_keys childJson) ->
  (forall k r, In k (obj_keys childJson) -> obj_get idRemap k = Some r ->
               ~ In r (obj_keys childJson)) ->
  (forall k1 k2 r, In k1 (obj_keys childJson) -> In k2 (obj_keys childJson) ->
                   obj_get idRemap k1 = Some r ->
                   obj_get idRemap k2 = Some r -> k1 = k2) ->
  remapKeys idRemap childJson
  = flat_map (fun kv =>
                match obj_get idRemap (fst kv) with
                | Some r => [(r, snd kv)]
                | None => []
                end) childJson.
Proof.
  intros Hnodup Hfresh Hinj. unfold remapKeys.
  rewrite <- (app_nil_r childJson) at 2.
  rewrite (remapKeys_pending idRemap childJson []); try assumption.
  - reflexivity.
  - intros k r Hk Hr. split; [exact (Hfresh k r Hk Hr)|intros []].
  - intros d [].
Qed.

End RemapFacts.

(** ** Further properties of the dependency-ordered merge *)

Section MoreMergeFacts.
Context {schema : Schema} {consts : Consts} {widget : Widget}.
Context {Store : Type} {mutator : Mutator Store}.

Lemma addInDependencyOrder_preserves (I : MergeState Store -> Prop)
    (tree : Obj StrSet) (snapshot : SliceSnapshot) :
  (forall s id, I s -> I (applyMember snapshot id s)) ->
  (forall s x, I s -> I (setStatus s x)) ->
  forall fuel s id, I s -> I (addInDependencyOrder tree snapshot fuel s id).
Proof.
  intros Happly Hset. induction fuel as [|fuel IH]; intros s id Hs;
    cbn [addInDependencyOrder]; destruct (ms_status s); try exact Hs.
  - now apply Hset.
  - set (s1 := match obj_get tree id with Some _ => _ | None => _ end).
    assert (H1 : I s1).
    { subst s1. destruct (obj_get tree id) as [childSet|]; [|exact Hs].
      clear id. revert s Hs.
      induction childSet as [|c cs IHcs]; intros s Hs; [exact Hs|].
      simpl. apply IHcs, IH, Hs. }
    destruct (ms_status s1); [now apply Happly|exact H1..].
Qed.

Lemma merge_preserves (I : MergeState Store -> Prop) (fuel : nat)
    (st : Store) (snapshot : SliceSnapshot) (point : option Point) :
  let snapshot' := rewriteSnapshotXYWH snapshot (mergePoint point) false in
  (forall s id, I s -> I (applyMember snapshot' id s)) ->
  (forall s x, I s -> I (setStatus s x)) ->
  I (mkMerge (elemMap (analyse snapshot')) (blockMap (analyse snapshot')) []
       st Running []) ->
  I (mergeSnapshotToCurDoc fuel st snapshot point).
Proof.
  intros snapshot' Happly Hset Hstart. unfold mergeSnapshotToCurDoc.
  fold snapshot'. revert Hstart. generalize (mkMerge (elemMap (analyse snapshot'))
    (blockMap (analyse snapshot')) [] st Running []).
  induction (rootSet (analyse snapshot')) as [|id ids IH]; intros s Hs;
    [exact Hs|].
  simpl. apply IH. now apply addInDependencyOrder_preserves.
Qed.

(** X10.  What a merge that is still running at its end hands back.
    Every top-level member of the container tree that the analysis
    recorded as a block or an element was applied.  Every entry of the
    remap table gives, for a member, a live identifier that an apply of
    that member returned, and every member whose apply returned a live
    identifier has an entry. *)
Theorem resolved_merge_covers_roots (fuel : nat) (st : Store)
    (snapshot : SliceSnapshot) (point : option Point) :
  let a := analyse (rewriteSnapshotXYWH snapshot (mergePoint point) false) in
  let s := mergeSnapshotToCurDoc fuel st snapshot point in
  ms_status s = Running ->
  (forall d, In d (rootSet a) ->
             obj_has (blockMap a) d || obj_has (elemMap a) d = true ->
             exists ev, In ev (ms_applied s) /\ appliedId ev = d)
  /\ (forall d n, obj_get (ms_idRemap s) d = Some n ->
                  exists ev, In ev (ms_applied s) /\ appliedId ev = d
                             /\ appliedNewId ev = Some n)
  /\ (forall ev n, In ev (ms_applied s) -> appliedNewId ev = Some n ->
                   exists n', obj_get (ms_idRemap s) (appliedId ev) = Some n').
Proof.
  intros a s Hrun. subst s. unfold mergeSnapshotToCurDoc in *. fold a in Hrun |- *.
  set (snapshot' := rewriteSnapshotXYWH snapshot (mergePoint point) false)
    in *.
  set (member := fun d => obj_has (blockMap a) d || obj_has (elemMap a) d).
  destruct (visit_children (containerTree a) member
              (addInDependencyOrder (containerTree a) snapshot' fuel)
              (fun s id =>
                 addInDependencyOrder_invariant (containerTree a) member
                   snapshot' fuel s id)
              (rootSet a)
              (mkMerge (elemMap a) (blockMap a) [] st Running []))
    as ((_ & Hrecords & Hsound & _) & _ & Hvisited).
  { split; [apply logResolved_nil|split; [|split]].
    - intros ev n [].
    - intros d n Hd. discriminate Hd.
    - intros d. reflexivity. }
  destruct (Hvisited Hrun) as [_ Hall].
  split; [|split].
  - intros d Hd Hm. exact (Hall d Hd Hm).
  - exact Hsound.
  - exact Hrecords.
Qed.

Lemma fold_budget (tree : Obj StrSet) (snapshot : SliceSnapshot)
    (fuel fuel' : nat) :
  (forall s id, depthWithin tree fuel id = true ->
                addInDependencyOrder tree snapshot fuel' s id
                = addInDependencyOrder tree snapshot fuel s id) ->
  forall ids s,
    forallb (depthWithin tree fuel) ids = true ->
    fold_left (addInDependencyOrder tree snapshot fuel') ids s
    = fold_left (addInDependencyOrder tree snapshot fuel) ids s.
Proof.
  intros Hstep. induction ids as [|id ids IH]; intros s Hids; [reflexivity|].
  simpl in Hids. apply andb_true_iff in Hids as [Hid Hrest].
  simpl. rewrite (Hstep _ _ Hid). now apply IH.
Qed.

Lemma addInDependencyOrder_budget (tree : Obj StrSet)
    (snapshot : SliceSnapshot) (fuel : nat) :
  forall fuel' s id,
    depthWithin tree fuel id = true -> (fuel <= fuel')%nat ->
    addInDependencyOrder tree snapshot fuel' s id
    = addInDependencyOrder tree snapshot fuel s id.
Proof.
  induction fuel as [|fuel IH]; intros fuel' s id Hdepth Hle;
    [simpl in Hdepth; discriminate|].
  destruct fuel' as [|fuel']; [lia|].
  cbn [addInDependencyOrder depthWithin] in *.
  destruct (ms_status s); [|reflexivity..].
  destruct (obj_get tree id) as [childSet|]; [|reflexivity].
  rewrite (fold_budget tree snapshot fuel fuel'); [reflexivity| |exact Hdepth].
  intros s' id' Hd. apply IH; [exact Hd|lia].
Qed.

(** X11.  The recursion of [addInDependencyOrder] ends when the container
    tree is well founded below the top-level members: with a recursion
    budget that covers the depth of the tree the merge never stops for
    lack of budget, and every larger budget gives the same remap table,
    the same document and the same applies. *)
Theorem merge_does_not_depend_on_budget (fuel fuel' : nat) (st : Store)
    (snapshot : SliceSnapshot) (point : option Point) :
  let a := analyse (rewriteSnapshotXYWH snapshot (mergePoint point) false) in
  forallb (depthWithin (containerTree a) fuel) (rootSet a) = true ->
  (fuel <= fuel')%nat ->
  ms_status (mergeSnapshotToCurDoc fuel st snapshot point) <> OutOfFuel
  /\ mergeSnapshotToCurDoc fuel' st snapshot point
     = mergeSnapshotToCurDoc fuel st snapshot point.
Proof.
  intros a Hdepth Hle. split.
  - now apply merge_completes_within_depth.
  - unfold mergeSnapshotToCurDoc. fold a. apply fold_budget; [|exact Hdepth].
    intros s id Hd. now apply addInDependencyOrder_budget.
Qed.

Lemma stopped_stays_stopped (tree : Obj StrSet) (snapshot : SliceSnapshot)
    (fuel : nat) (ids : list string) :
  forall s,
    ms_status s <> Running ->
    fold_left (addInDependencyOrder tree snapshot fuel) ids s = s.
Proof.
  induction ids as [|id ids IH]; intros s Hs; [reflexivity|].
  simpl.
  assert (Hid : addInDependencyOrder tree snapshot fuel s id = s).
  { destruct fuel; cbn [addInDependencyOrder];
      destruct (ms_status s); congruence. }
  rewrite Hid. now apply IH.
Qed.

Lemma addInDependencyOrder_too_deep (tree : Obj StrSet)
    (snapshot : SliceSnapshot) (fuel : nat) :
  forall s id,
    depthWithin tree fuel id = false ->
    ms_status (addInDependencyOrder tree snapshot fuel s id) <> Running.
Proof.
  induction fuel as [|fuel IH]; intros s id Hdepth.
  - cbn [addInDependencyOrder]. destruct (ms_status s) eqn:Hs;
      [simpl; discriminate|rewrite Hs; discriminate..].
  - cbn [addInDependencyOrder depthWithin] in *.
    destruct (ms_status s) eqn:Hs; [|rewrite Hs; discriminate..].
    destruct (obj_get tree id) as [childSet|]; [|discriminate].
    set (s1 := fold_left _ childSet s).
    assert (H1 : ms_status s1 <> Running).
    { subst s1. clear Hs. revert s Hdepth.
      induction childSet as [|c cs IHcs]; intros s Hdepth;
        [discriminate|].
      simpl in Hdepth. simpl.
      destruct (depthWithin tree fuel c) eqn:Hc.
      - apply IHcs. exact Hdepth.
      - rewrite stopped_stays_stopped; now apply IH. }
    destruct (ms_status s1) eqn:Hs1; [congruence|rewrite Hs1; discriminate..].
Qed.

(** X12.  The recursion follows every chain of the container tree to its
    end: when some chain below a top-level member is longer than the
    recursion budget, the merge does not resolve within that budget.  A
    container tree with a cycle below a top-level member therefore never
    resolves, whatever the budget. *)
Theorem merge_recursion_follows_every_chain (fuel : nat) (st : Store)
    (snapshot : SliceSnapshot) (point : option Point) :
  let a := analyse (rewriteSnapshotXYWH snapshot (mergePoint point) false) in
  forallb (depthWithin (containerTree a) fuel) (rootSet a) = false ->
  ms_status (mergeSnapshotToCurDoc fuel st snapshot point) <> Running.
Proof.
  intros a Hdepth. unfold mergeSnapshotToCurDoc. fold a.
  generalize (mkMerge (elemMap a) (blockMap a) [] st Running []).
  revert Hdepth. induction (rootSet a) as [|id ids IH]; intros Hdepth s;
    [discriminate|].
  simpl in Hdepth. simpl.
  destruct (depthWithin (containerTree a) fuel id) eqn:Hid.
  - apply IH. exact Hdepth.
  - rewrite stopped_stays_stopped; now apply addInDependencyOrder_too_deep.
Qed.

Lemma remapBlock_head (idRemap : Obj string) (b : BlockSnapshot) :
  bs_id (remapBlock idRemap b) = bs_id b
  /\ bs_flavour (remapBlock idRemap b) = bs_flavour b.
Proof.
  destruct b as [id flavour props children]. simpl.
  now destruct (isGroupLikeBlock flavour).
Qed.

Lemma applyMember_filed (snapshot : SliceSnapshot) (s : MergeState Store)
    (id : string) :
  filedInvariant s -> filedInvariant (applyMember snapshot id s).
Proof.
  intros [Hmap Hlog]. unfold applyMember.
  destruct (obj_get (ms_blockMap s) id) as [entry|] eqn:Hentry.
  - destruct (Hmap _ _ Hentry) as (Hid & Hfl & Hsc).
    destruct (remapBlock_head (ms_idRemap s) (entrySnapshot entry))
      as [Hid' Hfl'].
    assert (Hnew : entryFiled id
              (mkEntry (surfaceChild entry)
                 (remapBlock (ms_idRemap s) (entrySnapshot entry)))).
    { unfold entryFiled. cbn [entrySnapshot surfaceChild].
      rewrite Hid', Hfl'. auto. }
    assert (Hmap' : forall d e,
               obj_get
                 (obj_set (ms_blockMap s) id
                    (mkEntry (surfaceChild entry)
                       (remapBlock (ms_idRemap s) (entrySnapshot entry))))
                 d = Some e -> entryFiled d e).
    { intros d e. destruct (String.eqb_spec id d) as [<-|Hne].
      - rewrite obj_get_set_eq. now intros [= <-].
      - rewrite obj_get_set_ne by exact Hne. apply Hmap. }
    assert (Hlog' : forall newId ev,
               In ev
                 (ms_applied s
                  ++ [AppliedBlock id
                        (remapBlock (ms_idRemap s) (entrySnapshot entry))
                        (if surfaceChild entry then surfaceId else rootId)
                        (ms_idRemap s) newId]) -> appliedUnder ev).
    { intros newId ev Hin. apply in_app_iff in Hin as [Hin|[<-|[]]];
        [now apply Hlog|].
      unfold appliedUnder. rewrite Hid', Hfl', <- Hsc. auto. }
    destruct (dropToModel _ _ _ _) as [[[|first blocks]|] store'];
      (split; cbn [ms_blockMap ms_applied]; [exact Hmap'|apply Hlog']).
  - destruct (obj_get (ms_elemMap s) id) as [elem|]; [|now split].
    destruct (addElement _ _) as [newId store'].
    split; cbn [ms_blockMap ms_applied]; [exact Hmap|].
    intros ev Hin. apply in_app_iff in Hin as [Hin|[<-|[]]];
      [now apply Hlog|exact I].
Qed.

Lemma buildContainerTree_filed (block : BlockSnapshot) :
  forall a,
    (forall id e, obj_get (blockMap a) id = Some e -> entryFiled id e) ->
    forall id e,
      obj_get (blockMap (buildContainerTree a block)) id = Some e ->
      entryFiled id e.
Proof.
  induction block as [bid flavour props children IH] using block_ind.
  intros a Ha. cbn [buildContainerTree].
  destruct (String.eqb flavour "affine:surface") eqn:Hsurface.
  - set (start := mkAnalysis _ _ _).
    assert (Hstart : forall id e,
               obj_get (blockMap start) id = Some e -> entryFiled id e)
      by exact Ha.
    clearbody start. revert start Hstart.
    induction IH as [|c cs Hc _ IHcs]; intros start Hstart; [exact Hstart|].
    simpl. apply IHcs, Hc, Hstart.
  - cbn [blockMap]. intros id e.
    destruct (String.eqb_spec bid id) as [<-|Hne].
    + rewrite obj_get_set_eq. intros [= <-].
      unfold entryFiled. cbn [entrySnapshot surfaceChild bs_id bs_flavour].
      auto.
    + rewrite obj_get_set_ne by exact Hne. apply Ha.
Qed.

(** X13.  Every block the merge inserts is handed over under its own
    snapshot identifier, is never the surface block of the snapshot, and
    goes under the surface of the document when the schema allows its
    flavour there and under the root of the document otherwise. *)
Theorem blocks_are_applied_under_surface_or_root (fuel : nat) (st : Store)
    (snapshot : SliceSnapshot) (point : option Point) (id : string)
    (block : BlockSnapshot) (parent : string) (idRemap : Obj string)
    (newId : option string) :
  In (AppliedBlock id block parent idRemap newId)
     (ms_applied (mergeSnapshotToCurDoc fuel st snapshot point)) ->
  bs_id block = id
  /\ bs_flavour block <> "affine:surface"
  /\ parent
     = (if safeValidate (bs_flavour block) "affine:surface"
        then surfaceId else rootId).
Proof.
  intros Hin.
  assert (Hinv : filedInvariant (mergeSnapshotToCurDoc fuel st snapshot point)).
  { apply (merge_preserves filedInvariant).
    - intros s d. apply applyMember_filed.
    - intros s x Hs. exact Hs.
    - split; [|intros ev []]. cbn [ms_blockMap]. unfold analyse.
      generalize (content
                    (rewriteSnapshotXYWH snapshot (mergePoint point) false)).
      assert (Hempty : forall d e,
                 obj_get (blockMap emptyAnalysis) d = Some e ->
                 entryFiled d e) by (intros d e Hd; discriminate Hd).
      revert Hempty. generalize emptyAnalysis.
      intros a Ha blocks. revert a Ha.
      induction blocks as [|b bs IH]; intros a Ha; [exact Ha|].
      simpl. apply IH. now apply buildContainerTree_filed. }
  destruct Hinv as [_ Hlog]. specialize (Hlog _ Hin).
  destruct Hlog as (Hid & Hfl & Hparent).
  split; [exact Hid|split; [|exact Hparent]].
  intros Heq. rewrite Heq in Hfl. discriminate.
Qed.

End MoreMergeFacts.

(** ** Snapshot of a canvas selection *)

Section SelectionFacts.

Lemma getElementsInContainer_members (elem : GfxModel) :
  forall selectedElements,
    getElementsInContainer elem selectedElements
    = selectedElements ++ selectionMembers elem.
Proof.
  revert elem. fix IH 1. intros [id block groupCompatible childElements].
  intros selectedElements. cbn [getElementsInContainer selectionMembers].
  destruct groupCompatible; [|reflexivity].
  replace (selectedElements ++ id :: flat_map selectionMembers childElements)
    with ((selectedElements ++ [id])
          ++ flat_map selectionMembers childElements)
    by now rewrite <- app_assoc.
  generalize (selectedElements ++ [id]).
  induction childElements as [|c cs IHcs]; intros acc; simpl.
  - now rewrite app_nil_r.
  - rewrite IH, IHcs. now rewrite <- app_assoc.
Qed.

Lemma requireBlock_origin (getElementById : string -> option GfxModel)
    (surface : BlockModel) (state : bool * list BlockModel) (id : string) :
  requireBlock getElementById surface state id
  = match originOf getElementById id with
    | Gone => state
    | OnSurface =>
        if fst state then state else (true, snd state ++ [surface])
    | OwnBlock model => (fst state, snd state ++ [model])
    end.
Proof.
  unfold requireBlock, originOf.
  destruct (getElementById id) as [[i [model|] g cs]|]; try reflexivity.
  destruct (getParent model) as [parentModel|]; [|reflexivity].
  now destruct (matchModels parentModel [SurfaceBlockModel]).
Qed.

Lemma requireBlock_after_surface (getElementById : string -> option GfxModel)
    (surface : BlockModel) (ids : list string) :
  forall blocks,
    fold_left (requireBlock getElementById surface) ids (true, blocks)
    = (true, blocks ++ ownBlocks getElementById ids).
Proof.
  induction ids as [|id ids IH]; intros blocks; simpl.
  - now rewrite app_nil_r.
  - rewrite requireBlock_origin. cbn [fst snd].
    destruct (originOf getElementById id); rewrite IH; try reflexivity.
    now rewrite <- app_assoc.
Qed.

Lemma requireBlock_before_surface (getElementById : string -> option GfxModel)
    (surface : BlockModel) (ids : list string) :
  forall blocks,
    forallb (fun id => negb (onSurface getElementById id)) ids = true ->
    fold_left (requireBlock getElementById surface) ids (false, blocks)
    = (false, blocks ++ ownBlocks getElementById ids).
Proof.
  induction ids as [|id ids IH]; intros blocks Hids; simpl.
  - now rewrite app_nil_r.
  - simpl in Hids. apply andb_true_iff in Hids as [Hid Hrest].
    rewrite requireBlock_origin. cbn [fst snd]. unfold onSurface in Hid.
    destruct (originOf getElementById id); try discriminate;
      rewrite (IH _ Hrest); try reflexivity.
    now rewrite <- app_assoc.
Qed.

(** X14.  The members of a canvas selection are collected in depth-first
    order: the selected model first, then, for a group-compatible model,
    the members of each child in turn; the children of a model that is
    not group compatible are left out.  Whatever was collected before is
    kept in front. *)
Theorem selection_is_collected_depth_first (elem : GfxModel)
    (selectedElements : list string) :
  getElementsInContainer elem selectedElements
  = selectedElements
    ++ gfx_id elem
       :: match elem with
          | Gfx _ _ true childElements =>
              flat_map (fun child => getElementsInContainer child [])
                childElements
          | Gfx _ _ false _ => []
          end.
Proof.
  rewrite getElementsInContainer_members.
  destruct elem as [id block [|] childElements]; cbn [selectionMembers gfx_id];
    [|reflexivity].
  do 2 f_equal. induction childElements as [|c cs IH]; [reflexivity|].
  simpl. now rewrite getElementsInContainer_members, IH.
Qed.

(** X15.  The blocks a canvas selection is snapshotted from.  The
    surface is taken once, at the place of the first member that lives on
    it (a primitive element, or a block whose parent is the surface);
    later members that live on the surface add nothing.  Every other
    member found on the canvas contributes its own block, in the order of
    the members, and a member the canvas does not know contributes
    nothing. *)
Theorem surface_is_required_once (getElementById : string -> option GfxModel)
    (surface : BlockModel) (models : list string) :
  (forallb (fun id => negb (onSurface getElementById id)) models = true ->
   toSnapshotRequiredBlocks getElementById surface models
   = ownBlocks getElementById models)
  /\ (forall before id after,
         models = before ++ id :: after ->
         forallb (fun id => negb (onSurface getElementById id)) before
         = true ->
         onSurface getElementById id = true ->
         toSnapshotRequiredBlocks getElementById surface models
         = ownBlocks getElementById before
           ++ surface :: ownBlocks getElementById after).
Proof.
  unfold toSnapshotRequiredBlocks. split.
  - intros Hids. now rewrite requireBlock_before_surface.
  - intros before id after -> Hbefore Hid.
    rewrite fold_left_app, requireBlock_before_surface by exact Hbefore.
    cbn [fold_left app]. rewrite requireBlock_origin. cbn [fst snd].
    unfold onSurface in Hid.
    destruct (originOf getElementById id); try discriminate.
    rewrite requireBlock_after_surface. cbn [snd].
    now rewrite <- app_assoc.
Qed.

End SelectionFacts.

(** ** Snapshot of the hovered blocks *)

Section HoveredFacts.
Variable getBlock : string -> option HoveredBlock.

Lemma includesBlock_In (blocks : list HoveredBlock) (block : HoveredBlock) :
  includesBlock blocks block = true ->
  exists b, In b blocks /\ hb_id b = hb_id block.
Proof.
  unfold includesBlock. intros H. apply existsb_exists in H as (b & Hb & Heq).
  exists b. split; [exact Hb|]. now apply String.eqb_eq.
Qed.

Lemma expandBlock_grows (state : list HoveredBlock * list HoveredBlock)
    (block : HoveredBlock) :
  exists more,
    snd (expandBlock getBlock state block) = snd state ++ more
    /\ (forall b, In b (fst (expandBlock getBlock state block)) ->
                  In b (fst state) \/ In b more)
    /\ (forall b, In b more ->
                  b = block
                  \/ (isToggledHeading block = true
                      /\ In b (viewsOfSiblings getBlock block)))
    /\ (In block more
        \/ exists b, In b (fst state) /\ hb_id b = hb_id block).
Proof.
  unfold expandBlock.
  destruct (includesBlock (fst state) block) eqn:Hinc.
  - exists []. rewrite app_nil_r. split; [reflexivity|].
    split; [tauto|]. split; [intros b []|].
    right. now apply includesBlock_In.
  - destruct (isToggledHeading block) eqn:Hh; cbn [fst snd].
    + exists (block :: viewsOfSiblings getBlock block).
      split; [reflexivity|]. split; [|split].
      * intros b Hb. apply in_app_iff in Hb as [Hb|Hb]; [tauto|].
        right. now right.
      * intros b [<-|Hb]; tauto.
      * left. now left.
    + exists [block]. split; [reflexivity|]. split; [|split].
      * tauto.
      * intros b [<-|[]]. tauto.
      * left. now left.
Qed.

Lemma expand_fold (selected : list HoveredBlock) :
  forall state,
    (forall b, In b (fst state) -> In b (snd state)) ->
    let final := fold_left (expandBlock getBlock) selected state in
    (forall b, In b (fst final) -> In b (snd final))
    /\ (forall b, In b (snd state) -> In b (snd final))
    /\ (forall b, In b selected -> In (hb_id b) (map hb_id (snd final)))
    /\ (forall b, In b (snd final) ->
                  In b (snd state) \/ In b selected
                  \/ exists heading,
                       In heading selected
                       /\ isToggledHeading heading = true
                       /\ In b (viewsOfSiblings getBlock heading)).
Proof.
  induction selected as [|block selected IH]; intros state Hstate; cbv zeta.
  { simpl. split; [exact Hstate|]. split; [tauto|].
    split; [intros b []|tauto]. }
  cbn [fold_left].
  destruct (expandBlock_grows state block)
    as (more & Hsnd & Hfst & Hmore & Hblock).
  set (state' := expandBlock getBlock state block) in *.
  assert (Hstate' : forall b, In b (fst state') -> In b (snd state')).
  { intros b Hb. rewrite Hsnd, in_app_iff.
    destruct (Hfst b Hb) as [H|H]; [left; now apply Hstate|now right]. }
  destruct (IH state' Hstate') as (Hinv & Hkeep & Hcover & Hsound).
  split; [exact Hinv|]. split; [|split].
  - intros b Hb. apply Hkeep. rewrite Hsnd, in_app_iff. now left.
  - intros b [<-|Hb]; [|now apply Hcover].
    destruct Hblock as [Hin|(c & Hc & Hid)].
    + apply in_map, Hkeep. rewrite Hsnd, in_app_iff. now right.
    + rewrite <- Hid. apply in_map, Hkeep. rewrite Hsnd, in_app_iff.
      left. now apply Hstate.
  - intros b Hb. destruct (Hsound b Hb) as [H|[H|(h & Hh & Ht & Hs)]].
    + rewrite Hsnd in H. apply in_app_iff in H as [H|H]; [now left|].
      right. destruct (Hmore b H) as [->|[Ht Hs]].
      * left. now left.
      * right. exists block. split; [now left|now split].
    + right. left. now right.
    + right. right. exists h. split; [now right|now split].
Qed.

(** X16.  The blocks dragged from a page selection.  No selected block is
    lost: each one is among the dragged blocks, by its identifier.
    Nothing foreign is added: a dragged block is a selected block or the
    view of a collapsed sibling of a selected toggled heading.  With no
    toggled heading in the selection the dragged blocks are the selected
    blocks, unchanged. *)
Theorem collapsed_siblings_follow_their_heading
    (selectedBlockComponents : list HoveredBlock) :
  let blocks := expandCollapsed getBlock selectedBlockComponents in
  (forall block, In block selectedBlockComponents ->
                 In (hb_id block) (map hb_id blocks))
  /\ (forall block, In block blocks ->
        In block selectedBlockComponents
        \/ exists heading,
             In heading selectedBlockComponents
             /\ isToggledHeading heading = true
             /\ In block (viewsOfSiblings getBlock heading))
  /\ (forallb (fun block => negb (isToggledHeading block))
        selectedBlockComponents = true ->
      blocks = selectedBlockComponents).
Proof.
  cbv zeta. unfold expandCollapsed.
  destruct (expand_fold selectedBlockComponents ([], []))
    as (_ & _ & Hcover & Hsound); [intros b []|].
  split; [exact Hcover|]. split.
  - intros block Hb. destruct (Hsound block Hb) as [[]|H]. exact H.
  - intros Hplain.
    assert (Hgen : forall out,
               fold_left (expandBlock getBlock) selectedBlockComponents
                 ([], out)
               = ([], out ++ selectedBlockComponents)).
    { clear Hcover Hsound.
      induction selectedBlockComponents as [|b bs IH]; intros out.
      - simpl. now rewrite app_nil_r.
      - simpl in Hplain. apply andb_true_iff in Hplain as [Hb Hbs].
        apply negb_true_iff in Hb. cbn [fold_left].
        unfold expandBlock at 2. cbn [fst snd includesBlock existsb].
        rewrite Hb, (IH Hbs), <- app_assoc. reflexivity. }
    now rewrite Hgen.
Qed.

End HoveredFacts.

(** ** Opacity of the dragged content *)

Section OpacityFacts.
Variable Num : Type.
Variable OPACITY : Num.

Lemma dimTarget_running (d : Dimming Num) (t : DimTarget) :
  threw d = false -> threw (dimTarget OPACITY d t) = false.
Proof.
  intros Hd. destruct t as [id|id]; cbn [dimTarget];
    unfold dimElement, dimView; rewrite Hd.
  - now destruct (obj_get (elementOpacity (dimmed d)) id).
  - now destruct (obj_get (viewOpacity (dimmed d)) id).
Qed.

Lemma dimTargets_running (ts : list DimTarget) :
  forall d, threw d = false -> threw (fold_left (dimTarget OPACITY) ts d) = false.
Proof.
  induction ts as [|t ts IH]; intros d Hd; [exact Hd|].
  simpl. now apply IH, dimTarget_running.
Qed.

Lemma traverse_targets (block : BlockSnapshot) :
  forall d,
    surfacesHaveElements block = true -> threw d = false ->
    traverse OPACITY d block = fold_left (dimTarget OPACITY) (dimTargets block) d.
Proof.
  induction block as [id flavour props children IH] using block_ind.
  intros d Hwf Hd. cbn [traverse dimTargets surfacesHaveElements] in *.
  destruct (String.eqb flavour "affine:surface"); [|reflexivity].
  apply andb_true_iff in Hwf as [Hchildren Helems].
  assert (Hfold : forall d0,
             threw d0 = false ->
             fold_left (traverse OPACITY) children d0
             = fold_left (dimTarget OPACITY) (flat_map dimTargets children)
                 d0).
  { clear Hd d. induction IH as [|c cs Hc _ IHcs]; intros d0 Hd0;
      [reflexivity|].
    simpl in Hchildren. apply andb_true_iff in Hchildren as [Hwc Hwcs].
    simpl. rewrite fold_left_app, (Hc _ Hwc Hd0).
    apply (IHcs Hwcs). now apply dimTargets_running. }
  rewrite (Hfold _ Hd), fold_left_app.
  rewrite (dimTargets_running _ _ Hd).
  destruct (elements props) as [elems|]; [|discriminate].
  generalize (fold_left (dimTarget OPACITY) (flat_map dimTargets children) d).
  induction (obj_keys elems) as [|k ks IHks]; intros d0; [reflexivity|].
  simpl. apply IHks.
Qed.

Lemma traverseAll_targets (blocks : list BlockSnapshot) :
  forall d,
    forallb surfacesHaveElements blocks = true -> threw d = false ->
    fold_left (traverse OPACITY) blocks d
    = fold_left (dimTarget OPACITY) (flat_map dimTargets blocks) d.
Proof.
  induction blocks as [|b bs IH]; intros d Hwf Hd; [reflexivity|].
  simpl in Hwf. apply andb_true_iff in Hwf as [Hb Hbs].
  simpl. rewrite fold_left_app, (traverse_targets _ _ Hb Hd).
  apply (IH _ Hbs). now apply dimTargets_running.
Qed.

Lemma readAt_set_element (t : DimTarget) (screen : Screen Num) (id : string)
    (v : Num) :
  readAt t (mkScreen (obj_set (elementOpacity screen) id v)
              (viewOpacity screen))
  = if bool_decide (t = ElementTarget id) then Some (inl v)
    else readAt t screen.
Proof.
  destruct t as [k|k]; cbn [readAt elementOpacity viewOpacity].
  - destruct (String.eqb_spec id k) as [->|Hne].
    + rewrite bool_decide_eq_true_2 by reflexivity.
      now rewrite obj_get_set_eq.
    + rewrite bool_decide_eq_false_2 by congruence.
      now rewrite obj_get_set_ne.
  - now rewrite bool_decide_eq_false_2 by discriminate.
Qed.

Lemma readAt_set_view (t : DimTarget) (screen : Screen Num) (id : string)
    (v : string) :
  readAt t (mkScreen (elementOpacity screen)
              (obj_set (viewOpacity screen) id v))
  = if bool_decide (t = ViewTarget id) then Some (inr v)
    else readAt t screen.
Proof.
  destruct t as [k|k]; cbn [readAt elementOpacity viewOpacity].
  - now rewrite bool_decide_eq_false_2 by discriminate.
  - destruct (String.eqb_spec id k) as [->|Hne].
    + rewrite bool_decide_eq_true_2 by reflexivity.
      now rewrite obj_get_set_eq.
    + rewrite bool_decide_eq_false_2 by congruence.
      now rewrite obj_get_set_ne.
Qed.

(** One look-up of the walk either finds nothing and changes nothing, or
    dims the target and pushes the callback that gives it its reading
    back. *)
Lemma dimTarget_step (d : Dimming Num) (u : DimTarget) :
  threw d = false ->
  (readAt u (dimmed d) = None /\ dimTarget OPACITY d u = d)
  \/ exists screen' callback,
       readAt u (dimmed d) <> None
       /\ dimTarget OPACITY d u
          = mkDimming screen' (resetCallbacks d ++ [callback]) false
       /\ (forall t, readAt t screen'
                     = if bool_decide (t = u) then dimReading OPACITY u
                       else readAt t (dimmed d))
       /\ (forall t screen,
              readAt t (runReset screen callback)
              = if bool_decide (t = u) then readAt u (dimmed d)
                else readAt t screen).
Proof.
  intros Hd. destruct u as [id|id]; cbn [dimTarget readAt];
    unfold dimElement, dimView; rewrite Hd.
  - destruct (obj_get (elementOpacity (dimmed d)) id) as [orig|] eqn:Horig;
      [right|left; now split].
    eexists _, (ResetElement id orig). split; [discriminate|].
    split; [reflexivity|]. split.
    + intros t. apply readAt_set_element.
    + intros t screen. cbn [runReset]. apply readAt_set_element.
  - destruct (obj_get (viewOpacity (dimmed d)) id) as [orig|] eqn:Horig;
      [right|left; now split].
    eexists _, (ResetView id orig). split; [discriminate|].
    split; [reflexivity|]. split.
    + intros t. apply readAt_set_view.
    + intros t screen. cbn [runReset]. apply readAt_set_view.
Qed.

Lemma dimTargets_readings (screen0 : Screen Num) (ts : list DimTarget) :
  forall d visited,
    threw d = false ->
    (forall t,
        (In t visited /\ readAt t screen0 <> None
         /\ readAt t (dimmed d) = dimReading OPACITY t)
        \/ (readAt t (dimmed d) = readAt t screen0
            /\ (In t visited -> readAt t screen0 = None))) ->
    forall t,
      (In t (visited ++ ts) /\ readAt t screen0 <> None
       /\ readAt t (dimmed (fold_left (dimTarget OPACITY) ts d))
          = dimReading OPACITY t)
      \/ (readAt t (dimmed (fold_left (dimTarget OPACITY) ts d))
          = readAt t screen0
          /\ (In t (visited ++ ts) -> readAt t screen0 = None)).
Proof.
  induction ts as [|u ts IH]; intros d visited Hd Hinv t.
  { rewrite app_nil_r. apply Hinv. }
  cbn [fold_left].
  replace (visited ++ u :: ts) with ((visited ++ [u]) ++ ts)
    by now rewrite <- app_assoc.
  apply IH; [now apply dimTarget_running|]. clear t IH. intros t.
  destruct (dimTarget_step d u Hd)
    as [[Hnone ->]|(screen' & callback & Hsome & -> & Hread & _)].
  - destruct (Hinv t) as [(Hin & Hon & Hdim)|[Hsame Hoff]].
    + left. split; [apply in_app_iff; now left|now split].
    + right. split; [exact Hsame|]. intros Hin.
      apply in_app_iff in Hin as [Hin|[<-|[]]]; [now apply Hoff|].
      now rewrite <- Hsame.
  - cbn [dimmed]. rewrite Hread.
    destruct (decide (t = u)) as [->|Hne].
    + rewrite bool_decide_eq_true_2 by reflexivity. left.
      split; [apply in_app_iff; right; now left|]. split; [|reflexivity].
      destruct (Hinv u) as [(_ & Hon & _)|[Hsame _]]; [exact Hon|].
      now rewrite <- Hsame.
    + rewrite bool_decide_eq_false_2 by exact Hne.
      destruct (Hinv t) as [(Hin & Hon & Hdim)|[Hsame Hoff]].
      * left. split; [apply in_app_iff; now left|now split].
      * right. split; [exact Hsame|]. intros Hin.
        apply in_app_iff in Hin as [Hin|[Heq|[]]]; [now apply Hoff|].
        congruence.
Qed.

Lemma reset_snoc (screen : Screen Num) (callbacks : list (ResetCallback Num))
    (callback : ResetCallback Num) :
  resetOpacity screen (callbacks ++ [callback])
  = runReset (resetOpacity screen callbacks) callback.
Proof. unfold resetOpacity. now rewrite fold_left_app. Qed.

Lemma dimTargets_restorable (screen0 : Screen Num) (ts : list DimTarget) :
  forall d visited,
    threw d = false ->
    List.NoDup (visited ++ ts) ->
    (forall t,
        (In t visited
         /\ forall screen,
              readAt t (resetOpacity screen (resetCallbacks d))
              = readAt t screen0)
        \/ ((forall screen,
                readAt t (resetOpacity screen (resetCallbacks d))
                = readAt t screen)
            /\ readAt t (dimmed d) = readAt t screen0)) ->
    forall t,
      let d' := fold_left (dimTarget OPACITY) ts d in
      readAt t (resetOpacity (dimmed d') (resetCallbacks d'))
      = readAt t screen0.
Proof.
  induction ts as [|u ts IH]; intros d visited Hd Hnodup Hinv t; cbv zeta.
  { simpl. destruct (Hinv t) as [[_ Hreset]|[Hreset Hsame]].
    - apply Hreset.
    - now rewrite Hreset. }
  cbn [fold_left].
  replace (visited ++ u :: ts) with ((visited ++ [u]) ++ ts) in Hnodup
    by now rewrite <- app_assoc.
  apply (IH _ (visited ++ [u])); [now apply dimTarget_running|exact Hnodup|].
  clear t IH. intros t.
  assert (Hfresh : ~ In u visited).
  { apply List.NoDup_app_remove_r in Hnodup.
    apply List.NoDup_remove_2 in Hnodup. now rewrite app_nil_r in Hnodup. }
  destruct (dimTarget_step d u Hd)
    as [[Hnone ->]|(screen' & callback & Hsome & -> & Hread & Hreset)].
  - destruct (Hinv t) as [[Hin Hback]|Hkeep].
    + left. split; [apply in_app_iff; now left|exact Hback].
    + now right.
  - cbn [resetCallbacks dimmed].
    destruct (decide (t = u)) as [->|Hne].
    + left. split; [apply in_app_iff; right; now left|].
      intros screen. rewrite reset_snoc, Hreset.
      rewrite bool_decide_eq_true_2 by reflexivity.
      destruct (Hinv u) as [[Hin _]|[_ Hsame]]; [tauto|exact Hsame].
    + destruct (Hinv t) as [[Hin Hback]|[Hkeep Hsame]].
      * left. split; [apply in_app_iff; now left|].
        intros screen. rewrite reset_snoc, Hreset.
        now rewrite bool_decide_eq_false_2 by exact Hne.
      * right. split.
        -- intros screen. rewrite reset_snoc, Hreset.
           now rewrite bool_decide_eq_false_2 by exact Hne.
        -- rewrite Hread. now rewrite bool_decide_eq_false_2 by exact Hne.
Qed.

(** X17.  What the start of a drag dims.  When every surface block of the
    snapshot has an [elements] record, afterwards every canvas element
    and every block view the walk looked up and found on screen reads the
    dragging opacity, and every other element and view reads what it read
    before: nothing outside the snapshot is touched, and nothing is added
    to the screen. *)
Theorem drag_dims_exactly_the_snapshot (screen : Screen Num)
    (resetOpacityCallbacks : list (ResetCallback Num))
    (snapshot : SliceSnapshot) :
  forallb surfacesHaveElements (content snapshot) = true ->
  let targets := flat_map dimTargets (content snapshot) in
  let dimmedScreen :=
    fst (setOpacityOfDraggedBlocks OPACITY screen resetOpacityCallbacks
           snapshot) in
  (forall id,
      (In (ElementTarget id) targets ->
       obj_get (elementOpacity dimmedScreen) id
       = option_map (fun _ => OPACITY) (obj_get (elementOpacity screen) id))
      /\ (~ In (ElementTarget id) targets ->
          obj_get (elementOpacity dimmedScreen) id
          = obj_get (elementOpacity screen) id))
  /\ (forall id,
         (In (ViewTarget id) targets ->
          obj_get (viewOpacity dimmedScreen) id
          = option_map (fun _ => "0.7") (obj_get (viewOpacity screen) id))
         /\ (~ In (ViewTarget id) targets ->
             obj_get (viewOpacity dimmedScreen) id
             = obj_get (viewOpacity screen) id)).
Proof.
  intros Hwf targets dimmedScreen. subst dimmedScreen.
  unfold setOpacityOfDraggedBlocks. cbn [fst].
  rewrite (traverseAll_targets _ (mkDimming screen [] false) Hwf eq_refl).
  fold targets.
  pose proof (dimTargets_readings screen targets
                (mkDimming screen [] false) [] eq_refl) as Hall.
  cbn [app dimmed] in Hall.
  assert (Hstart : forall t,
             (In t [] /\ readAt t screen <> None
              /\ readAt t screen = dimReading OPACITY t)
             \/ (readAt t screen = readAt t screen
                 /\ (In t [] -> readAt t screen = None)))
    by (intros t; right; split; [reflexivity|intros []]).
  specialize (Hall Hstart). clear Hstart.
  set (final := fold_left (dimTarget OPACITY) targets
                  (mkDimming screen [] false)) in *.
  split; intros id.
  - specialize (Hall (ElementTarget id)). cbn [readAt dimReading] in Hall.
    destruct (obj_get (elementOpacity screen) id) as [original|];
      destruct (obj_get (elementOpacity (dimmed final)) id) as [now|];
      cbn [option_map] in *;
      destruct Hall as [(Hin & Hon & Hdim)|[Hsame Hoff]];
      (split; intros Hmem); try congruence; try tauto;
      try (specialize (Hoff Hmem)); congruence.
  - specialize (Hall (ViewTarget id)). cbn [readAt dimReading] in Hall.
    destruct (obj_get (viewOpacity screen) id) as [original|];
      destruct (obj_get (viewOpacity (dimmed final)) id) as [now|];
      cbn [option_map] in *;
      destruct Hall as [(Hin & Hon & Hdim)|[Hsame Hoff]];
      (split; intros Hmem); try congruence; try tauto;
      try (specialize (Hoff Hmem)); congruence.
Qed.

(** X18.  Dimming and clean-up are a round trip.  When every surface
    block of the snapshot has an [elements] record and the walk looks no
    element and no view up twice, running the callbacks the drag start
    left behind gives every canvas element and every block view the
    opacity it had before the drag. *)
Theorem cleanup_restores_opacity (screen : Screen Num)
    (resetOpacityCallbacks : list (ResetCallback Num))
    (snapshot : SliceSnapshot) :
  forallb surfacesHaveElements (content snapshot) = true ->
  List.NoDup (flat_map dimTargets (content snapshot)) ->
  let started :=
    setOpacityOfDraggedBlocks OPACITY screen resetOpacityCallbacks snapshot in
  let restored := resetOpacity (fst started) (snd started) in
  (forall id,
      obj_get (elementOpacity restored) id
      = obj_get (elementOpacity screen) id)
  /\ (forall id,
         obj_get (viewOpacity restored) id = obj_get (viewOpacity screen) id).
Proof.
  intros Hwf Hnodup started restored. subst restored started.
  unfold setOpacityOfDraggedBlocks. cbn [fst snd].
  rewrite (traverseAll_targets _ (mkDimming screen [] false) Hwf eq_refl).
  rewrite (dimTargets_running _ (mkDimming screen [] false) eq_refl).
  pose proof (dimTargets_restorable screen
                (flat_map dimTargets (content snapshot))
                (mkDimming screen [] false) [] eq_refl Hnodup) as Hall.
  cbv zeta in Hall.
  assert (Hstart : forall t,
             (In t []
              /\ forall screen0,
                   readAt t (resetOpacity screen0
                               (resetCallbacks (mkDimming screen [] false)))
                   = readAt t screen)
             \/ ((forall screen0,
                     readAt t (resetOpacity screen0
                                 (resetCallbacks (mkDimming screen [] false)))
                     = readAt t screen0)
                 /\ readAt t (dimmed (mkDimming screen [] false))
                    = readAt t screen))
    by (intros t; right; split; [intros screen0|]; reflexivity).
  specialize (Hall Hstart). clear Hstart.
  split; intros id.
  - specialize (Hall (ElementTarget id)). cbn [readAt] in Hall.
    destruct (obj_get (elementOpacity screen) id),
      (obj_get (elementOpacity (resetOpacity _ _)) id);
      cbn [option_map] in Hall; congruence.
  - specialize (Hall (ViewTarget id)). cbn [readAt] in Hall.
    destruct (obj_get (viewOpacity screen) id),
      (obj_get (viewOpacity (resetOpacity _ _)) id);
      cbn [option_map] in Hall; congruence.
Qed.

End OpacityFacts.

(** ** Instances *)

#[local] Existing Instance Sample.schema.
#[local] Existing Instance Sample.consts.
#[local] Existing Instance Sample.widget.
#[local] Existing Instance Sample.recorder.


Lemma rewrite_aligns_every_member_witness :
  let point := mkPoint 100 200 in
  (exists m',
      nth_error
        (snapshotMembers
           (rewriteSnapshotXYWH Sample.cards point false)) 1
      = Some m'
      /\ memberId m' = "b1"
      /\ b_x (memberBound m') = (13 - 3 + 100)%Z
      /\ b_y (memberBound m') = (24 - 4 + 200)%Z
      /\ (b_w (memberBound m'), b_h (memberBound m')) = (752, 116)%Z)
  /\ (exists m',
         nth_error
           (snapshotMembers
              (rewriteSnapshotXYWH Sample.cards point true)) 0
         = Some m'
         /\ memberId m' = "a1"
         /\ b_x (memberBound m') = 100%Z
         /\ b_y (memberBound m') = 200%Z
         /\ (b_w (memberBound m'), b_h (memberBound m')) = (364, 390)%Z)
  /\ rewriteSnapshotXYWH
       (mkSlice "doc1" [Sample.textUnit "p1" "affine:paragraph"]) point false
     = mkSlice "doc1" [Sample.textUnit "p1" "affine:paragraph"].
Proof.
  intros point.
  pose proof (rewrite_aligns_every_member Sample.cards point) as [Hmove _].
  pose proof (rewrite_aligns_every_member
                (mkSlice "doc1" [Sample.textUnit "p1" "affine:paragraph"])
                point) as (_ & _ & Hnone).
  split; [|split].
  - exact (Hmove (mkBound 3 4 80 100) false 1%nat
             (BlockMember "b1" "affine:embed-github" (Some "horizontal")
                (mkBound 13 24 70 80)) eq_refl eq_refl).
  - exact (Hmove (mkBound 3 4 80 100) true 0%nat
             (BlockMember "a1" "affine:attachment" None (mkBound 3 4 50 60))
             eq_refl eq_refl).
  - exact (Hnone false (or_intror eq_refl)).
Defined.

(** C4 as stated fails: the scan of a drag within the document reads the
    snapshot as it was dragged, not the rewritten one.  Of a shape of
    area 2000 and an attachment stored with area 100, the reference goes
    to the shape, while in the rewritten snapshot, where the attachment
    has the size of its card, the attachment is the largest member. *)
Lemma reference_follows_the_dragged_bounds :
  let dragPayload :=
    Sample.dragOf "doc1" FromGfx (content Cases.shapeAndCard) in
  onPageDrop (Sample.component Sample.paragraph1) dragPayload
    (mkDropPayload (Some EdgeBottom))
  = AddBlock "affine:surface-ref" (SurfaceRefProps "s") "note1" 1
  /\ fold_left considerMember
       (snapshotMembers
          (rewriteSnapshotXYWH Cases.shapeAndCard (mergePoint None) false))
       None
     = Some (mkLargest 141960 "att")
  /\ "s" <> "att".
Proof.
  intros dragPayload. split; [reflexivity|]. split; [reflexivity|].
  discriminate.
Qed.

Lemma largest_member_is_first_maximum_witness :
  let dropBlock := Sample.component Sample.paragraph1 in
  let dropPayload := mkDropPayload (Some EdgeBottom) in
  let dragPayload :=
    Sample.dragOf "doc1" FromGfx (content Sample.fourShapes) in
  let foreign :=
    Sample.dragOf "doc2" FromGfx (content Sample.fourShapes) in
  let s :=
    mergeSnapshotToCurDoc 3 Sample.emptyDoc
      (mkSlice "doc2" (content Sample.fourShapes)) None in
  let scanned := mergedMembers (ms_store s) (ms_idRemap s) in
  (onPageDrop dropBlock dragPayload dropPayload
   = AddBlock "affine:surface-ref" (SurfaceRefProps "b") "note1" 1
   /\ exists snapshot i m,
       payloadSnapshot dragPayload = Some snapshot
       /\ nth_error (snapshotMembers snapshot) i = Some m
       /\ memberId m = "b"
       /\ (forall j m', nth_error (snapshotMembers snapshot) j = Some m' ->
                        (b_w (memberBound m') * b_h (memberBound m')
                         <= b_w (memberBound m) * b_h (memberBound m))%Z)
       /\ (forall j m', (j < i)%nat ->
                        nth_error (snapshotMembers snapshot) j = Some m' ->
                        (b_w (memberBound m') * b_h (memberBound m')
                         < b_w (memberBound m) * b_h (memberBound m))%Z))
  /\ (List.last
        (Sample.calls
           (perform 3 Sample.emptyDoc
              (onPageDrop dropBlock foreign dropPayload)))
        (Sample.CallDeleteBlock "")
      = Sample.CallAddBlock "affine:surface-ref" (SurfaceRefProps "live1")
          "note1" (Some 1%Z)
      /\ ((exists i m,
              nth_error scanned i = Some m
              /\ (0 < b_w (memberBound m) * b_h (memberBound m))%Z
              /\ (forall j m', nth_error scanned j = Some m' ->
                               (b_w (memberBound m') * b_h (memberBound m')
                                <= b_w (memberBound m) * b_h (memberBound m))%Z)
              /\ (forall j m', (j < i)%nat ->
                               nth_error scanned j = Some m' ->
                               (b_w (memberBound m') * b_h (memberBound m')
                                < b_w (memberBound m) * b_h (memberBound m))%Z)
              /\ perform 3 Sample.emptyDoc
                   (onPageDrop dropBlock foreign dropPayload)
                 = snd (addBlock (ms_store s) "affine:surface-ref"
                          (SurfaceRefProps (memberId m)) "note1"
                          (Some 1%Z)))
          \/ ((forall m, In m scanned ->
                         (b_w (memberBound m) * b_h (memberBound m) <= 0)%Z)
              /\ perform 3 Sample.emptyDoc
                   (onPageDrop dropBlock foreign dropPayload)
                 = snd (addBlock (ms_store s) "affine:embed-linked-doc"
                          (LinkedDocProps storeDocId) "note1" (Some 1%Z))))).
Proof.
  intros dropBlock dropPayload dragPayload foreign s scanned.
  destruct (largest_member_is_first_maximum (Store := Sample.Recorder))
    as [Hwalk Hmerged].
  assert (Hdrop : onPageDrop dropBlock foreign dropPayload
                  = MergeThenReference
                      (mkSlice "doc2" (content Sample.fourShapes)) "note1" 1)
    by reflexivity.
  assert (Hrun : ms_status s = Running) by reflexivity.
  split; (split; [reflexivity|]).
  - exact (Hwalk dropBlock dragPayload dropPayload "b" "note1" 1%Z eq_refl).
  - exact (Hmerged dropBlock foreign dropPayload _ "note1" 1%Z 3%nat
             Sample.emptyDoc Hdrop Hrun).
Defined.

(** C5 as stated fails: the first child of a note, dropped on that note,
    is decided to go inside at index 0, where it sits already; the drop
    is accepted and the snapshot is handed to the move all the same. *)
Lemma first_child_dropped_on_its_parent_is_moved :
  let unit := Sample.textUnit "p1" "affine:paragraph" in
  let dragPayload := Sample.dragOf "doc1" FromBlock [unit] in
  let dropBlock := Sample.component Sample.noteModel in
  let dropPayload := mkDropPayload (Some EdgeBottom) in
  getParent Sample.paragraph1 = Some Sample.noteModel
  /\ childAt (m_children Sample.noteModel) 0 = Some "p1"
  /\ canDrop Sample.noteModel dragPayload = true
  /\ (exists result,
         getDropResult dropBlock dragPayload dropPayload = Some result
         /\ placement result = PIn
         /\ dropParent result = Some Sample.noteModel
         /\ dropIndex result Sample.noteModel = 0%Z)
  /\ onPageDrop dropBlock dragPayload dropPayload
     = DropToModel (mkSlice "doc1" [unit]) "note1" 0
  /\ onPageDrop dropBlock dragPayload dropPayload <> NoMutation.
Proof.
  intros unit dragPayload dropBlock dropPayload.
  split; [reflexivity|]. split; [reflexivity|]. split; [reflexivity|].
  split; [eexists; repeat split; reflexivity|].
  split; [reflexivity|discriminate].
Qed.

Lemma same_place_drop_is_noop_witness :
  let dragPayload :=
    Sample.dragOf "doc1" FromBlock [Sample.textUnit "l1" "affine:list"] in
  let dropBlock := Sample.component Sample.paragraph1 in
  let dropPayload := mkDropPayload (Some EdgeBottom) in
  childAt (m_children Sample.noteModel) 1 = Some "l1"
  /\ onPageDrop dropBlock dragPayload dropPayload = NoMutation
  /\ forall (Store : Type) (mutator : Mutator Store) (fuel : nat)
            (st : Store),
      perform fuel st (onPageDrop dropBlock dragPayload dropPayload) = st.
Proof.
  intros dragPayload dropBlock dropPayload. split; [reflexivity|].
  refine (same_place_drop_is_noop dropBlock dragPayload dropPayload _
            (mkSlice "doc1" [Sample.textUnit "l1" "affine:list"])
            Sample.noteModel (Sample.textUnit "l1" "affine:list") []
            eq_refl eq_refl eq_refl eq_refl eq_refl eq_refl _).
  left. split; [reflexivity|]. split; [|reflexivity].
  exists (mkFrom "doc1"). split; reflexivity.
Defined.

(** C6 as stated fails: a note dragged in from another document is
    merged into the target note, and no block is deleted afterwards. *)
Lemma note_from_other_document_is_not_deleted :
  let dragged :=
    Sample.noteUnit "n9" [Sample.textUnit "p9" "affine:paragraph"] in
  let dragPayload := Sample.dragOf "doc2" FromGfx [dragged] in
  let action :=
    onPageDrop (Sample.component Sample.paragraph1) dragPayload
      (mkDropPayload (Some EdgeBottom)) in
  action = DropNoteOnNote (mkSlice "doc2" [dragged]) "note1" 1
  /\ Sample.calls (perform 3 Sample.doc1 action)
     = [Sample.CallSnapshotToSlice
          (mkSlice "doc2" [Sample.textUnit "p9" "affine:paragraph"])
          "note1" (Some 1%Z)]
  /\ ~ In (Sample.CallDeleteBlock "n9")
         (Sample.calls (perform 3 Sample.doc1 action)).
Proof.
  intros dragged dragPayload action.
  split; [reflexivity|]. split; [reflexivity|].
  intros [Hin|[]]. discriminate Hin.
Qed.

Lemma note_dropped_on_note_is_merged_witness :
  let dragged :=
    Sample.noteUnit "note2" [Sample.textUnit "q1" "affine:paragraph"] in
  let dragPayload := Sample.dragOf "doc1" FromGfx [dragged] in
  let dropBlock := Sample.component Sample.paragraph1 in
  let dropPayload := mkDropPayload (Some EdgeBottom) in
  onPageDrop dropBlock dragPayload dropPayload
  = DropNoteOnNote (mkSlice "doc1" [dragged]) "note1" 1
  /\ Sample.calls
       (perform 3 Sample.doc1 (onPageDrop dropBlock dragPayload dropPayload))
     = [Sample.CallSnapshotToSlice
          (mkSlice "doc1" [Sample.textUnit "q1" "affine:paragraph"])
          "note1" (Some 1%Z);
        Sample.CallDeleteBlock "note2"].
Proof.
  intros dragged dragPayload dropBlock dropPayload.
  pose proof (note_dropped_on_note_is_merged dropBlock dragPayload
                dropPayload _ (mkSlice "doc1" [dragged]) Sample.noteModel
                dragged [] eq_refl eq_refl eq_refl eq_refl eq_refl eq_refl
                eq_refl) as [Hmerge _].
  assert (Hne : m_id Sample.noteModel <> bs_id dragged) by discriminate.
  destruct (Hmerge Hne) as [Haction Hperform].
  split; [exact Haction|].
  destruct (Hperform Sample.Recorder Sample.recorder 3%nat Sample.doc1)
    as [Hdelete _].
  rewrite Hdelete; [reflexivity|discriminate|reflexivity].
Defined.

(** C7 as stated fails: dropped on the right edge of a list item that has
    a child, the snapshot goes to index 0 of the item's children and not
    behind the last of them. *)
Lemma list_item_drop_is_not_appended :
  let dragPayload :=
    Sample.dragOf "doc1" FromBlock [Sample.textUnit "x" "affine:list"] in
  let action :=
    onPageDrop (Sample.component Sample.listItem) dragPayload
      (mkDropPayload (Some EdgeRight)) in
  m_children Sample.listItem = ["l2"]
  /\ action
     = DropToModel (mkSlice "doc1" [Sample.textUnit "x" "affine:list"])
         "l1" 0
  /\ action
     <> DropToModel (mkSlice "doc1" [Sample.textUnit "x" "affine:list"])
          "l1" (Z.of_nat (length (m_children Sample.listItem))).
Proof.
  intros dragPayload action.
  split; [reflexivity|]. split; [reflexivity|]. discriminate.
Qed.

Lemma list_item_right_edge_drop_witness :
  let valid :=
    Sample.dragOf "doc1" FromBlock [Sample.textUnit "x" "affine:list"] in
  let invalid :=
    Sample.dragOf "doc1" FromBlock [Sample.textUnit "y" "affine:paragraph"] in
  let dropPayload := mkDropPayload (Some EdgeRight) in
  onPageDrop (Sample.component Sample.listItem) valid dropPayload
  = DropToModel (mkSlice "doc1" [Sample.textUnit "x" "affine:list"]) "l1" 0
  /\ exists result,
      getDropResult (Sample.component Sample.nestedItem) invalid dropPayload
      = Some result
      /\ placement result = PAfter
      /\ ms_model result = Sample.listItem.
Proof.
  intros valid invalid dropPayload. split.
  - pose proof (list_item_right_edge_drop
                  (Sample.component Sample.listItem) valid dropPayload
                  (mkSlice "doc1" [Sample.textUnit "x" "affine:list"])
                  (Sample.textUnit "x" "affine:list") [] eq_refl eq_refl)
      as Hdrop.
    assert (Hfrom : from valid <> None) by discriminate.
    destruct (Hdrop Hfrom eq_refl eq_refl) as [Hinside _].
    destruct (Hinside eq_refl) as (_ & Hblock & _).
    exact (Hblock eq_refl).
  - pose proof (list_item_right_edge_drop
                  (Sample.component Sample.nestedItem) invalid dropPayload
                  (mkSlice "doc1" [Sample.textUnit "y" "affine:paragraph"])
                  (Sample.textUnit "y" "affine:paragraph") [] eq_refl eq_refl)
      as Hdrop.
    assert (Hfrom : from invalid <> None) by discriminate.
    destruct (Hdrop Hfrom eq_refl eq_refl) as [_ Hfallback].
    destruct (Hfallback eq_refl) as [_ Hafter].
    exact (Hafter (mkDomRect 0 0 100 20) eq_refl).
Defined.

(** C8 as stated fails: of a paragraph and a note dropped together on the
    canvas, only the paragraph is applied inside the new note. *)
Lemma wrapped_snapshot_is_filtered :
  let units :=
    [Sample.textUnit "x" "affine:paragraph"; Sample.noteUnit "n" []] in
  Sample.calls
    (dropAsGfxBlock Sample.emptyDoc (mkSlice "doc1" units) (mkPoint 5 5))
  = [Sample.CallAddBlock "affine:note"
       (NoteProps (mkBound 25 25 800 92)) "root1" None;
     Sample.CallSnapshotToSlice
       (mkSlice "doc1" [Sample.textUnit "x" "affine:paragraph"])
       "live0" None]
  /\ ~ In (Sample.CallSnapshotToSlice (mkSlice "doc1" units) "live0" None)
         (Sample.calls
            (dropAsGfxBlock Sample.emptyDoc (mkSlice "doc1" units)
               (mkPoint 5 5))).
Proof.
  intros units. split; [reflexivity|].
  intros [Hin|[Hin|[]]]; discriminate Hin.
Qed.

Lemma unplaceable_units_are_wrapped_in_note_witness :
  let snapshot :=
    mkSlice "doc1"
      [Sample.textUnit "x" "affine:paragraph"; Sample.noteUnit "n" []] in
  exists pos : Point,
    let created :=
      addBlock Sample.emptyDoc "affine:note"
        (NoteProps
           (mkBound (p_x pos) (p_y pos) DEFAULT_NOTE_WIDTH
              DEFAULT_NOTE_HEIGHT))
        rootId None in
    dropAsGfxBlock Sample.emptyDoc snapshot (mkPoint 5 5)
    = snd (dropToModel (snd created)
             (withContent snapshot
                (List.filter
                   (fun block =>
                      safeValidate (bs_flavour block) "affine:note")
                   (content snapshot)))
             (fst created) None).
Proof.
  intros snapshot.
  exact (unplaceable_units_are_wrapped_in_note Sample.emptyDoc snapshot
           (mkPoint 5 5) (Sample.textUnit "x" "affine:paragraph")
           (or_introl eq_refl) eq_refl eq_refl).
Defined.

Lemma no_decision_for_disqualified_drops_witness :
  let dragPayload :=
    Sample.dragOf "doc1" FromBlock [Sample.textUnit "p2" "affine:paragraph"] in
  let dropPayload := mkDropPayload (Some EdgeTop) in
  makeDropTarget EdgelessMode (Sample.component Sample.surfaceModel) = None
  /\ getDropResult (Sample.component Sample.database) dragPayload dropPayload
     = None
  /\ updateDropIndicator (Some (Some (fromLWTH 1 2 3 4)))
       (Some (Sample.component Sample.noteModel)) false dragPayload
       dropPayload (Sample.component Sample.database)
     = Some None
  /\ getDropResult (Sample.component Sample.paragraph1)
       (mkPayload (bsEntity dragPayload) None) dropPayload
     = None.
Proof.
  intros dragPayload dropPayload.
  destruct (no_decision_for_disqualified_drops EdgelessMode
              (Sample.component Sample.surfaceModel) dragPayload dropPayload
              None None false) as [Hsurface _].
  destruct (no_decision_for_disqualified_drops PageMode
              (Sample.component Sample.database) dragPayload dropPayload
              (Some (Some (fromLWTH 1 2 3 4)))
              (Some (Sample.component Sample.noteModel)) false)
    as [_ Hdatabase].
  destruct (no_decision_for_disqualified_drops PageMode
              (Sample.component Sample.paragraph1)
              (mkPayload (bsEntity dragPayload) None) dropPayload
              None None false) as [_ Horigin].
  split; [exact (Hsurface eq_refl)|].
  destruct (Hdatabase (or_intror (or_intror (or_intror eq_refl))))
    as [Hnone Hindicator].
  split; [exact Hnone|]. split; [exact Hindicator|].
  exact (proj1 (Horigin (or_intror (or_intror (or_introl eq_refl))))).
Defined.

Lemma canDrop_same_doc_rejects_dragged_witness :
  let units := [Sample.textUnit "p1" "affine:paragraph"] in
  canDrop Sample.paragraph1 (Sample.dragOf "doc1" FromBlock units) = false
  /\ canDrop Sample.paragraph1 (Sample.dragOf "doc2" FromBlock units) = true.
Proof.
  intros units. split.
  - destruct (canDrop_same_doc_rejects_dragged Sample.paragraph1
                (Sample.dragOf "doc1" FromBlock units)
                (mkEntity "blocks" (Some FromBlock)
                   (Some (mkSlice "doc1" units)) (map bs_id units))
                eq_refl eq_refl) as [Hreject _].
    exact (Hreject (mkFrom "doc1") eq_refl eq_refl (or_introl eq_refl)).
  - destruct (canDrop_same_doc_rejects_dragged Sample.paragraph1
                (Sample.dragOf "doc2" FromBlock units)
                (mkEntity "blocks" (Some FromBlock)
                   (Some (mkSlice "doc2" units)) (map bs_id units))
                eq_refl eq_refl) as [_ Haccept].
    apply Haccept. intros f [= <-]. discriminate.
Defined.

Lemma decision_on_ordinary_target_witness :
  let dragPayload :=
    Sample.dragOf "doc1" FromBlock [Sample.textUnit "p2" "affine:paragraph"] in
  exists result,
    getDropResult (Sample.component Sample.paragraph1) dragPayload
      (mkDropPayload (Some EdgeTop))
    = Some result
    /\ ms_model result = Sample.paragraph1
    /\ placement result = PBefore
    /\ rect result = fromLWTH 0 100 (-3) 3.
Proof.
  intros dragPayload.
  assert (Hfrom : from dragPayload <> None) by discriminate.
  destruct (decision_on_ordinary_target
              (Sample.component Sample.paragraph1) dragPayload
              (mkDropPayload (Some EdgeTop))
              (mkSlice "doc1" [Sample.textUnit "p2" "affine:paragraph"])
              (Sample.textUnit "p2" "affine:paragraph") []
              eq_refl eq_refl Hfrom eq_refl eq_refl)
    as (result & Hresult & Hmodel & _ & Hplace & _).
  exists result. split; [exact Hresult|]. split; [exact Hmodel|].
  split; [exact Hplace|].
  simpl in Hresult. injection Hresult as <-. reflexivity.
Defined.

Lemma drop_index_is_next_to_target_witness :
  let result :=
    mkDropResult PAfter (fromLWTH 0 100 20 3) Sample.listItem
      (mkDomRect 0 0 100 20) in
  dropIndex result Sample.noteModel = 2%Z
  /\ childAt (m_children Sample.noteModel) 1 = Some "l1".
Proof.
  intros result.
  assert (Hplace : placement result <> PIn) by discriminate.
  destruct (drop_index_is_next_to_target result Sample.noteModel
              (or_intror (or_introl eq_refl)) Hplace) as [_ Hchild].
  split; [reflexivity|exact Hchild].
Defined.

Lemma drop_index_of_unlisted_target_witness :
  dropIndex
    (mkDropResult PBefore (fromLWTH 0 100 0 3) Sample.nestedItem
       (mkDomRect 0 0 100 20))
    Sample.noteModel
  = (-1)%Z.
Proof.
  apply (drop_index_of_unlisted_target
           (mkDropResult PBefore (fromLWTH 0 100 0 3) Sample.nestedItem
              (mkDomRect 0 0 100 20))
           Sample.noteModel).
  simpl. intros [H|[H|[H|[H|[]]]]]; discriminate H.
Defined.


Lemma linked_doc_only_without_area_witness :
  let dropBlock := Sample.component Sample.paragraph1 in
  let dropPayload := mkDropPayload (Some EdgeBottom) in
  let here := Sample.dragOf "doc1" FromGfx (content Cases.flatShape) in
  let foreign := Sample.dragOf "doc2" FromGfx (content Sample.fourShapes) in
  (onPageDrop dropBlock here dropPayload
   = AddBlock "affine:embed-linked-doc" (LinkedDocProps "doc1") "note1" 1
   /\ payloadFromMode here = Some FromGfx
   /\ fromThisDoc here = true)
  /\ (onPageDrop dropBlock foreign dropPayload
      = MergeThenReference (mkSlice "doc2" (content Sample.fourShapes))
          "note1" 1
      /\ payloadFromMode foreign = Some FromGfx
      /\ fromThisDoc foreign = false
      /\ List.last
           (Sample.calls
              (perform 3 Sample.emptyDoc
                 (onPageDrop dropBlock foreign dropPayload)))
           (Sample.CallDeleteBlock "")
         = Sample.CallAddBlock "affine:surface-ref"
             (SurfaceRefProps "live1") "note1" (Some 1%Z)).
Proof.
  intros dropBlock dropPayload here foreign.
  pose proof (linked_doc_only_without_area (Store := Sample.Recorder)
                dropBlock here dropPayload) as Hhere.
  pose proof (linked_doc_only_without_area (Store := Sample.Recorder)
                dropBlock foreign dropPayload) as Hforeign.
  assert (Hdrop : onPageDrop dropBlock here dropPayload
                  = AddBlock "affine:embed-linked-doc"
                      (LinkedDocProps "doc1") "note1" 1) by reflexivity.
  assert (Hmerge : onPageDrop dropBlock foreign dropPayload
                   = MergeThenReference
                       (mkSlice "doc2" (content Sample.fourShapes))
                       "note1" 1) by reflexivity.
  rewrite Hdrop in Hhere. rewrite Hmerge in Hforeign.
  destruct Hhere as (Hmode & Hdoc & _).
  destruct Hforeign as (Hmode' & Hdoc' & _).
  split.
  - split; [exact Hdrop|]. split; [exact Hmode|exact Hdoc].
  - split; [exact Hmerge|]. split; [exact Hmode'|].
    split; [exact Hdoc'|reflexivity].
Defined.

Lemma remapKeys_renames_resolved_children_witness :
  remapKeys Cases.someRemap Cases.someChildren
  = [("live0", JTrue); ("live2", JText "x")].
Proof.
  apply (remapKeys_renames_resolved_children Cases.someRemap
           Cases.someChildren).
  - repeat constructor; simpl; intuition discriminate.
  - simpl. intros k r [<-|[<-|[<-|[]]]] [= <-];
      intros [H|[H|[H|[]]]]; discriminate H.
  - simpl. intros k1 k2 r [<-|[<-|[<-|[]]]] [<-|[<-|[<-|[]]]];
      simpl; congruence.
Defined.

Lemma resolved_merge_covers_roots_witness :
  let s := mergeSnapshotToCurDoc 3 Sample.emptyDoc Sample.frameWithShape None in
  rootSet
    (analyse
       (rewriteSnapshotXYWH Sample.frameWithShape (mergePoint None) false))
  = ["F"]
  /\ (exists ev, In ev (ms_applied s) /\ appliedId ev = "F")
  /\ ms_idRemap s = [("e1", "live0"); ("F", "live1")].
Proof.
  intros s.
  assert (Hrun : ms_status s = Running) by reflexivity.
  destruct (resolved_merge_covers_roots 3 Sample.emptyDoc
              Sample.frameWithShape None Hrun) as (Hroots & _ & _).
  split; [reflexivity|]. split; [|reflexivity].
  exact (Hroots "F" (or_introl eq_refl) eq_refl).
Defined.

Lemma merge_does_not_depend_on_budget_witness :
  ms_status
    (mergeSnapshotToCurDoc 2 Sample.emptyDoc Sample.frameWithShape None)
  <> OutOfFuel
  /\ mergeSnapshotToCurDoc 9 Sample.emptyDoc Sample.frameWithShape None
     = mergeSnapshotToCurDoc 2 Sample.emptyDoc Sample.frameWithShape None.
Proof.
  apply (merge_does_not_depend_on_budget 2 9 Sample.emptyDoc
           Sample.frameWithShape None); [reflexivity|lia].
Defined.

Lemma merge_recursion_follows_every_chain_witness :
  rootSet
    (analyse (rewriteSnapshotXYWH Cases.frameCycle (mergePoint None) false))
  = ["F0"]
  /\ ms_status
       (mergeSnapshotToCurDoc 7 Sample.emptyDoc Cases.frameCycle None)
     <> Running.
Proof.
  split; [reflexivity|].
  apply (merge_recursion_follows_every_chain 7 Sample.emptyDoc
           Cases.frameCycle None).
  reflexivity.
Defined.

Lemma blocks_are_applied_under_surface_or_root_witness :
  exists block idRemap,
    nth_error Sample.frameRun 1
    = Some (AppliedBlock "F" block "surface1" idRemap (Some "live1"))
    /\ bs_id block = "F"
    /\ bs_flavour block <> "affine:surface".
Proof.
  eexists _, _. split; [reflexivity|].
  assert (Hin : In (AppliedBlock "F"
                      (Block "F" "affine:frame"
                         (mkProps (Some (mkBound 200 50 100 100)) None None
                            (Some [("live0", JTrue)]))
                         [])
                      "surface1" [("e1", "live0")] (Some "live1"))
                  (ms_applied
                     (mergeSnapshotToCurDoc 3 Sample.emptyDoc
                        Sample.frameWithShape None)))
    by (right; left; reflexivity).
  destruct (blocks_are_applied_under_surface_or_root _ _ _ _ _ _ _ _ _ Hin)
    as (Hid & Hflavour & _).
  split; [exact Hid|exact Hflavour].
Defined.

Lemma drag_dims_exactly_the_snapshot_witness :
  let dimmedScreen :=
    fst (setOpacityOfDraggedBlocks 70%Z Cases.screen [] Sample.frameWithShape)
  in
  obj_get (elementOpacity dimmedScreen) "e1" = Some 70%Z
  /\ obj_get (elementOpacity dimmedScreen) "e0" = Some 100%Z
  /\ obj_get (viewOpacity dimmedScreen) "F" = Some "0.7"
  /\ obj_get (viewOpacity dimmedScreen) "note1" = Some "0.5".
Proof.
  intros dimmedScreen.
  destruct (drag_dims_exactly_the_snapshot Z 70%Z Cases.screen []
              Sample.frameWithShape eq_refl) as [Helems Hviews].
  destruct (Helems "e1") as [He1 _]. destruct (Helems "e0") as [_ He0].
  destruct (Hviews "F") as [HF _]. destruct (Hviews "note1") as [_ Hnote].
  split; [exact (He1 (or_intror (or_introl eq_refl)))|].
  split; [apply He0; simpl; intros [H|[H|[]]]; discriminate H|].
  split; [exact (HF (or_introl eq_refl))|].
  apply Hnote. simpl. intros [H|[H|[]]]; discriminate H.
Defined.

Lemma cleanup_restores_opacity_witness :
  let started :=
    setOpacityOfDraggedBlocks 70%Z Cases.screen [] Sample.frameWithShape in
  obj_get (elementOpacity (fst started)) "e1" = Some 70%Z
  /\ obj_get (elementOpacity (resetOpacity (fst started) (snd started))) "e1"
     = Some 100%Z
  /\ obj_get (viewOpacity (resetOpacity (fst started) (snd started))) "F"
     = Some "".
Proof.
  intros started.
  assert (Hnodup : List.NoDup
                     (flat_map dimTargets (content Sample.frameWithShape))).
  { simpl. repeat constructor; simpl; intuition discriminate. }
  destruct (cleanup_restores_opacity Z 70%Z Cases.screen []
              Sample.frameWithShape eq_refl Hnodup) as [Helems Hviews].
  split; [reflexivity|]. split; [exact (Helems "e1")|exact (Hviews "F")].
Defined.

(** C1 (the code departs from it).  A canvas selection of the group g1
    that owns the shape e1, the group being listed first.  The class of
    g1 extends [GfxGroupLikeElementModel], yet the test of
    [isGroupLikeElem] fails for it, as it does for every class, and the
    container tree gets no dependency set for g1.  The merge applies g1
    first, while the remap table is empty, with its child-id set
    emptied, and e1 only afterwards: the group is added without the
    member it depends on.  So it is for every mutator and every recursion
    budget of at least one. *)
Theorem group_listed_first_loses_its_member (Store : Type)
    (mutator : Mutator Store) (st : Store) (fuel : nat) :
  let g1 := mkElem "g1" "group" None (Some [("e1", JTrue)]) in
  let a :=
    analyse
      (rewriteSnapshotXYWH Cases.groupBeforeShape (mergePoint None) false) in
  isGroupElement g1 = true
  /\ (forall type, isGroupLikeElem type = false)
  /\ obj_get (elemMap a) "g1" = Some g1
  /\ obj_get (containerTree a) "g1" = None
  /\ exists n1 n2,
       ms_applied
         (mergeSnapshotToCurDoc (S fuel) st Cases.groupBeforeShape None)
       = [AppliedElem "g1" (mkElem "g1" "group" None (Some [])) [] n1;
          AppliedElem "e1" (Sample.shape "e1" (mkBound 200 50 40 20))
            [("g1", n1)] n2].
Proof.
  intros g1 a. split; [reflexivity|]. split; [apply isGroupLikeElem_never|].
  split; [reflexivity|]. split; [reflexivity|].
  unfold mergeSnapshotToCurDoc.
  set (aligned := rewriteSnapshotXYWH _ _ _). vm_compute in aligned.
  subst aligned. set (a' := analyse _). vm_compute in a'. subst a'.
  destruct fuel; cbn -[addElement];
    destruct (addElement st _) as [n1 st1]; cbn -[addElement];
    destruct (addElement st1 _) as [n2 st2]; cbn -[addElement]; eauto.
Qed.

